(** * Row-Col game: board manager, strategies and turn loop

    A shallow embedding of [board_manager.py], [strategies.py] and the turn
    loop of [game_engine.py], followed by the properties of the specification
    that are settled on it.

    Python integers are [Z]; Python lists are [list] with the interpreter's
    indexing rules (negative indices count from the end, anything else out of
    range raises [IndexError]); exceptions are values of [exn] carried by
    [result]; code that mutates the board is a function from the board to a
    result and the board it leaves behind. *)

From Stdlib Require Import ZArith List Bool Lia String Ascii.
From Stdlib Require DecimalString.
From stdpp Require Import base decidable option numbers list sorting.
Import ListNotations.
Local Open Scope Z_scope.

(** ** Exceptions and the error monad *)

Inductive exn : Type :=
| ValueError (msg : string)
| IndexError
| TypeError
| RuntimeError (msg : string)
| KeyboardInterrupt
| SystemExit
| EOFError
| FileNotFoundError
| UnicodeDecodeError.

Inductive result (A : Type) : Type :=
| Ok (a : A)
| Raise (e : exn).
Arguments Ok {A} a.
Arguments Raise {A} e.

Definition bind {A B : Type} (m : result A) (f : A -> result B) : result B :=
  match m with
  | Ok a => f a
  | Raise e => Raise e
  end.

Notation "x <- m ;; k" := (bind m (fun x => k))
  (at level 100, m at next level, right associativity).

Definition is_ok {A : Type} (m : result A) : bool :=
  match m with Ok _ => true | Raise _ => false end.

(** A Python [for x in xs: body] whose body may raise; [s] is the tuple of
    variables the body updates. *)
Fixpoint for_each {A S : Type} (xs : list A) (body : A -> S -> result S) (s : S)
  : result S :=
  match xs with
  | [] => Ok s
  | x :: xs' => s' <- body x s ;; for_each xs' body s'
  end.

(** ** Python lists *)

(** [range(n)]: empty when [n <= 0]. *)
Definition range (n : Z) : list Z := map Z.of_nat (seq 0 (Z.to_nat n)).

(** The slot an index denotes in a list of length [len], if any. *)
Definition py_index (len : nat) (i : Z) : option nat :=
  if (0 <=? i) && (i <? Z.of_nat len) then Some (Z.to_nat i)
  else if (- Z.of_nat len <=? i) && (i <? 0) then Some (Z.to_nat (Z.of_nat len + i))
  else None.

(** [l[i]] *)
Definition getitem {A : Type} (l : list A) (i : Z) : result A :=
  match py_index (length l) i with
  | Some k => match l !! k with Some x => Ok x | None => Raise IndexError end
  | None => Raise IndexError
  end.

(** [l[i] = v] *)
Definition setitem {A : Type} (l : list A) (i : Z) (v : A) : result (list A) :=
  match py_index (length l) i with
  | Some k => Ok (<[k:=v]> l)
  | None => Raise IndexError
  end.

(** [x or 0] for an optional integer: [None] and [0] are both falsy. *)
Definition or0 (v : option Z) : Z :=
  match v with
  | Some x => if x =? 0 then 0 else x
  | None => 0
  end.

Definition is_not_None {A : Type} (v : option A) : bool :=
  match v with Some _ => true | None => false end.

(** [min(xs)] of a non-empty sequence; [ValueError] on an empty one. *)
Definition py_min (xs : list Z) : result Z :=
  match xs with
  | [] => Raise (ValueError "min() arg is an empty sequence")
  | x :: xs' => Ok (fold_left Z.min xs' x)
  end.

(** Tuples of integers compare lexicographically; a proper prefix is smaller. *)
Fixpoint tuple_gt (k1 k2 : list Z) : bool :=
  match k1, k2 with
  | [], _ => false
  | _ :: _, [] => true
  | x :: xs, y :: ys => if x =? y then tuple_gt xs ys else y <? x
  end.

Definition tuple_lt (k1 k2 : list Z) : bool := tuple_gt k2 k1.

(** ** The random generator

    [random.Random] is the interpreter's library, not this repository's code:
    it is taken as a parameter.  A generator seeded with an integer starts in
    a state that is a function of the seed; an unseeded one starts from
    operating-system entropy.  [randint lo hi] draws a value in [lo..hi] and
    advances the state. *)
Class PyRandom : Type := {
  rng : Type;
  entropy : Type;
  rng_of_seed : Z -> rng;
  rng_of_entropy : entropy -> rng;
  randint : Z -> Z -> rng -> Z * rng;
  randint_range : forall lo hi g, lo <= hi ->
    lo <= fst (randint lo hi g) <= hi
}.

(** A small linear congruential generator, used to run the model. *)
Definition lcg_randint (lo hi : Z) (g : Z) : Z * Z :=
  (lo + g mod (hi - lo + 1), (g * 1103515245 + 12345) mod 2147483648).

Definition lcg : PyRandom.
Proof.
  refine {|
    rng := Z;
    entropy := Z;
    rng_of_seed := fun s => s;
    rng_of_entropy := fun e => e;
    randint := lcg_randint;
    randint_range := _
  |}.
  intros lo hi g Hle. unfold lcg_randint. cbn [fst].
  pose proof (Z.mod_pos_bound g (hi - lo + 1) ltac:(lia)). lia.
Defined.

(** ** board_manager.py *)

Definition Position : Type := Z * Z.
Abbreviation Grid := (list (list (option Z))).

(** [g[r][c]] *)
Definition grid_get (g : Grid) (r c : Z) : result (option Z) :=
  row <- getitem g r ;; getitem row c.

(** [g[r][c] = v]: the row object [g[r]] is updated in place.  The rows of a
    board are distinct objects (each is built afresh by [_init_board]), so the
    other rows are untouched. *)
Definition grid_set (g : Grid) (r c : Z) (v : option Z) : result Grid :=
  row <- getitem g r ;;
  row' <- setitem row c v ;;
  setitem g r row'.

Section Board.
Context {R : PyRandom}.

Record BoardManager : Type := {
  size : Z;
  random : rng;
  board : Grid;
  last_removed_pos : option Position
}.

(** [random.Random(seed)] *)
Definition Random (seed : option Z) (os : entropy) : rng :=
  match seed with
  | Some s => rng_of_seed s
  | None => rng_of_entropy os
  end.

(** [[e for _ in range(n)]] where evaluating [e] advances the generator. *)
Fixpoint comprehension {A : Type} (n : nat) (e : rng -> A * rng) (g : rng)
  : list A * rng :=
  match n with
  | O => ([], g)
  | S n' =>
      let (x, g1) := e g in
      let (xs, g2) := comprehension n' e g1 in
      (x :: xs, g2)
  end.

(** The preset branch of [_init_board]: the loop variables are [grid] and
    [idx] (outer loop), [row] and [idx] (inner loop). *)
Definition preset_rows (sz : Z) (preset_board : list Z) : result Grid :=
  res <- for_each (range sz) (fun _ '(grid, idx) =>
           res_row <- for_each (range sz) (fun _ '(row, idx) =>
                        v <- getitem preset_board idx ;;
                        Ok (row ++ [Some v], idx + 1)) ([], idx) ;;
           let '(row, idx) := res_row in
           Ok (grid ++ [row], idx)) ([], 0) ;;
  Ok (fst res).

Definition _init_board (sz : Z) (rnd : rng) (preset_board : option (list Z))
  : result (Grid * rng) :=
  match preset_board with
  | Some preset =>
      let expected := sz * sz in
      if negb (Z.of_nat (length preset) =? expected) then
        Raise (ValueError "Preset board length != expected")
      else
        grid <- preset_rows sz preset ;;
        Ok (grid, rnd)
  | None =>
      Ok (comprehension (Z.to_nat sz)
            (comprehension (Z.to_nat sz)
               (fun g => let (v, g') := randint 1 9 g in (Some v, g')))
            rnd)
  end.

(** [BoardManager(size, seed, preset_board)]; [os] is the entropy an unseeded
    generator would read. *)
Definition BoardManager_init (sz : Z) (seed : option Z)
    (preset_board : option (list Z)) (os : entropy) : result BoardManager :=
  res <- _init_board sz (Random seed os) preset_board ;;
  Ok {| size := sz; random := snd res; board := fst res;
        last_removed_pos := None |}.

Definition in_bounds (b : BoardManager) (pos : Position) : bool :=
  let '(r, c) := pos in
  (0 <=? r) && (r <? size b) && ((0 <=? c) && (c <? size b)).

Definition is_available (b : BoardManager) (pos : Position) : result bool :=
  let '(r, c) := pos in
  if in_bounds b pos then
    v <- grid_get (board b) r c ;; Ok (is_not_None v)
  else Ok false.

Definition get_value (b : BoardManager) (pos : Position) : result (option Z) :=
  let '(r, c) := pos in grid_get (board b) r c.

(** Code that mutates the board: the result, and the board afterwards (also
    when an exception is raised). *)
Definition Cmd (A : Type) : Type := BoardManager -> result A * BoardManager.

Definition cret {A : Type} (a : A) : Cmd A := fun b => (Ok a, b).

Definition craise {A : Type} (e : exn) : Cmd A := fun b => (Raise e, b).

Definition cbind {A B : Type} (m : Cmd A) (f : A -> Cmd B) : Cmd B :=
  fun b =>
    match m b with
    | (Ok a, b') => f a b'
    | (Raise e, b') => (Raise e, b')
    end.

(** A read-only method call. *)
Definition query {A : Type} (q : BoardManager -> result A) : Cmd A :=
  fun b => (q b, b).

(** [board.board[r][c] = v] *)
Definition board_setitem (r c : Z) (v : option Z) : Cmd unit :=
  fun b =>
    match grid_set (board b) r c v with
    | Ok g => (Ok tt, {| size := size b; random := random b; board := g;
                         last_removed_pos := last_removed_pos b |})
    | Raise e => (Raise e, b)
    end.

Definition set_last_removed_pos (pos : Position) : Cmd unit :=
  fun b => (Ok tt, {| size := size b; random := random b; board := board b;
                      last_removed_pos := Some pos |}).

Definition remove_and_get (pos : Position) : Cmd Z :=
  cbind (query (fun b => is_available b pos)) (fun avail =>
  if negb avail then craise (ValueError "Attempted to remove unavailable position")
  else
    let '(r, c) := pos in
    cbind (query (fun b => grid_get (board b) r c)) (fun val =>
    cbind (board_setitem r c None) (fun _ =>
    cbind (set_last_removed_pos (r, c)) (fun _ =>
    match val with
    | Some v => cret v
    | None => craise TypeError
    end)))).

Definition get_all_available_positions (b : BoardManager) : result (list Position) :=
  for_each (range (size b)) (fun r out =>
    for_each (range (size b)) (fun c out =>
      v <- grid_get (board b) r c ;;
      Ok (if is_not_None v then out ++ [(r, c)] else out)) out) [].

Definition get_allowed_positions (b : BoardManager) (last_pos : Position)
  : result (list Position) :=
  let '(r0, c0) := last_pos in
  allowed <- for_each (range (size b)) (fun c allowed =>
               v <- grid_get (board b) r0 c ;;
               Ok (if is_not_None v then allowed ++ [(r0, c)] else allowed)) [] ;;
  for_each (range (size b)) (fun r allowed =>
    if negb (r =? r0) then
      v <- grid_get (board b) r c0 ;;
      Ok (if is_not_None v then allowed ++ [(r, c0)] else allowed)
    else Ok allowed) allowed.

Definition max_remaining_value (b : BoardManager) : result Z :=
  for_each (range (size b)) (fun r max_val =>
    for_each (range (size b)) (fun c max_val =>
      val <- grid_get (board b) r c ;;
      Ok (match val with
          | Some v => if max_val <? v then v else max_val
          | None => max_val
          end)) max_val) 0.

(** The expression every strategy and the turn loop start with:
    [get_all_available_positions() if last_pos is None
     else get_allowed_positions(last_pos)]. *)
Definition legal_positions (b : BoardManager) (last_pos : option Position)
  : result (list Position) :=
  match last_pos with
  | None => get_all_available_positions b
  | Some p => get_allowed_positions b p
  end.

End Board.

(** ** strategies.py *)

Section Strategies.
Context {R : PyRandom}.

(** A ranking key: a tuple of integers. *)
Definition Key : Type := list Z.

Definition StrategyFunc : Type :=
  BoardManager -> option Position -> result (option Position) * BoardManager.

(** A [for] loop whose body may mutate the board. *)
Fixpoint cfor_each {A S : Type} (xs : list A) (body : A -> S -> Cmd S) (s : S)
  : Cmd S :=
  match xs with
  | [] => cret s
  | x :: xs' => cbind (body x s) (fun s' => cfor_each xs' body s')
  end.

(** A generator expression or loop that only reads: the items in order, the
    first exception ends it. *)
Fixpoint map_each {A B : Type} (f : A -> result B) (xs : list A) : result (list B) :=
  match xs with
  | [] => Ok []
  | x :: xs' => y <- f x ;; ys <- map_each f xs' ;; Ok (y :: ys)
  end.

(** The loop variables are [(best_pos, best_key)]; the value returned is
    [best_pos], which is [None] for an empty candidate list. *)
Definition _best_by_key (candidates : list Position) (key_fn : Position -> Cmd Key)
    (reverse : bool) : Cmd (option Position) :=
  cbind
    (cfor_each candidates (fun pos (best : option Position * option Key) =>
       cbind (key_fn pos) (fun k =>
         match snd best with
         | None => cret (Some pos, Some k)
         | Some best_key =>
             if (if reverse then tuple_gt k best_key else tuple_lt k best_key)
             then cret (Some pos, Some k)
             else cret best
         end)) (None, None))
    (fun best => cret (fst best)).

Definition no_allowed_moves : exn := ValueError "No allowed moves for strategy".

Definition strategy_greedy_maximize : StrategyFunc := fun b last_pos =>
  cbind (query (fun b => legal_positions b last_pos)) (fun allowed =>
  match allowed with
  | [] => craise no_allowed_moves
  | _ :: _ =>
      _best_by_key allowed
        (fun p => query (fun b => v <- get_value b p ;; Ok [or0 v])) true
  end) b.

Definition metric_future_min (pos : Position) : Cmd Key :=
  cbind (query (fun b => get_value b pos)) (fun v =>
  let val_now := or0 v in
  let '(r, c) := pos in
  cbind (query (fun b => grid_get (board b) r c)) (fun saved =>
  cbind (board_setitem r c None) (fun _ =>
  cbind (query (fun b => get_allowed_positions b pos)) (fun opp_options =>
  cbind (query (fun b =>
           match opp_options with
           | [] => Ok 0
           | _ :: _ =>
               vals <- map_each (fun p => v <- get_value b p ;; Ok (or0 v))
                         opp_options ;;
               py_min vals
           end)) (fun min_opp_val =>
  cbind (board_setitem r c saved) (fun _ =>
  cret [val_now - min_opp_val; val_now])))))).

Definition strategy_maximize_future_min : StrategyFunc := fun b last_pos =>
  cbind (query (fun b => legal_positions b last_pos)) (fun allowed =>
  match allowed with
  | [] => craise no_allowed_moves
  | _ :: _ => _best_by_key allowed metric_future_min true
  end) b.

Definition metric_opponent_options (pos : Position) : Cmd Key :=
  let '(r, c) := pos in
  cbind (query (fun b => grid_get (board b) r c)) (fun saved =>
  cbind (board_setitem r c None) (fun _ =>
  cbind (query (fun b => get_allowed_positions b pos)) (fun opp_options =>
  let count := Z.of_nat (length opp_options) in
  cbind (board_setitem r c saved) (fun _ =>
  cbind (query (fun b => get_value b pos)) (fun v =>
  cret [- count; or0 v]))))).

Definition strategy_minimize_opponent_options : StrategyFunc := fun b last_pos =>
  cbind (query (fun b => legal_positions b last_pos)) (fun allowed =>
  match allowed with
  | [] => craise no_allowed_moves
  | _ :: _ => _best_by_key allowed metric_opponent_options true
  end) b.

(** The loop variables of the inner [for p in opp_options] are
    [(contains_global_max, top_hits)]. *)
Definition metric_high_value (global_max : Z) (pos : Position) : Cmd Key :=
  let '(r, c) := pos in
  cbind (query (fun b => grid_get (board b) r c)) (fun saved =>
  cbind (board_setitem r c None) (fun _ =>
  cbind (query (fun b => get_allowed_positions b pos)) (fun opp_options =>
  cbind (query (fun b =>
           for_each opp_options (fun p '(contains_global_max, top_hits) =>
             v <- get_value b p ;;
             let val := or0 v in
             Ok (if val =? global_max then (1, top_hits + 1)
                 else (contains_global_max, top_hits))) (0, 0))) (fun hits =>
  cbind (board_setitem r c saved) (fun _ =>
  cbind (query (fun b => get_value b pos)) (fun v =>
  cret [- fst hits; - snd hits; or0 v])))))).

Definition strategy_high_value_preservation : StrategyFunc := fun b last_pos =>
  cbind (query (fun b => legal_positions b last_pos)) (fun allowed =>
  match allowed with
  | [] => craise no_allowed_moves
  | _ :: _ =>
      cbind (query max_remaining_value) (fun global_max =>
      _best_by_key allowed (metric_high_value global_max) true)
  end) b.

Definition get_strategy (name : string) : result StrategyFunc :=
  if String.eqb name "Greedy" then Ok strategy_greedy_maximize
  else if String.eqb name "MaximizeFutureMin" then Ok strategy_maximize_future_min
  else if String.eqb name "MinimizeOpponentOptions"
       then Ok strategy_minimize_opponent_options
  else if String.eqb name "PreserveHighValues"
       then Ok strategy_high_value_preservation
  else Raise (ValueError "Unknown strategy").

End Strategies.

(** ** game_engine.py *)

(** [str.upper()] on ASCII text: the bytes [a]..[z] are mapped to [A]..[Z]
    and every other byte is kept.  Python's [str.upper()] does the same to a
    string of ASCII characters only; it also maps letters outside ASCII,
    which this definition leaves alone, so a property that depends on the
    upper-casing of free text assumes [is_ascii] of that text. *)
Definition upper_ascii (ch : ascii) : ascii :=
  let n := nat_of_ascii ch in
  if ((97 <=? n) && (n <=? 122))%nat then ascii_of_nat (n - 32) else ch.

Fixpoint upper (s : string) : string :=
  match s with
  | EmptyString => EmptyString
  | String ch s' => String (upper_ascii ch) (upper s')
  end.

(** Text made of ASCII characters only. *)
Definition is_ascii (s : string) : bool :=
  forallb (fun ch => (nat_of_ascii ch <? 128)%nat) (list_ascii_of_string s).

(** [s or d] for an optional string: [None] and the empty string are falsy. *)
Definition str_or (s : option string) (d : string) : string :=
  match s with
  | Some (String ch s') => String ch s'
  | _ => d
  end.

(** [not s] for an optional string. *)
Definition str_falsy (s : option string) : bool :=
  match s with
  | Some (String _ _) => false
  | _ => true
  end.

Record GameConfig : Type := {
  cfg_size : Z;
  cfg_mode : option string;
  cfg_a_strategy : option string;
  cfg_b_strategy : option string;
  cfg_seed : option Z;
  cfg_preset_board : option (list Z);
  cfg_start_player : string
}.

(** [GameConfig.__init__] *)
Definition GameConfig_init (sz : Z) (mode a_strategy b_strategy : option string)
    (seed : option Z) (preset_board : option (list Z))
    (start_player : option string) : GameConfig :=
  let sp := upper (str_or start_player "A") in
  {| cfg_size := sz; cfg_mode := mode;
     cfg_a_strategy := a_strategy; cfg_b_strategy := b_strategy;
     cfg_seed := seed; cfg_preset_board := preset_board;
     cfg_start_player :=
       if String.eqb sp "A" || String.eqb sp "B" then sp else "A"%string |}.

(** One line typed at the prompt.  [Menu] and [Exit] are the two words
    [_guarded_input] reacts to; any other line is represented by what
    [_parse_move_input] makes of it. *)
Inductive line : Type :=
| Menu
| Exit
| Other (parsed : option Position).

Definition _guarded_input (l : line) : result line :=
  match l with
  | Menu => Raise KeyboardInterrupt
  | Exit => Raise SystemExit
  | Other _ => Ok l
  end.

Definition _parse_move_input (raw : line) : option Position :=
  match raw with
  | Other parsed => parsed
  | _ => None
  end.

Section Engine.
Context {R : PyRandom}.

Definition PlayerController : Type := string * option StrategyFunc.

Definition controller_for (config : GameConfig) (mode : string) (player : string)
  : result PlayerController :=
  if String.eqb mode "H_VS_H" then Ok ("human"%string, None)
  else if String.eqb mode "H_VS_C" then
    if String.eqb player "A" then Ok ("human"%string, None)
    else if str_falsy (cfg_b_strategy config)
      then Raise (ValueError "B_STRATEGY must be set for H_VS_C")
      else f <- get_strategy (str_or (cfg_b_strategy config) "") ;;
           Ok ("computer"%string, Some f)
  else if String.eqb mode "C_VS_C" then
    if str_falsy (cfg_a_strategy config) || str_falsy (cfg_b_strategy config)
      then Raise (ValueError "A_STRATEGY and B_STRATEGY must be set for C_VS_C")
      else f <- get_strategy (str_or (if String.eqb player "A"
                                      then cfg_a_strategy config
                                      else cfg_b_strategy config) "") ;;
           Ok ("computer"%string, Some f)
  else Raise (ValueError "Invalid MODE").

(** The variables of the turn loop, and the lines not yet read from the
    console. *)
Record GameState : Type := {
  gs_board : BoardManager;
  a_score : Z;
  b_score : Z;
  round_num : Z;
  last_pos : option Position;
  current : string;
  stdin : list line
}.

(** The inner [while True] of a human turn, for console input that ends:
    [input] holds the lines still to come, and lines are read until one
    passes every check.  Reading past the end of the input is [EOFError].
    The loop has no retry limit; [human_turn] below is the same loop for
    input that need not end. *)
Fixpoint human_move (b : BoardManager) (last : option Position) (input : list line)
  : result Position * list line :=
  match input with
  | [] => (Raise EOFError, [])
  | l :: rest =>
      match _guarded_input l with
      | Raise e => (Raise e, rest)
      | Ok raw =>
          match _parse_move_input raw with
          | None => human_move b last rest
          | Some pos =>
              if negb (in_bounds b pos) then human_move b last rest
              else
                match is_available b pos with
                | Raise e => (Raise e, rest)
                | Ok false => human_move b last rest
                | Ok true =>
                    match last with
                    | Some (r0, c0) =>
                        if negb ((fst pos =? r0) || (snd pos =? c0))
                        then human_move b last rest
                        else (Ok pos, rest)
                    | None => (Ok pos, rest)
                    end
                end
          end
      end
  end.



(** How the turn loop ends: by its [break], or by an exception. *)
Inductive loop_end : Type :=
| GameOver
| Raised (e : exn)
| OutOfFuel.

(** The main [while True]; [fuel] bounds the number of iterations. *)
Fixpoint turn_loop (fuel : nat) (ctrl_A ctrl_B : PlayerController) (st : GameState)
  : loop_end * GameState :=
  match fuel with
  | O => (OutOfFuel, st)
  | S fuel' =>
      match legal_positions (gs_board st) (last_pos st) with
      | Raise e => (Raised e, st)
      | Ok [] => (GameOver, st)
      | Ok (_ :: _) =>
          let '(ptype, strat) :=
            if String.eqb (current st) "A" then ctrl_A else ctrl_B in
          let '(move, b1, input1) :=
            if String.eqb ptype "human" then
              let (m, rest) := human_move (gs_board st) (last_pos st) (stdin st) in
              (match m with Ok p => Ok (Some p) | Raise e => Raise e end,
               gs_board st, rest)
            else
              match strat with
              | None =>
                  (Raise (RuntimeError "Missing strategy for computer player"),
                   gs_board st, stdin st)
              | Some f =>
                  let (m, b') := f (gs_board st) (last_pos st) in
                  (m, b', stdin st)
              end in
          let st1 := {| gs_board := b1; a_score := a_score st;
                        b_score := b_score st; round_num := round_num st;
                        last_pos := last_pos st; current := current st;
                        stdin := input1 |} in
          match move with
          | Raise e => (Raised e, st1)
          | Ok None => (Raised TypeError, st1)
          | Ok (Some pos) =>
              match remove_and_get pos b1 with
              | (Raise e, b2) =>
                  (Raised e,
                   {| gs_board := b2; a_score := a_score st;
                      b_score := b_score st; round_num := round_num st;
                      last_pos := last_pos st; current := current st;
                      stdin := input1 |})
              | (Ok val_now, b2) =>
                  turn_loop fuel' ctrl_A ctrl_B
                    {| gs_board := b2;
                       a_score := if String.eqb (current st) "A"
                                  then a_score st + val_now else a_score st;
                       b_score := if String.eqb (current st) "A"
                                  then b_score st else b_score st + val_now;
                       round_num := round_num st + 1;
                       last_pos := Some pos;
                       current := if String.eqb (current st) "B"
                                  then "A"%string else "B"%string;
                       stdin := input1 |}
              end
          end
      end
  end.

(** [start_game] up to the turn loop: the board, the mode check, the two
    controllers and the initial loop variables. *)
Definition game_setup (config : GameConfig) (os : entropy) (input : list line)
  : result (PlayerController * PlayerController * GameState) :=
  b <- BoardManager_init (cfg_size config) (cfg_seed config)
         (cfg_preset_board config) os ;;
  let mode := upper (str_or (cfg_mode config) "") in
  if negb (String.eqb mode "H_VS_H" || String.eqb mode "H_VS_C"
           || String.eqb mode "C_VS_C")
  then Raise (ValueError "MODE must be one of H_VS_H, H_VS_C, C_VS_C")
  else
    ctrl_A <- controller_for config mode "A" ;;
    ctrl_B <- controller_for config mode "B" ;;
    Ok (ctrl_A, ctrl_B,
        {| gs_board := b; a_score := 0; b_score := 0; round_num := 0;
           last_pos := None;
           current := upper (str_or (Some (cfg_start_player config)) "A");
           stdin := input |}).

Record Summary : Type := {
  sum_a_score : Z;
  sum_b_score : Z;
  sum_rounds : Z;
  sum_mode : string;
  sum_winner : string
}.

(** [start_game]: the set-up, the turn loop, the winner and the closing
    prompt.  [None] stands for a run the fuel did not cover. *)
Definition start_game (fuel : nat) (config : GameConfig) (os : entropy)
    (input : list line) : option (result Summary) :=
  match game_setup config os input with
  | Raise e => Some (Raise e)
  | Ok (ctrl_A, ctrl_B, st0) =>
      match turn_loop fuel ctrl_A ctrl_B st0 with
      | (OutOfFuel, _) => None
      | (Raised e, _) => Some (Raise e)
      | (GameOver, st) =>
          let winner :=
            if b_score st <? a_score st then "A"%string
            else if a_score st <? b_score st then "B"%string
            else "Tie"%string in
          match stdin st with
          | [] => Some (Raise EOFError)
          | l :: _ =>
              match _guarded_input l with
              | Raise e => Some (Raise e)
              | Ok _ =>
                  Some (Ok {| sum_a_score := a_score st;
                              sum_b_score := b_score st;
                              sum_rounds := round_num st;
                              sum_mode := upper (str_or (cfg_mode config) "");
                              sum_winner := winner |})
              end
          end
      end
  end.

End Engine.

(** ** Vocabulary of the specification

    Pure counterparts of the queries, used to state what the code computes. *)

Section Vocabulary.
Context {R : PyRandom}.

(** The shape every constructed board has: [size] rows of [size] cells (no
    rows at all when [size] is not positive). *)
Definition well_formed (b : BoardManager) : bool :=
  (length (board b) =? Z.to_nat (size b))%nat
  && forallb (fun row => (length row =? Z.to_nat (size b))%nat) (board b).

(** The content of a cell of the grid: [None] for a removed cell. *)
Definition cell (g : Grid) (r c : Z) : option Z :=
  match g !! Z.to_nat r with
  | Some row => match row !! Z.to_nat c with Some v => v | None => None end
  | None => None
  end.

(** The grid with the cell at row [r], column [c] replaced by [v]. *)
Definition grid_put (g : Grid) (r c : Z) (v : option Z) : Grid :=
  alter (fun row => <[Z.to_nat c := v]> row) (Z.to_nat r) g.

(** The grid a preset list describes, row-major. *)
Definition preset_grid (sz : Z) (preset : list Z) : Grid :=
  map (fun r => map (fun c => Some (nth (r * Z.to_nat sz + c) preset 0))
                  (seq 0 (Z.to_nat sz)))
    (seq 0 (Z.to_nat sz)).

(** A position that is on the board and still holds a value. *)
Definition available (b : BoardManager) (pos : Position) : bool :=
  in_bounds b pos && is_not_None (cell (board b) (fst pos) (snd pos)).

(** Available cells of row [r0] by ascending column, then available cells of
    column [c0] by ascending row, the cell of row [r0] left out. *)
Definition row_then_column (b : BoardManager) (last : Position) : list Position :=
  let '(r0, c0) := last in
  map (fun c => (r0, c)) (List.filter (fun c => available b (r0, c)) (range (size b)))
  ++ map (fun r => (r, c0))
       (List.filter (fun r => negb (r =? r0) && available b (r, c0)) (range (size b))).

(** All available cells, row by row. *)
Definition row_major (b : BoardManager) : list Position :=
  flat_map (fun r => map (fun c => (r, c))
                       (List.filter (fun c => available b (r, c)) (range (size b))))
    (range (size b)).

(** A previous move is either absent or a position of the board. *)
Definition on_board (b : BoardManager) (last : option Position) : bool :=
  match last with
  | Some p => in_bounds b p
  | None => true
  end.

(** Row-major order on positions. *)
Definition pos_lt (p q : Position) : Prop :=
  fst p < fst q \/ (fst p = fst q /\ snd p < snd q).

Definition legal_set (b : BoardManager) (last : option Position) : list Position :=
  match last with
  | None => row_major b
  | Some p => row_then_column b p
  end.

(** The immediate value of a candidate: [get_value(p) or 0]. *)
Definition value_of (b : BoardManager) (p : Position) : Z :=
  or0 (cell (board b) (fst p) (snd p)).

(** The board with the cell at [p] removed and nothing else changed: the
    state a simulation evaluates the opponent's replies in. *)
Definition simulate (b : BoardManager) (p : Position) : BoardManager :=
  {| size := size b; random := random b;
     board := grid_put (board b) (fst p) (snd p) None;
     last_removed_pos := last_removed_pos b |}.

(** The opponent's legal replies after the candidate [p] is taken. *)
Definition replies (b : BoardManager) (p : Position) : list Position :=
  row_then_column (simulate b p) p.

(** The minimum value among the opponent's replies, 0 when there is none. *)
Definition min_reply_value (b : BoardManager) (p : Position) : Z :=
  match map (value_of (simulate b p)) (replies b p) with
  | [] => 0
  | v :: vs => fold_left Z.min vs v
  end.

Definition key_greedy (b : BoardManager) (p : Position) : Key :=
  [value_of b p].

Definition key_future_min (b : BoardManager) (p : Position) : Key :=
  [value_of b p - min_reply_value b p; value_of b p].

Definition key_opponent_options (b : BoardManager) (p : Position) : Key :=
  [- Z.of_nat (length (replies b p)); value_of b p].

(** The largest value among the available cells, 0 if none exceeds 0. *)
Definition global_max (b : BoardManager) : Z :=
  fold_left Z.max (map (value_of b) (row_major b)) 0.

(** The number of replies whose value equals [gm]. *)
Definition hits (gm : Z) (b : BoardManager) (p : Position) : Z :=
  Z.of_nat (length (List.filter (fun q => value_of (simulate b p) q =? gm)
                      (replies b p))).

(** 1 iff some reply has the value [gm]. *)
Definition exposes (gm : Z) (b : BoardManager) (p : Position) : Z :=
  if existsb (fun q => value_of (simulate b p) q =? gm) (replies b p)
  then 1 else 0.

Definition key_high_value (gm : Z) (b : BoardManager) (p : Position) : Key :=
  [- exposes gm b p; - hits gm b p; value_of b p].

(** [p] is the first candidate of [l] whose key is maximal: no candidate has
    a greater key, and every earlier candidate has a smaller one. *)
Definition first_max (key : Position -> Key) (l : list Position) (p : Position)
  : Prop :=
  exists i : nat,
    l !! i = Some p
    /\ (forall q, In q l -> tuple_gt (key q) (key p) = false)
    /\ (forall j q, (j < i)%nat -> l !! j = Some q -> tuple_gt (key p) (key q) = true).

(** The number of cells still on the board. *)
Definition remaining (b : BoardManager) : nat := length (row_major b).

Definition is_interrupt (e : exn) : bool :=
  match e with
  | KeyboardInterrupt | SystemExit | EOFError => true
  | _ => false
  end.

End Vocabulary.

(** ** Vocabulary of the turn loop *)

Section LoopVocabulary.
Context {R : PyRandom}.

(** A strategy that, offered a non-empty legal set, returns one of its
    positions and hands the board back as it was. *)
Definition sound_strategy (f : StrategyFunc) : Prop :=
  forall (b : BoardManager) (last : option Position),
    well_formed b = true -> on_board b last = true -> legal_set b last <> [] ->
    exists p, f b last = (Ok (Some p), b) /\ In p (legal_set b last).

Definition is_human (c : PlayerController) : bool := String.eqb (fst c) "human".

(** A controller as [controller_for] builds them. *)
Definition good_controller (c : PlayerController) : Prop :=
  c = ("human"%string, None)
  \/ exists f, c = ("computer"%string, Some f) /\ sound_strategy f.

(** The board a successful [remove_and_get pos] leaves. *)
Definition removed (b : BoardManager) (pos : Position) : BoardManager :=
  {| size := size b; random := random b;
     board := grid_put (board b) (fst pos) (snd pos) None;
     last_removed_pos := Some pos |}.

(** The boards a game can hold: a constructed board, and any board a
    successful [remove_and_get] leaves.  (The strategies hand the board back
    as it was.) *)
Inductive reachable : BoardManager -> Prop :=
| reach_init (sz : Z) (seed : option Z) (preset : option (list Z)) (os : entropy)
    (b : BoardManager) :
    BoardManager_init sz seed preset os = Ok b -> reachable b
| reach_remove (b b' : BoardManager) (pos : Position) (v : Z) :
    reachable b -> remove_and_get pos b = (Ok v, b') -> reachable b'.

End LoopVocabulary.

(** The 3x3 board preset with 1..9 after the opening move at (0,0), and a
    2x2 board, over the generator [lcg]. *)
Definition board_after_opening : @BoardManager lcg :=
  @Build_BoardManager lcg 3 0
    [[None; Some 2; Some 3]; [Some 4; Some 5; Some 6]; [Some 7; Some 8; Some 9]]
    (Some (0, 0)).


Definition computer_game : GameConfig :=
  GameConfig_init 2 (Some "c_vs_c"%string) (Some "Greedy"%string)
    (Some "MinimizeOpponentOptions"%string) None (Some [1; 2; 3; 4])
    (Some "b"%string).

(** A 1x1 board whose only cell is gone, and a 2x2 board with negative
    values, over [lcg]. *)
Definition exhausted_board : @BoardManager lcg :=
  @Build_BoardManager lcg 1 0 [[None]] (Some (0, 0)).

Definition negative_board : @BoardManager lcg :=
  @Build_BoardManager lcg 2 0 [[Some (-4); Some (-1)]; [None; Some (-7)]]
    (Some (1, 0)).

(** ** board_manager.py: the remaining queries *)

(** A [for] loop whose body may [return v]: [Some v] as soon as an iteration
    returns, [None] when the loop runs to its end. *)
Fixpoint for_return {A B : Type} (xs : list A) (body : A -> result (option B))
  : result (option B) :=
  match xs with
  | [] => Ok None
  | x :: xs' =>
      r <- body x ;;
      match r with
      | Some v => Ok (Some v)
      | None => for_return xs' body
      end
  end.

(** [str(v)] for an integer: decimal digits, with a minus sign when negative. *)
Definition str_int (v : Z) : string :=
  DecimalString.NilZero.string_of_int (Z.to_int v).

Section Display.
Context {R : PyRandom}.

Definition any_available (b : BoardManager) : result bool :=
  r <- for_return (range (size b)) (fun r =>
         for_return (range (size b)) (fun c =>
           v <- grid_get (board b) r c ;;
           Ok (if is_not_None v then Some true else None))) ;;
  Ok (match r with Some v => v | None => false end).

(** [self.last_removed_pos == (r, c)] *)
Definition is_last_removed (b : BoardManager) (r c : Z) : bool :=
  match last_removed_pos b with
  | Some (r', c') => (r' =? r) && (c' =? c)
  | None => false
  end.

(** The list [row_str] that [print_board] builds for row [r]. *)
Definition row_str (b : BoardManager) (r : Z) : result (list string) :=
  for_each (range (size b)) (fun c row_str =>
    val <- grid_get (board b) r c ;;
    let cell :=
      match val with
      | None => if is_last_removed b r c then "X"%string else " "%string
      | Some v => str_int v
      end in
    Ok (row_str ++ [cell])) [].

(** [print_board]: the lines printed, in order. *)
Definition print_board (b : BoardManager) : result (list string) :=
  for_each (range (size b)) (fun r out =>
    cells <- row_str b r ;;
    Ok (out ++ [String.concat " " cells])) [].

End Display.

(** ** main.py: load_config

    The file is represented by what the loop over its lines does with each
    line: nothing (blank line, comment, no [=], unknown key), or an
    assignment to one of the eight variables.  Values are the stripped text
    after [=]; for [SIZE], [SEED] and [BOARD] the value is what [int] or
    [_parse_int_list] makes of it, [None] when they raise [ValueError].
    The file itself is absent ([None]), or is a readable file that gives
    the lines the loop reads and the way the reading ends. *)
Inductive config_line : Type :=
| Skipped
| SizeLine (v : option Z)
| ModeLine (value : string)
| AStrategyLine (value : string)
| BStrategyLine (value : string)
| SeedLine (v : option Z)
| BoardLine (v : option (list Z))
| StartPlayerLine (value : string)
| BoardSourceLine (value : string).

Record LoadVars : Type := {
  lv_size : option Z;
  lv_mode : option string;
  lv_a_strategy : option string;
  lv_b_strategy : option string;
  lv_seed : option Z;
  lv_preset_board : option (list Z);
  lv_start_player : string;
  lv_board_source : option string
}.

Definition invalid_literal : exn := ValueError "invalid literal for int()".

(** One iteration of the loop over the lines of the file. *)
Definition load_line (l : config_line) (vars : LoadVars) : result LoadVars :=
  match l with
  | Skipped => Ok vars
  | SizeLine None | SeedLine None | BoardLine None => Raise invalid_literal
  | SizeLine (Some n) =>
      Ok {| lv_size := Some n; lv_mode := lv_mode vars;
            lv_a_strategy := lv_a_strategy vars; lv_b_strategy := lv_b_strategy vars;
            lv_seed := lv_seed vars; lv_preset_board := lv_preset_board vars;
            lv_start_player := lv_start_player vars;
            lv_board_source := lv_board_source vars |}
  | ModeLine value =>
      Ok {| lv_size := lv_size vars; lv_mode := Some value;
            lv_a_strategy := lv_a_strategy vars; lv_b_strategy := lv_b_strategy vars;
            lv_seed := lv_seed vars; lv_preset_board := lv_preset_board vars;
            lv_start_player := lv_start_player vars;
            lv_board_source := lv_board_source vars |}
  | AStrategyLine value =>
      Ok {| lv_size := lv_size vars; lv_mode := lv_mode vars;
            lv_a_strategy := Some value; lv_b_strategy := lv_b_strategy vars;
            lv_seed := lv_seed vars; lv_preset_board := lv_preset_board vars;
            lv_start_player := lv_start_player vars;
            lv_board_source := lv_board_source vars |}
  | BStrategyLine value =>
      Ok {| lv_size := lv_size vars; lv_mode := lv_mode vars;
            lv_a_strategy := lv_a_strategy vars; lv_b_strategy := Some value;
            lv_seed := lv_seed vars; lv_preset_board := lv_preset_board vars;
            lv_start_player := lv_start_player vars;
            lv_board_source := lv_board_source vars |}
  | SeedLine (Some n) =>
      Ok {| lv_size := lv_size vars; lv_mode := lv_mode vars;
            lv_a_strategy := lv_a_strategy vars; lv_b_strategy := lv_b_strategy vars;
            lv_seed := Some n; lv_preset_board := lv_preset_board vars;
            lv_start_player := lv_start_player vars;
            lv_board_source := lv_board_source vars |}
  | BoardLine (Some values) =>
      Ok {| lv_size := lv_size vars; lv_mode := lv_mode vars;
            lv_a_strategy := lv_a_strategy vars; lv_b_strategy := lv_b_strategy vars;
            lv_seed := lv_seed vars; lv_preset_board := Some values;
            lv_start_player := lv_start_player vars;
            lv_board_source := lv_board_source vars |}
  | StartPlayerLine value =>
      Ok {| lv_size := lv_size vars; lv_mode := lv_mode vars;
            lv_a_strategy := lv_a_strategy vars; lv_b_strategy := lv_b_strategy vars;
            lv_seed := lv_seed vars; lv_preset_board := lv_preset_board vars;
            lv_start_player := upper (str_or (Some value) "A");
            lv_board_source := lv_board_source vars |}
  | BoardSourceLine value =>
      Ok {| lv_size := lv_size vars; lv_mode := lv_mode vars;
            lv_a_strategy := lv_a_strategy vars; lv_b_strategy := lv_b_strategy vars;
            lv_seed := lv_seed vars; lv_preset_board := lv_preset_board vars;
            lv_start_player := lv_start_player vars;
            lv_board_source := Some (upper value) |}
  end.

(** How iterating over the open file ends: at the end of the file, or at a
    byte that is not UTF-8, where the iteration raises [UnicodeDecodeError]
    (a subclass of [ValueError]) after the lines decoded before it. *)
Inductive file_end : Type :=
| EndOfFile
| DecodeError.

(** [isinstance(e, ValueError)] *)
Definition is_ValueError (e : exn) : bool :=
  match e with
  | ValueError _ | UnicodeDecodeError => true
  | _ => false
  end.

(** The [for raw in f] loop: the lines in order, then the end of the file. *)
Definition read_lines (lines : list config_line) (ending : file_end)
    (vars : LoadVars) : result LoadVars :=
  vars <- for_each lines load_line vars ;;
  match ending with
  | EndOfFile => Ok vars
  | DecodeError => Raise UnicodeDecodeError
  end.

Definition load_config (file : option (list config_line * file_end))
  : result GameConfig :=
  match file with
  | None => Raise FileNotFoundError
  | Some (lines, ending) =>
      vars <- read_lines lines ending
                {| lv_size := None; lv_mode := None; lv_a_strategy := None;
                   lv_b_strategy := None; lv_seed := None;
                   lv_preset_board := None;
                   lv_start_player := "A"; lv_board_source := None |} ;;
      match lv_size vars with
      | None => Raise (ValueError "SIZE must be set in config.txt")
      | Some size =>
          let mode :=
            match lv_mode vars with Some m => m | None => "H_VS_C"%string end in
          let known :=
            match lv_board_source vars with
            | Some src => String.eqb src "RANDOM" || String.eqb src "MANUAL"
            | None => false
            end in
          let board_source :=
            if negb known then
              (if is_not_None (lv_preset_board vars)
               then "MANUAL" else "RANDOM")%string
            else str_or (lv_board_source vars) "" in
          let '(seed_to_use, preset_to_use) :=
            if String.eqb board_source "MANUAL"
            then (None, lv_preset_board vars)
            else (lv_seed vars, None) in
          Ok (GameConfig_init size (Some mode) (lv_a_strategy vars)
                (lv_b_strategy vars) seed_to_use preset_to_use
                (Some (str_or (Some (lv_start_player vars)) "A")))
      end
  end.

(** A line whose value [int] or [_parse_int_list] rejects. *)
Definition malformed (l : config_line) : bool :=
  match l with
  | SizeLine None | SeedLine None | BoardLine None => true
  | _ => false
  end.

(** A line that assigns [size]. *)
Definition sets_size (l : config_line) : bool :=
  match l with
  | SizeLine (Some _) => true
  | _ => false
  end.

(** What a line assigns to each of the eight variables, if anything. *)
Definition size_of (l : config_line) : option Z :=
  match l with SizeLine (Some n) => Some n | _ => None end.

Definition mode_of (l : config_line) : option string :=
  match l with ModeLine value => Some value | _ => None end.

Definition a_strategy_of (l : config_line) : option string :=
  match l with AStrategyLine value => Some value | _ => None end.

Definition b_strategy_of (l : config_line) : option string :=
  match l with BStrategyLine value => Some value | _ => None end.

Definition seed_of (l : config_line) : option Z :=
  match l with SeedLine (Some n) => Some n | _ => None end.

Definition board_of (l : config_line) : option (list Z) :=
  match l with BoardLine (Some values) => Some values | _ => None end.

Definition start_player_of (l : config_line) : option string :=
  match l with StartPlayerLine value => Some value | _ => None end.

Definition board_source_of (l : config_line) : option string :=
  match l with BoardSourceLine value => Some value | _ => None end.

(** The value of the last line that assigns a variable: later lines win. *)
Definition last_value {T : Type} (sel : config_line -> option T)
    (lines : list config_line) : option T :=
  last (omap sel lines).

(** Whether the board comes from the BOARD line: the last BOARD_SOURCE says
    MANUAL, or it says neither MANUAL nor RANDOM (or is absent) and a BOARD
    line is present. *)
Definition manual_source (lines : list config_line) : bool :=
  match last_value board_source_of lines with
  | Some value =>
      if String.eqb (upper value) "MANUAL" then true
      else if String.eqb (upper value) "RANDOM" then false
      else is_not_None (last_value board_of lines)
  | None => is_not_None (last_value board_of lines)
  end.

(** ** Vocabulary for the further properties *)

Section MoreVocabulary.
Context {R : PyRandom}.

(** The comparison [_best_by_key] makes: [k > best_key] when [reverse], else
    [k < best_key]. *)
Definition better (reverse : bool) (k best_key : Key) : bool :=
  if reverse then tuple_gt k best_key else tuple_lt k best_key.

(** [p] is the first candidate of [l] that no candidate beats. *)
Definition first_best (reverse : bool) (key : Position -> Key)
    (l : list Position) (p : Position) : Prop :=
  exists i : nat,
    l !! i = Some p
    /\ (forall q, In q l -> better reverse (key q) (key p) = false)
    /\ (forall j q, (j < i)%nat -> l !! j = Some q ->
          better reverse (key p) (key q) = true).

(** The sum of the values still on the board. *)
Definition total (b : BoardManager) : Z :=
  fold_right Z.add 0 (map (value_of b) (row_major b)).

(** The names of the strategy registry. *)
Definition registered (name : string) : bool :=
  String.eqb name "Greedy" || String.eqb name "MaximizeFutureMin"
  || String.eqb name "MinimizeOpponentOptions"
  || String.eqb name "PreserveHighValues".

Definition registered_opt (name : option string) : bool :=
  match name with
  | Some n => registered n
  | None => false
  end.

(** The configurations [start_game] sets a game up for. *)
Definition accepted (config : GameConfig) : bool :=
  match cfg_preset_board config with
  | Some preset =>
      Z.of_nat (length preset) =? cfg_size config * cfg_size config
  | None => true
  end
  && (let mode := upper (str_or (cfg_mode config) "") in
      String.eqb mode "H_VS_H"
      || String.eqb mode "H_VS_C" && registered_opt (cfg_b_strategy config)
      || String.eqb mode "C_VS_C" && registered_opt (cfg_a_strategy config)
         && registered_opt (cfg_b_strategy config)).

(** The other player. *)
Definition opponent (player : string) : string :=
  if String.eqb player "B" then "A"%string else "B"%string.

(** What a line typed at a human prompt amounts to: a legal move, or not. *)
Definition legal_line (b : BoardManager) (last : option Position) (l : line)
  : bool :=
  match l with
  | Other (Some pos) =>
      available b pos
      && match last with
         | Some (r0, c0) => (fst pos =? r0) || (snd pos =? c0)
         | None => true
         end
  | _ => false
  end.

Definition is_command (l : line) : bool :=
  match l with
  | Menu | Exit => true
  | Other _ => false
  end.

(** The loop variables after the current player has played [pos], with
    [input1] left to read. *)
Definition after_move (st : GameState) (pos : Position) (input1 : list line)
  : GameState :=
  {| gs_board := removed (gs_board st) pos;
     a_score := if String.eqb (current st) "A"
                then a_score st + value_of (gs_board st) pos else a_score st;
     b_score := if String.eqb (current st) "A"
                then b_score st else b_score st + value_of (gs_board st) pos;
     round_num := round_num st + 1;
     last_pos := Some pos;
     current := opponent (current st);
     stdin := input1 |}.

(** The loop variables with only the unread input replaced. *)
Definition with_stdin (st : GameState) (input1 : list line) : GameState :=
  {| gs_board := gs_board st; a_score := a_score st; b_score := b_score st;
     round_num := round_num st; last_pos := last_pos st; current := current st;
     stdin := input1 |}.

(** What the turn loop keeps between two of its states. *)
Definition loop_account (ctrl_A ctrl_B : PlayerController) (st st' : GameState)
  : Prop :=
  well_formed (gs_board st') = true
  /\ on_board (gs_board st') (last_pos st') = true
  /\ size (gs_board st') = size (gs_board st)
  /\ a_score st' + b_score st' + total (gs_board st')
     = a_score st + b_score st + total (gs_board st)
  /\ (forall q, available (gs_board st') q = true ->
        available (gs_board st) q = true
        /\ value_of (gs_board st') q = value_of (gs_board st) q)
  /\ (exists consumed, stdin st = consumed ++ stdin st'
        /\ (is_human ctrl_A || is_human ctrl_B = false -> consumed = []))
  /\ round_num st <= round_num st'
  /\ (current st = "A"%string \/ current st = "B"%string ->
      current st' = if Z.even (round_num st' - round_num st)
                    then current st else opponent (current st))
  /\ (round_num st < round_num st' ->
      last_pos st' = last_removed_pos (gs_board st') /\ last_pos st' <> None)
  /\ (round_num st' = round_num st ->
      gs_board st' = gs_board st /\ last_pos st' = last_pos st)
  /\ round_num st' + Z.of_nat (remaining (gs_board st'))
     = round_num st + Z.of_nat (remaining (gs_board st))
  /\ (reachable (gs_board st) -> reachable (gs_board st')).

End MoreVocabulary.

(** * Properties *)

(** ** Loops, ranges and list indexing *)

Lemma for_each_pure {A S : Type} (xs : list A) (body : A -> S -> result S)
    (f : S -> A -> S) (s : S) :
  (forall x s', In x xs -> body x s' = Ok (f s' x)) ->
  for_each xs body s = Ok (fold_left f xs s).
Proof.
  revert s. induction xs as [|x xs IH]; intros s Hbody; cbn.
  - reflexivity.
  - rewrite Hbody by (left; reflexivity). cbn.
    apply IH. intros y s' Hy. apply Hbody. right. exact Hy.
Qed.

Lemma fold_append_if {A B : Type} (P : A -> bool) (g : A -> B) (xs : list A)
    (acc : list B) :
  fold_left (fun acc x => if P x then acc ++ [g x] else acc) xs acc
  = acc ++ map g (List.filter P xs).
Proof.
  revert acc. induction xs as [|x xs IH]; intros acc; cbn.
  - now rewrite app_nil_r.
  - rewrite IH. destruct (P x); cbn; [now rewrite <- app_assoc | reflexivity].
Qed.

Lemma fold_append_each {A B : Type} (g : A -> list B) (xs : list A) (acc : list B) :
  fold_left (fun acc x => acc ++ g x) xs acc = acc ++ flat_map g xs.
Proof.
  revert acc. induction xs as [|x xs IH]; intros acc; cbn.
  - now rewrite app_nil_r.
  - rewrite IH. now rewrite <- app_assoc.
Qed.

Lemma in_range (n x : Z) : In x (range n) <-> 0 <= x < n.
Proof.
  unfold range. rewrite in_map_iff. split.
  - intros (k & <- & Hk). apply in_seq in Hk. lia.
  - intros Hx. exists (Z.to_nat x). split; [lia|]. apply in_seq. lia.
Qed.

Lemma NoDup_range (n : Z) : List.NoDup (range n).
Proof.
  unfold range. apply Finite.Injective_map_NoDup.
  - intros a b Hab. lia.
  - apply List.seq_NoDup.
Qed.

Lemma length_range (n : Z) : length (range n) = Z.to_nat n.
Proof. unfold range. now rewrite length_map, length_seq. Qed.

Lemma py_index_inrange (len : nat) (i : Z) :
  0 <= i < Z.of_nat len -> py_index len i = Some (Z.to_nat i).
Proof.
  intros Hi. unfold py_index.
  destruct (Z.leb_spec 0 i); [|lia]. destruct (Z.ltb_spec i (Z.of_nat len)); [|lia].
  reflexivity.
Qed.

Lemma py_index_lt (len : nat) (i : Z) (k : nat) :
  py_index len i = Some k -> (k < len)%nat.
Proof.
  unfold py_index.
  destruct (Z.leb_spec 0 i), (Z.ltb_spec i (Z.of_nat len)); cbn;
    try (intros [= <-]; lia);
    destruct (Z.leb_spec (- Z.of_nat len) i), (Z.ltb_spec i 0); cbn;
    try discriminate; intros [= <-]; lia.
Qed.

Lemma getitem_lookup {A : Type} (l : list A) (i : Z) (x : A) :
  0 <= i -> l !! Z.to_nat i = Some x -> getitem l i = Ok x.
Proof.
  intros Hi Hx. unfold getitem.
  pose proof (lookup_lt_Some _ _ _ Hx) as Hlen.
  rewrite py_index_inrange by lia. now rewrite Hx.
Qed.

Lemma setitem_insert {A : Type} (l : list A) (i : Z) (v : A) :
  0 <= i < Z.of_nat (length l) -> setitem l i v = Ok (<[Z.to_nat i := v]> l).
Proof. intros Hi. unfold setitem. now rewrite py_index_inrange. Qed.

(** ** Well-formed boards *)

Section BoardFacts.
Context {R : PyRandom}.

Lemma in_bounds_iff (b : BoardManager) (r c : Z) :
  in_bounds b (r, c) = true <-> 0 <= r < size b /\ 0 <= c < size b.
Proof. unfold in_bounds. rewrite !andb_true_iff. lia. Qed.

Lemma well_formed_iff (b : BoardManager) :
  well_formed b = true <->
  length (board b) = Z.to_nat (size b)
  /\ (forall k row, board b !! k = Some row -> length row = Z.to_nat (size b)).
Proof.
  unfold well_formed. rewrite andb_true_iff, forallb_forall, Nat.eqb_eq.
  split; intros [Hl Hrows]; split; try exact Hl.
  - intros k row Hk. apply Nat.eqb_eq, Hrows.
    apply list_elem_of_In. eapply list_elem_of_lookup_2. exact Hk.
  - intros row Hin. apply Nat.eqb_eq.
    apply list_elem_of_In, list_elem_of_lookup in Hin as [k Hk]. eauto.
Qed.

Lemma well_formed_row (b : BoardManager) (r : Z) :
  well_formed b = true -> 0 <= r < size b ->
  exists row, board b !! Z.to_nat r = Some row /\ length row = Z.to_nat (size b).
Proof.
  intros Hwf Hr. apply well_formed_iff in Hwf as [Hl Hrows].
  destruct (lookup_lt_is_Some_2 (board b) (Z.to_nat r)) as [row Hrow]; [lia|].
  exists row. split; [exact Hrow|]. eapply Hrows. exact Hrow.
Qed.

Lemma grid_get_cell (b : BoardManager) (r c : Z) :
  well_formed b = true -> in_bounds b (r, c) = true ->
  grid_get (board b) r c = Ok (cell (board b) r c).
Proof.
  intros Hwf Hin. apply in_bounds_iff in Hin as [Hr Hc].
  destruct (well_formed_row b r Hwf Hr) as (row & Hrow & Hlen).
  destruct (lookup_lt_is_Some_2 row (Z.to_nat c)) as [v Hv]; [lia|].
  unfold grid_get, cell. rewrite (getitem_lookup _ _ _ (proj1 Hr) Hrow). cbn.
  rewrite Hrow, Hv. apply getitem_lookup; [lia | exact Hv].
Qed.

Lemma is_available_spec (b : BoardManager) (p : Position) :
  well_formed b = true -> is_available b p = Ok (available b p).
Proof.
  intros Hwf. destruct p as [r c]. unfold is_available, available.
  destruct (in_bounds b (r, c)) eqn:Hin; [|reflexivity].
  now rewrite (grid_get_cell b r c Hwf Hin).
Qed.

Lemma get_value_spec (b : BoardManager) (p : Position) :
  well_formed b = true -> in_bounds b p = true ->
  get_value b p = Ok (cell (board b) (fst p) (snd p)).
Proof. destruct p as [r c]. intros Hwf Hin. now apply grid_get_cell. Qed.

Lemma get_allowed_positions_spec (b : BoardManager) (p : Position) :
  well_formed b = true -> in_bounds b p = true ->
  get_allowed_positions b p = Ok (row_then_column b p).
Proof.
  destruct p as [r0 c0]. intros Hwf Hin.
  pose proof (proj1 (in_bounds_iff b r0 c0) Hin) as [Hr0 Hc0].
  unfold get_allowed_positions, row_then_column.
  rewrite (for_each_pure _ _
    (fun acc c => if available b (r0, c) then acc ++ [(r0, c)] else acc)).
  2:{ intros c acc Hc. apply in_range in Hc.
      assert (Hb : in_bounds b (r0, c) = true) by (apply in_bounds_iff; lia).
      rewrite (grid_get_cell b r0 c Hwf Hb). cbn.
      unfold available. now rewrite Hb. }
  cbn. rewrite (fold_append_if _ (fun c => (r0, c))). cbn.
  rewrite (for_each_pure _ _
    (fun acc r => if negb (r =? r0) && available b (r, c0)
                  then acc ++ [(r, c0)] else acc)).
  2:{ intros r acc Hr. apply in_range in Hr.
      destruct (r =? r0); cbn; [reflexivity|].
      assert (Hb : in_bounds b (r, c0) = true) by (apply in_bounds_iff; lia).
      rewrite (grid_get_cell b r c0 Hwf Hb). cbn.
      unfold available. now rewrite Hb. }
  now rewrite (fold_append_if _ (fun r => (r, c0))).
Qed.

Lemma get_all_available_positions_spec (b : BoardManager) :
  well_formed b = true -> get_all_available_positions b = Ok (row_major b).
Proof.
  intros Hwf. unfold get_all_available_positions, row_major.
  rewrite (for_each_pure _ _
    (fun acc r => acc ++ map (fun c => (r, c))
       (List.filter (fun c => available b (r, c)) (range (size b))))).
  - now rewrite fold_append_each.
  - intros r acc Hr. apply in_range in Hr.
    rewrite (for_each_pure _ _
      (fun acc c => if available b (r, c) then acc ++ [(r, c)] else acc)).
    + now rewrite (fold_append_if _ (fun c => (r, c))).
    + intros c acc' Hc. apply in_range in Hc.
      assert (Hb : in_bounds b (r, c) = true) by (apply in_bounds_iff; lia).
      rewrite (grid_get_cell b r c Hwf Hb). cbn.
      unfold available. now rewrite Hb.
Qed.

Lemma legal_positions_spec (b : BoardManager) (last : option Position) :
  well_formed b = true -> on_board b last = true ->
  legal_positions b last = Ok (legal_set b last).
Proof.
  intros Hwf Hlast. destruct last as [p|]; cbn.
  - now apply get_allowed_positions_spec.
  - now apply get_all_available_positions_spec.
Qed.

End BoardFacts.

(** ** The legal set *)

Lemma range_sorted (n : Z) : StronglySorted Z.lt (range n).
Proof.
  unfold range. generalize 0%nat as a. induction (Z.to_nat n) as [|k IH]; intros a; cbn.
  - constructor.
  - constructor; [apply IH|].
    apply Forall_forall. intros x Hx. apply list_elem_of_In in Hx.
    apply in_map_iff in Hx as (j & <- & Hj). apply in_seq in Hj. lia.
Qed.

Lemma filter_sorted {A : Type} (lt : A -> A -> Prop) (P : A -> bool) (l : list A) :
  StronglySorted lt l -> StronglySorted lt (List.filter P l).
Proof.
  induction 1 as [|x l Hs IH Hall]; cbn; [constructor|].
  destruct (P x); [|exact IH]. constructor; [exact IH|].
  apply Forall_forall. intros y Hy. apply list_elem_of_In, filter_In in Hy as [Hy _].
  rewrite Forall_forall in Hall. apply Hall. now apply list_elem_of_In.
Qed.

Section LegalSet.
Context {R : PyRandom}.

Lemma available_in_bounds (b : BoardManager) (p : Position) :
  available b p = true -> in_bounds b p = true.
Proof. unfold available. now intros [H _]%andb_true_iff. Qed.

Lemma in_row_then_column (b : BoardManager) (last p : Position) :
  in_bounds b last = true ->
  In p (row_then_column b last) <->
  available b p = true /\ (fst p = fst last \/ snd p = snd last).
Proof.
  destruct last as [r0 c0], p as [r c]. intros Hlast.
  apply in_bounds_iff in Hlast as [Hr0 Hc0].
  unfold row_then_column. rewrite in_app_iff, !in_map_iff. cbn [fst snd]. split.
  - intros [(c' & [= <- <-] & Hc')|(r' & [= <- <-] & Hr')].
    + apply filter_In in Hc' as [_ Hav]. auto.
    + apply filter_In in Hr' as [_ [_ Hav]%andb_true_iff]. auto.
  - intros [Hav Hshare].
    pose proof (available_in_bounds _ _ Hav) as [Hr Hc]%in_bounds_iff.
    destruct (Z.eq_dec r r0) as [->|Hne].
    + left. exists c. split; [reflexivity|]. apply filter_In.
      split; [now apply in_range | exact Hav].
    + right. destruct Hshare as [?| ->]; [contradiction|].
      exists r. split; [reflexivity|]. apply filter_In.
      split; [now apply in_range|]. apply andb_true_iff. split; [|exact Hav].
      apply negb_true_iff, Z.eqb_neq, Hne.
Qed.

Lemma NoDup_row_then_column (b : BoardManager) (last : Position) :
  List.NoDup (row_then_column b last).
Proof.
  destruct last as [r0 c0]. unfold row_then_column. apply List.NoDup_app.
  - apply Finite.Injective_map_NoDup; [intros x y [= ->]; reflexivity|].
    apply List.NoDup_filter, NoDup_range.
  - apply Finite.Injective_map_NoDup; [intros x y [= ->]; reflexivity|].
    apply List.NoDup_filter, NoDup_range.
  - intros p (c & <- & _)%in_map_iff (r & [= -> _] & Hr)%in_map_iff.
    apply filter_In in Hr as [_ [Hne _]%andb_true_iff].
    apply negb_true_iff, Z.eqb_neq in Hne. contradiction.
Qed.

Lemma in_row_major (b : BoardManager) (p : Position) :
  In p (row_major b) <-> available b p = true.
Proof.
  destruct p as [r c]. unfold row_major. rewrite in_flat_map. split.
  - intros (r' & _ & (c' & [= <- <-] & Hc')%in_map_iff).
    now apply filter_In in Hc' as [_ Hav].
  - intros Hav.
    pose proof (available_in_bounds _ _ Hav) as [Hr Hc]%in_bounds_iff.
    exists r. split; [now apply in_range|]. apply in_map_iff.
    exists c. split; [reflexivity|]. apply filter_In. split; [now apply in_range | exact Hav].
Qed.

Lemma flat_map_sorted (cols : Z -> list Z) (rows : list Z) :
  StronglySorted Z.lt rows ->
  (forall r, StronglySorted Z.lt (cols r)) ->
  StronglySorted pos_lt (flat_map (fun r => map (fun c => (r, c)) (cols r)) rows).
Proof.
  intros Hrows Hcols. induction Hrows as [|r rows Hs IH Hall]; cbn; [constructor|].
  apply StronglySorted_app_2.
  - intros p q Hp Hq. apply list_elem_of_In in Hp, Hq.
    apply in_map_iff in Hp as (c & <- & _).
    apply in_flat_map in Hq as (r' & Hr' & (c' & <- & _)%in_map_iff).
    left. cbn. rewrite Forall_forall in Hall. apply Hall. now apply list_elem_of_In.
  - specialize (Hcols r). induction Hcols as [|c cs Hcs IHc Hallc]; cbn; [constructor|].
    constructor; [exact IHc|]. apply Forall_forall. intros q Hq.
    apply list_elem_of_In, in_map_iff in Hq as (c' & <- & Hc').
    right. cbn. split; [reflexivity|].
    rewrite Forall_forall in Hallc. apply Hallc. now apply list_elem_of_In.
  - exact IH.
Qed.

Lemma row_major_sorted (b : BoardManager) : StronglySorted pos_lt (row_major b).
Proof.
  unfold row_major.
  apply (flat_map_sorted
           (fun r => List.filter (fun c => available b (r, c)) (range (size b)))).
  - apply range_sorted.
  - intros r. apply filter_sorted, range_sorted.
Qed.

(** An available position is one that is in bounds and whose cell
    [get_value] reads as a value. *)
Lemma available_holds_value (b : BoardManager) (p : Position) :
  well_formed b = true ->
  available b p = true
  <-> in_bounds b p = true /\ exists v, get_value b p = Ok (Some v).
Proof.
  intros Hwf. unfold available. split.
  - intros [Hin Hcell]%andb_true_iff. split; [exact Hin|].
    rewrite (get_value_spec b p Hwf Hin).
    destruct (cell (board b) (fst p) (snd p)) as [v|]; [|discriminate].
    now exists v.
  - intros [Hin (v & Hv)]. rewrite Hin. cbn [andb].
    rewrite (get_value_spec b p Hwf Hin) in Hv. injection Hv as ->. reflexivity.
Qed.

(** C1. On a board of the constructed shape, for an in-bounds [last_pos],
    [get_allowed_positions] returns the available cells of its row by
    ascending column followed by the available cells of its column by
    ascending row without the row of [last_pos]; the list has no duplicates
    and holds exactly the positions sharing the row or the column that are
    available: the in-bounds positions whose cell [get_value] reads as a
    value, so a removed cell is never in the legal set.  Without a previous
    move the legal set is the list of all such positions in row-major
    order. *)
Theorem legal_set_exact (b : BoardManager) :
  well_formed b = true ->
  (forall last : Position, in_bounds b last = true ->
     exists cols rows : list Z,
       get_allowed_positions b last
       = Ok (map (fun c => (fst last, c)) cols ++ map (fun r => (r, snd last)) rows)
       /\ StronglySorted Z.lt cols /\ StronglySorted Z.lt rows
       /\ ~ In (fst last) rows
       /\ List.NoDup (map (fun c => (fst last, c)) cols
                      ++ map (fun r => (r, snd last)) rows)
       /\ (forall p,
             In p (map (fun c => (fst last, c)) cols
                   ++ map (fun r => (r, snd last)) rows)
             <-> is_available b p = Ok true
                 /\ (fst p = fst last \/ snd p = snd last))
       /\ (forall p,
             In p (map (fun c => (fst last, c)) cols
                   ++ map (fun r => (r, snd last)) rows)
             <-> in_bounds b p = true
                 /\ (exists v, get_value b p = Ok (Some v))
                 /\ (fst p = fst last \/ snd p = snd last)))
  /\ (exists all : list Position,
        legal_positions b None = Ok all
        /\ get_all_available_positions b = Ok all
        /\ StronglySorted pos_lt all
        /\ (forall p, In p all <-> is_available b p = Ok true)
        /\ (forall p, In p all
                      <-> in_bounds b p = true
                          /\ exists v, get_value b p = Ok (Some v))).
Proof.
  intros Hwf. split.
  - intros [r0 c0] Hlast.
    exists (List.filter (fun c => available b (r0, c)) (range (size b))),
           (List.filter (fun r => negb (r =? r0) && available b (r, c0))
              (range (size b))).
    cbn [fst snd].
    change (map (fun c => (r0, c))
              (List.filter (fun c => available b (r0, c)) (range (size b)))
            ++ map (fun r => (r, c0))
                 (List.filter (fun r => negb (r =? r0) && available b (r, c0))
                    (range (size b))))
      with (row_then_column b (r0, c0)).
    split; [now apply get_allowed_positions_spec|].
    split; [apply filter_sorted, range_sorted|].
    split; [apply filter_sorted, range_sorted|].
    split.
    { intros [_ [Hne _]%andb_true_iff]%filter_In.
      now rewrite Z.eqb_refl in Hne. }
    split; [apply NoDup_row_then_column|].
    split.
    + intros p. rewrite (in_row_then_column b (r0, c0) p Hlast).
      rewrite (is_available_spec b p Hwf). cbn [fst snd].
      split; intros [Hav Hs]; (split; [|exact Hs]); congruence.
    + intros p. rewrite (in_row_then_column b (r0, c0) p Hlast).
      rewrite (available_holds_value b p Hwf). cbn [fst snd]. tauto.
  - exists (row_major b).
    split; [now apply get_all_available_positions_spec|].
    split; [now apply get_all_available_positions_spec|].
    split; [apply row_major_sorted|].
    split.
    + intros p. rewrite in_row_major, (is_available_spec b p Hwf).
      split; congruence.
    + intros p. rewrite in_row_major. now apply available_holds_value.
Qed.

End LegalSet.

(** ** Writing a cell *)

Lemma insert_alter_lookup {A : Type} (f : A -> A) (l : list A) (i : nat) (x : A) :
  l !! i = Some x -> <[i := f x]> l = alter f i l.
Proof.
  revert i. induction l as [|y l IH]; intros [|i]; cbn; try discriminate.
  - now intros [= ->].
  - intros Hx. f_equal. now apply IH.
Qed.

Section CellWrites.
Context {R : PyRandom}.

Lemma grid_set_put (b : BoardManager) (r c : Z) (v : option Z) :
  well_formed b = true -> in_bounds b (r, c) = true ->
  grid_set (board b) r c v = Ok (grid_put (board b) r c v).
Proof.
  intros Hwf Hin. apply in_bounds_iff in Hin as [Hr Hc].
  destruct (well_formed_row b r Hwf Hr) as (row & Hrow & Hlen).
  unfold grid_set, grid_put.
  rewrite (getitem_lookup _ _ _ (proj1 Hr) Hrow). cbn.
  rewrite setitem_insert by lia. cbn.
  pose proof (lookup_lt_Some _ _ _ Hrow).
  rewrite setitem_insert by lia.
  f_equal. now apply (insert_alter_lookup (fun row => <[Z.to_nat c := v]> row)).
Qed.

Lemma cell_put_eq (b : BoardManager) (r c : Z) (v : option Z) :
  well_formed b = true -> in_bounds b (r, c) = true ->
  cell (grid_put (board b) r c v) r c = v.
Proof.
  intros Hwf Hin. apply in_bounds_iff in Hin as [Hr Hc].
  destruct (well_formed_row b r Hwf Hr) as (row & Hrow & Hlen).
  unfold cell, grid_put. rewrite list_lookup_alter_eq, Hrow. cbn.
  rewrite list_lookup_insert_eq by lia. reflexivity.
Qed.

Lemma cell_put_ne (g : Grid) (r c r' c' : Z) (v : option Z) :
  0 <= r -> 0 <= c -> 0 <= r' -> 0 <= c' -> (r', c') <> (r, c) ->
  cell (grid_put g r c v) r' c' = cell g r' c'.
Proof.
  intros Hr Hc Hr' Hc' Hne. unfold cell, grid_put.
  destruct (decide (Z.to_nat r = Z.to_nat r')) as [Heq|Hrne].
  - rewrite <- Heq, list_lookup_alter_eq.
    destruct (g !! Z.to_nat r) as [row|]; cbn; [|reflexivity].
    rewrite list_lookup_insert_ne; [reflexivity|].
    intros Hceq. apply Hne. f_equal; lia.
  - now rewrite list_lookup_alter_ne.
Qed.

Lemma grid_put_put (g : Grid) (r c : Z) (v w : option Z) :
  grid_put (grid_put g r c v) r c w = grid_put g r c w.
Proof.
  unfold grid_put. rewrite list_alter_alter_eq. apply list_alter_ext; [|reflexivity].
  intros row _. cbn. apply list_insert_insert_eq.
Qed.

Lemma grid_put_cell (b : BoardManager) (r c : Z) :
  well_formed b = true -> in_bounds b (r, c) = true ->
  grid_put (board b) r c (cell (board b) r c) = board b.
Proof.
  intros Hwf Hin. apply in_bounds_iff in Hin as [Hr Hc].
  destruct (well_formed_row b r Hwf Hr) as (row & Hrow & Hlen).
  destruct (lookup_lt_is_Some_2 row (Z.to_nat c)) as [v Hv]; [lia|].
  unfold grid_put, cell. rewrite Hrow, Hv.
  rewrite <- (insert_alter_lookup _ _ _ _ Hrow).
  rewrite (list_insert_id row _ _ Hv). now apply list_insert_id.
Qed.

Lemma well_formed_put (b : BoardManager) (r c : Z) (v : option Z)
    (last : option Position) :
  well_formed b = true ->
  well_formed {| size := size b; random := random b;
                 board := grid_put (board b) r c v;
                 last_removed_pos := last |} = true.
Proof.
  intros Hwf. apply well_formed_iff in Hwf as [Hl Hrows].
  apply well_formed_iff. cbn. unfold grid_put. split.
  - now rewrite length_alter.
  - intros k row. destruct (decide (Z.to_nat r = k)) as [<-|Hne].
    + rewrite list_lookup_alter_eq.
      destruct (board b !! Z.to_nat r) as [row0|] eqn:Hrow0; cbn; [|discriminate].
      intros [= <-]. rewrite length_insert. eauto.
    + rewrite list_lookup_alter_ne by exact Hne. apply Hrows.
Qed.

Lemma board_setitem_put (b : BoardManager) (r c : Z) (v : option Z) :
  well_formed b = true -> in_bounds b (r, c) = true ->
  board_setitem r c v b
  = (Ok tt, {| size := size b; random := random b;
               board := grid_put (board b) r c v;
               last_removed_pos := last_removed_pos b |}).
Proof.
  intros Hwf Hin. unfold board_setitem. now rewrite grid_set_put.
Qed.

Lemma remove_and_get_available (b : BoardManager) (pos : Position) :
  well_formed b = true -> available b pos = true ->
  exists v,
    cell (board b) (fst pos) (snd pos) = Some v
    /\ remove_and_get pos b
       = (Ok v, {| size := size b; random := random b;
                   board := grid_put (board b) (fst pos) (snd pos) None;
                   last_removed_pos := Some pos |}).
Proof.
  intros Hwf Hav. pose proof (available_in_bounds _ _ Hav) as Hin.
  destruct pos as [r c]. cbn [fst snd].
  unfold remove_and_get, cbind, query.
  rewrite (is_available_spec b (r, c) Hwf), Hav. cbn.
  rewrite (grid_get_cell b r c Hwf Hin).
  rewrite (board_setitem_put b r c None Hwf Hin).
  unfold available in Hav. rewrite Hin in Hav. cbn in Hav.
  destruct (cell (board b) r c) as [v|]; [|discriminate].
  exists v. split; reflexivity.
Qed.

Lemma remove_and_get_unavailable (b : BoardManager) (pos : Position) :
  well_formed b = true -> available b pos = false ->
  remove_and_get pos b
  = (Raise (ValueError "Attempted to remove unavailable position"), b).
Proof.
  intros Hwf Hav. unfold remove_and_get, cbind, query.
  now rewrite (is_available_spec b pos Hwf), Hav.
Qed.

(** C3. On a board of the constructed shape [remove_and_get pos] raises
    exactly when [pos] is out of bounds or its cell is already removed, and
    then leaves the board as it was; on an available [pos] it returns the
    value the cell held, the cell is no longer available, [pos] is the
    latest removed position, and every other cell reads as before. *)
Theorem remove_and_get_contract (b : BoardManager) (pos : Position) :
  well_formed b = true ->
  (is_ok (fst (remove_and_get pos b)) = false
   <-> in_bounds b pos = false \/ get_value b pos = Ok None)
  /\ (forall e, fst (remove_and_get pos b) = Raise e ->
        e = ValueError "Attempted to remove unavailable position"
        /\ snd (remove_and_get pos b) = b)
  /\ (is_available b pos = Ok true ->
        exists v b',
          remove_and_get pos b = (Ok v, b')
          /\ get_value b pos = Ok (Some v)
          /\ is_available b' pos = Ok false
          /\ get_value b' pos = Ok None
          /\ last_removed_pos b' = Some pos
          /\ size b' = size b
          /\ well_formed b' = true
          /\ (forall q, in_bounds b q = true -> q <> pos ->
                get_value b' q = get_value b q)).
Proof.
  intros Hwf. destruct (available b pos) eqn:Hav.
  - destruct (remove_and_get_available b pos Hwf Hav) as (v & Hcell & Hrun).
    pose proof (available_in_bounds _ _ Hav) as Hin.
    pose proof (get_value_spec b pos Hwf Hin) as Hget. rewrite Hcell in Hget.
    set (b' := {| size := size b; random := random b;
                  board := grid_put (board b) (fst pos) (snd pos) None;
                  last_removed_pos := Some pos |}) in *.
    assert (Hwf' : well_formed b' = true) by now apply well_formed_put.
    assert (Hin' : in_bounds b' pos = true) by exact Hin.
    assert (Hcell' : cell (board b') (fst pos) (snd pos) = None).
    { destruct pos as [r c]. now apply cell_put_eq. }
    rewrite Hrun. cbn [fst snd is_ok]. split; [|split].
    + split; [discriminate|]. rewrite Hin, Hget. intros [?|?]; discriminate.
    + discriminate.
    + intros _. exists v, b'. split; [reflexivity|]. split; [exact Hget|].
      split.
      { rewrite (is_available_spec b' pos Hwf'). unfold available.
        now rewrite Hin', Hcell'. }
      split; [now rewrite (get_value_spec b' pos Hwf' Hin'), Hcell'|].
      split; [reflexivity|]. split; [reflexivity|]. split; [exact Hwf'|].
      intros q Hq Hne.
      rewrite (get_value_spec b' q Hwf' Hq), (get_value_spec b q Hwf Hq).
      f_equal. destruct pos as [r c], q as [r' c']. subst b'. cbn [board fst snd].
      apply in_bounds_iff in Hin as [? ?]. apply in_bounds_iff in Hq as [? ?].
      apply cell_put_ne; (lia || exact Hne).
  - rewrite (remove_and_get_unavailable b pos Hwf Hav). cbn [fst snd is_ok].
    split; [|split].
    + split; [|reflexivity]. intros _.
      destruct (in_bounds b pos) eqn:Hin; [right|now left].
      rewrite (get_value_spec b pos Hwf Hin). unfold available in Hav.
      rewrite Hin in Hav. cbn in Hav.
      now destruct (cell (board b) (fst pos) (snd pos)).
    + intros e [= <-]. split; reflexivity.
    + rewrite (is_available_spec b pos Hwf), Hav. discriminate.
Qed.

End CellWrites.

(** ** Tuple comparison *)

Lemma tuple_gt_irrefl (k : list Z) : tuple_gt k k = false.
Proof. induction k as [|x k IH]; cbn; [reflexivity|]. now rewrite Z.eqb_refl. Qed.

Lemma tuple_gt_trans (a b c : list Z) :
  tuple_gt a b = true -> tuple_gt b c = true -> tuple_gt a c = true.
Proof.
  revert b c. induction a as [|x a IH]; intros [|y b] [|z c]; cbn;
    try discriminate; try reflexivity.
  destruct (Z.eqb_spec x y), (Z.eqb_spec y z), (Z.eqb_spec x z);
    try lia; intros H1 H2;
    first [ eapply IH; eassumption | rewrite ?Z.ltb_lt in *; lia ].
Qed.

Lemma tuple_gt_total (a b : list Z) :
  tuple_gt a b = false -> tuple_gt b a = false -> a = b.
Proof.
  revert b. induction a as [|x a IH]; intros [|y b]; cbn;
    try discriminate; try reflexivity.
  destruct (Z.eqb_spec x y), (Z.eqb_spec y x); try lia; intros H1 H2.
  subst. f_equal. now apply IH.
Qed.

Lemma tuple_gt_asym (a b : list Z) :
  tuple_gt a b = true -> tuple_gt b a = false.
Proof.
  intros Hab. destruct (tuple_gt b a) eqn:Hba; [|reflexivity].
  pose proof (tuple_gt_trans _ _ _ Hab Hba) as H.
  now rewrite tuple_gt_irrefl in H.
Qed.

(** [a > b] and [c <= b] give [a > c]. *)
Lemma tuple_gt_le_trans (a b c : list Z) :
  tuple_gt a b = true -> tuple_gt c b = false -> tuple_gt a c = true.
Proof.
  intros Hab Hcb. destruct (tuple_gt b c) eqn:Hbc.
  - eapply tuple_gt_trans; eassumption.
  - now rewrite (tuple_gt_total _ _ Hcb Hbc).
Qed.

Lemma tuple_gt_pair (a b c d : Z) :
  tuple_gt [a; b] [c; d] = true <-> c < a \/ (a = c /\ d < b).
Proof.
  cbn. destruct (Z.eqb_spec a c), (Z.eqb_spec b d); rewrite ?Z.ltb_lt; lia.
Qed.

Lemma tuple_gt_single (a c : Z) : tuple_gt [a] [c] = true <-> c < a.
Proof. cbn. destruct (Z.eqb_spec a c); rewrite ?Z.ltb_lt; lia. Qed.

Lemma tuple_gt_triple (a1 a2 a3 b1 b2 b3 : Z) :
  tuple_gt [a1; a2; a3] [b1; b2; b3] = true
  <-> b1 < a1 \/ (a1 = b1 /\ (b2 < a2 \/ (a2 = b2 /\ b3 < a3))).
Proof.
  cbn. destruct (Z.eqb_spec a1 b1), (Z.eqb_spec a2 b2), (Z.eqb_spec a3 b3);
    rewrite ?Z.ltb_lt; split; try discriminate; lia.
Qed.

(** ** The selector *)

Section Selector.
Context {R : PyRandom}.

Lemma first_max_single (key : Position -> Key) (x : Position) :
  first_max key [x] x.
Proof.
  exists 0%nat. split; [reflexivity|]. split.
  - intros q [<-|[]]. apply tuple_gt_irrefl.
  - intros j q Hj. lia.
Qed.

Lemma first_max_snoc (key : Position -> Key) (pre : list Position)
    (p x : Position) :
  first_max key pre p ->
  first_max key (pre ++ [x])
    (if tuple_gt (key x) (key p) then x else p).
Proof.
  intros (i & Hi & Hmax & Hfirst).
  pose proof (lookup_lt_Some _ _ _ Hi) as Hlen.
  destruct (tuple_gt (key x) (key p)) eqn:Hgt.
  - exists (length pre). split; [|split].
    + rewrite lookup_app_r by lia. now rewrite Nat.sub_diag.
    + intros q [Hq|[<-|[]]]%in_app_iff; [|apply tuple_gt_irrefl].
      apply tuple_gt_asym. eapply tuple_gt_le_trans; [exact Hgt|]. now apply Hmax.
    + intros j q Hj Hq. rewrite lookup_app_l in Hq by exact Hj.
      eapply tuple_gt_le_trans; [exact Hgt|]. apply Hmax.
      apply list_elem_of_In. eapply list_elem_of_lookup_2. exact Hq.
  - exists i. split; [|split].
    + rewrite lookup_app_l by exact Hlen. exact Hi.
    + intros q [Hq|[<-|[]]]%in_app_iff; [now apply Hmax | exact Hgt].
    + intros j q Hj Hq. rewrite lookup_app_l in Hq by lia. eapply Hfirst; eassumption.
Qed.

Lemma best_loop_pure (key : Position -> Key) (key_fn : Position -> Cmd Key)
    (b : BoardManager) (cands pre : list Position) (p : Position) :
  (forall q, In q cands -> key_fn q b = (Ok (key q), b)) ->
  first_max key pre p ->
  exists p',
    cfor_each cands (fun pos (best : option Position * option Key) =>
       cbind (key_fn pos) (fun k =>
         match snd best with
         | None => cret (Some pos, Some k)
         | Some best_key =>
             if tuple_gt k best_key then cret (Some pos, Some k) else cret best
         end)) (Some p, Some (key p)) b
    = (Ok (Some p', Some (key p')), b)
    /\ first_max key (pre ++ cands) p'.
Proof.
  revert pre p. induction cands as [|x xs IH]; intros pre p Hkey Hfm.
  - exists p. rewrite app_nil_r. split; [reflexivity | exact Hfm].
  - pose proof (first_max_snoc key pre p x Hfm) as Hstep.
    cbn [cfor_each]. unfold cbind at 1. unfold cbind at 1.
    rewrite (Hkey x) by (left; reflexivity). cbn [snd].
    assert (Hxs : forall q, In q xs -> key_fn q b = (Ok (key q), b)).
    { intros q Hq. apply Hkey. right. exact Hq. }
    destruct (tuple_gt (key x) (key p)); unfold cret at 1;
      [destruct (IH (pre ++ [x]) x Hxs Hstep) as (p' & Hrun & Hfm')
      |destruct (IH (pre ++ [x]) p Hxs Hstep) as (p' & Hrun & Hfm')];
      exists p'; rewrite <- app_assoc in Hfm'; (split; [exact Hrun | exact Hfm']).
Qed.

Lemma best_by_key_first_max (key : Position -> Key) (key_fn : Position -> Cmd Key)
    (b : BoardManager) (cands : list Position) :
  cands <> [] ->
  (forall q, In q cands -> key_fn q b = (Ok (key q), b)) ->
  exists p,
    _best_by_key cands key_fn true b = (Ok (Some p), b)
    /\ first_max key cands p.
Proof.
  intros Hne Hkey. destruct cands as [|x xs]; [contradiction|].
  assert (Hxs : forall q, In q xs -> key_fn q b = (Ok (key q), b)).
  { intros q Hq. apply Hkey. right. exact Hq. }
  destruct (best_loop_pure key key_fn b xs [x] x Hxs (first_max_single key x))
    as (p & Hrun & Hfm).
  exists p. split; [|exact Hfm].
  unfold _best_by_key. cbn [cfor_each]. unfold cbind at 1. unfold cbind at 1.
  unfold cbind at 1. rewrite (Hkey x) by (left; reflexivity). cbn [snd].
  unfold cret at 1. cbn [snd] in Hrun |- *.
  unfold cbind in Hrun |- *. cbn in Hrun |- *. rewrite Hrun. reflexivity.
Qed.

End Selector.

(** ** Simulation and the ranking keys *)

Section Metrics.
Context {R : PyRandom}.

Lemma cbind_ok {A B : Type} (m : Cmd A) (f : A -> Cmd B) (b b' : BoardManager)
    (a : A) :
  m b = (Ok a, b') -> cbind m f b = f a b'.
Proof. intros H. unfold cbind. now rewrite H. Qed.

Lemma query_ok {A : Type} (q : BoardManager -> result A) (b : BoardManager) (a : A) :
  q b = Ok a -> query q b = (Ok a, b).
Proof. intros H. unfold query. now rewrite H. Qed.

Lemma well_formed_simulate (b : BoardManager) (p : Position) :
  well_formed b = true -> well_formed (simulate b p) = true.
Proof. intros Hwf. unfold simulate. now apply well_formed_put. Qed.

Lemma board_setitem_simulate (b : BoardManager) (r c : Z) :
  well_formed b = true -> in_bounds b (r, c) = true ->
  board_setitem r c None b = (Ok tt, simulate b (r, c)).
Proof. intros Hwf Hin. now rewrite board_setitem_put. Qed.

(** Writing the saved value back undoes the simulated removal. *)
Lemma board_setitem_restore (b : BoardManager) (r c : Z) :
  well_formed b = true -> in_bounds b (r, c) = true ->
  board_setitem r c (cell (board b) r c) (simulate b (r, c)) = (Ok tt, b).
Proof.
  intros Hwf Hin.
  rewrite board_setitem_put;
    [|now apply well_formed_simulate | exact Hin].
  cbn [simulate size random board last_removed_pos fst snd].
  rewrite grid_put_put, (grid_put_cell b r c Hwf Hin).
  now destruct b.
Qed.

Lemma map_each_values (b : BoardManager) (l : list Position) :
  well_formed b = true -> (forall q, In q l -> in_bounds b q = true) ->
  map_each (fun p => v <- get_value b p ;; Ok (or0 v)) l
  = Ok (map (value_of b) l).
Proof.
  intros Hwf. induction l as [|q l IH]; intros Hin; cbn; [reflexivity|].
  rewrite (get_value_spec b q Hwf) by (apply Hin; now left). cbn.
  rewrite IH by (intros q' Hq'; apply Hin; now right). reflexivity.
Qed.

Lemma replies_in_bounds (b : BoardManager) (p q : Position) :
  in_bounds b p = true -> In q (replies b p) -> in_bounds (simulate b p) q = true.
Proof.
  intros Hp Hq. unfold replies in Hq.
  apply (in_row_then_column (simulate b p) p q Hp) in Hq as [Hav _].
  now apply available_in_bounds.
Qed.

Lemma replies_computed (b : BoardManager) (p : Position) :
  well_formed b = true -> in_bounds b p = true ->
  get_allowed_positions (simulate b p) p = Ok (replies b p).
Proof.
  intros Hwf Hin. apply get_allowed_positions_spec;
    [now apply well_formed_simulate | exact Hin].
Qed.

Lemma metric_greedy_pure (b : BoardManager) (p : Position) :
  well_formed b = true -> in_bounds b p = true ->
  query (fun b => v <- get_value b p ;; Ok [or0 v]) b = (Ok (key_greedy b p), b).
Proof.
  intros Hwf Hin. apply query_ok. now rewrite (get_value_spec b p Hwf Hin).
Qed.

Lemma metric_future_min_pure (b : BoardManager) (p : Position) :
  well_formed b = true -> in_bounds b p = true ->
  metric_future_min p b = (Ok (key_future_min b p), b).
Proof.
  intros Hwf Hin. destruct p as [r c]. unfold metric_future_min.
  erewrite cbind_ok; [|apply query_ok, (get_value_spec b (r, c) Hwf Hin)].
  erewrite cbind_ok; [|apply query_ok, (grid_get_cell b r c Hwf Hin)].
  erewrite cbind_ok; [|apply (board_setitem_simulate b r c Hwf Hin)].
  erewrite cbind_ok; [|apply query_ok, (replies_computed b (r, c) Hwf Hin)].
  erewrite cbind_ok with (a := min_reply_value b (r, c)).
  2:{ apply query_ok. unfold min_reply_value.
      pose proof (map_each_values (simulate b (r, c)) (replies b (r, c))
                    (well_formed_simulate b (r, c) Hwf)
                    (fun q => replies_in_bounds b (r, c) q Hin)) as Hvals.
      destruct (replies b (r, c)) as [|q qs]; [reflexivity|].
      rewrite Hvals. reflexivity. }
  erewrite cbind_ok; [|apply (board_setitem_restore b r c Hwf Hin)].
  reflexivity.
Qed.

Lemma metric_opponent_options_pure (b : BoardManager) (p : Position) :
  well_formed b = true -> in_bounds b p = true ->
  metric_opponent_options p b = (Ok (key_opponent_options b p), b).
Proof.
  intros Hwf Hin. destruct p as [r c]. unfold metric_opponent_options.
  erewrite cbind_ok; [|apply query_ok, (grid_get_cell b r c Hwf Hin)].
  erewrite cbind_ok; [|apply (board_setitem_simulate b r c Hwf Hin)].
  erewrite cbind_ok; [|apply query_ok, (replies_computed b (r, c) Hwf Hin)].
  erewrite cbind_ok; [|apply (board_setitem_restore b r c Hwf Hin)].
  erewrite cbind_ok; [|apply query_ok, (get_value_spec b (r, c) Hwf Hin)].
  reflexivity.
Qed.

Lemma count_hits (gm : Z) (val : Position -> Z) (l : list Position) (e h : Z) :
  fold_left (fun (acc : Z * Z) p =>
               if val p =? gm then (1, snd acc + 1) else acc) l (e, h)
  = (if existsb (fun q => val q =? gm) l then 1 else e,
     h + Z.of_nat (length (List.filter (fun q => val q =? gm) l))).
Proof.
  revert e h. induction l as [|q l IH]; intros e h; cbn [fold_left existsb List.filter].
  - cbn. f_equal. lia.
  - destruct (val q =? gm); cbn [snd orb length].
    + rewrite IH. destruct (existsb _ l); f_equal; lia.
    + apply IH.
Qed.

Lemma metric_high_value_pure (gm : Z) (b : BoardManager) (p : Position) :
  well_formed b = true -> in_bounds b p = true ->
  metric_high_value gm p b = (Ok (key_high_value gm b p), b).
Proof.
  intros Hwf Hin. destruct p as [r c]. unfold metric_high_value.
  erewrite cbind_ok; [|apply query_ok, (grid_get_cell b r c Hwf Hin)].
  erewrite cbind_ok; [|apply (board_setitem_simulate b r c Hwf Hin)].
  erewrite cbind_ok; [|apply query_ok, (replies_computed b (r, c) Hwf Hin)].
  erewrite cbind_ok with (a := (exposes gm b (r, c), hits gm b (r, c))).
  2:{ apply query_ok.
      rewrite (for_each_pure _ _
        (fun (acc : Z * Z) q =>
           if value_of (simulate b (r, c)) q =? gm then (1, snd acc + 1) else acc)).
      - rewrite count_hits. unfold exposes, hits. now rewrite Z.add_0_l.
      - intros q [e h] Hq.
        rewrite (get_value_spec (simulate b (r, c)) q
                   (well_formed_simulate b (r, c) Hwf)
                   (replies_in_bounds b (r, c) q Hin Hq)).
        reflexivity. }
  erewrite cbind_ok; [|apply (board_setitem_restore b r c Hwf Hin)].
  erewrite cbind_ok; [|apply query_ok, (get_value_spec b (r, c) Hwf Hin)].
  reflexivity.
Qed.

End Metrics.

(** ** The strategies *)

Section StrategyFacts.
Context {R : PyRandom}.

Lemma or0_Some (v : Z) : or0 (Some v) = v.
Proof. cbn. destruct (Z.eqb_spec v 0); congruence. Qed.

Lemma fold_max_row (b : BoardManager) (r : Z) (cs : list Z) (m : Z) :
  (forall c, In c cs -> in_bounds b (r, c) = true) ->
  fold_left (fun m c => match cell (board b) r c with
                        | Some v => if m <? v then v else m
                        | None => m
                        end) cs m
  = fold_left Z.max
      (map (value_of b)
         (map (fun c => (r, c)) (List.filter (fun c => available b (r, c)) cs))) m.
Proof.
  revert m. induction cs as [|c cs IH]; intros m Hin; [reflexivity|].
  cbn [fold_left List.filter].
  assert (Hav : available b (r, c) = is_not_None (cell (board b) r c)).
  { unfold available. now rewrite (Hin c) by (now left). }
  rewrite Hav.
  assert (Hcs : forall c', In c' cs -> in_bounds b (r, c') = true)
    by (intros c' Hc'; apply Hin; now right).
  destruct (cell (board b) r c) as [v|] eqn:Hcell; cbn [is_not_None map fold_left].
  - rewrite IH by exact Hcs. f_equal. unfold value_of. cbn [fst snd].
    rewrite Hcell, or0_Some. destruct (Z.ltb_spec m v); lia.
  - now apply IH.
Qed.

Lemma fold_max_rows (val : Position -> Z) (cells : Z -> list Position)
    (rs : list Z) (m : Z) :
  fold_left (fun m r => fold_left Z.max (map val (cells r)) m) rs m
  = fold_left Z.max (map val (flat_map cells rs)) m.
Proof.
  revert m. induction rs as [|r rs IH]; intros m; [reflexivity|].
  cbn [fold_left flat_map]. now rewrite IH, map_app, fold_left_app.
Qed.

Lemma max_remaining_value_spec (b : BoardManager) :
  well_formed b = true -> max_remaining_value b = Ok (global_max b).
Proof.
  intros Hwf. unfold max_remaining_value, global_max, row_major.
  rewrite (for_each_pure _ _
    (fun m r => fold_left Z.max
       (map (value_of b)
          (map (fun c => (r, c))
             (List.filter (fun c => available b (r, c)) (range (size b))))) m)).
  - now rewrite (fold_max_rows (value_of b)
      (fun r => map (fun c => (r, c))
                  (List.filter (fun c => available b (r, c)) (range (size b))))).
  - intros r m Hr. apply in_range in Hr.
    assert (Hin : forall c, In c (range (size b)) -> in_bounds b (r, c) = true).
    { intros c Hc. apply in_range in Hc. apply in_bounds_iff. lia. }
    rewrite (for_each_pure _ _
      (fun m c => match cell (board b) r c with
                  | Some v => if m <? v then v else m
                  | None => m
                  end)).
    + now rewrite fold_max_row.
    + intros c m' Hc. now rewrite (grid_get_cell b r c Hwf (Hin c Hc)).
Qed.

Lemma legal_set_available (b : BoardManager) (last : option Position)
    (q : Position) :
  on_board b last = true -> In q (legal_set b last) -> available b q = true.
Proof.
  destruct last as [p|]; cbn; intros Hlast Hq.
  - now apply (in_row_then_column b p q Hlast) in Hq as [Hav _].
  - now apply in_row_major.
Qed.

(** The common shape of the four strategies: the legal set, the guard, the
    selector over a key function that leaves the board as it found it. *)
Lemma strategy_selects (key : Position -> Key) (key_fn : Position -> Cmd Key)
    (b : BoardManager) (last : option Position) :
  well_formed b = true -> on_board b last = true -> legal_set b last <> [] ->
  (forall q, in_bounds b q = true -> key_fn q b = (Ok (key q), b)) ->
  exists p,
    cbind (query (fun b => legal_positions b last)) (fun allowed =>
      match allowed with
      | [] => craise no_allowed_moves
      | _ :: _ => _best_by_key allowed key_fn true
      end) b = (Ok (Some p), b)
    /\ first_max key (legal_set b last) p.
Proof.
  intros Hwf Hlast Hne Hkey.
  erewrite cbind_ok; [|apply query_ok, (legal_positions_spec b last Hwf Hlast)].
  destruct (best_by_key_first_max key key_fn b (legal_set b last) Hne)
    as (p & Hrun & Hfm).
  { intros q Hq. apply Hkey. eapply available_in_bounds, legal_set_available; eauto. }
  exists p. split; [|exact Hfm].
  destruct (legal_set b last); [contradiction | exact Hrun].
Qed.

Lemma greedy_selects (b : BoardManager) (last : option Position) :
  well_formed b = true -> on_board b last = true -> legal_set b last <> [] ->
  exists p,
    strategy_greedy_maximize b last = (Ok (Some p), b)
    /\ first_max (key_greedy b) (legal_set b last) p.
Proof.
  intros Hwf Hlast Hne. apply strategy_selects; try assumption.
  intros q Hq. now apply metric_greedy_pure.
Qed.

Lemma future_min_selects (b : BoardManager) (last : option Position) :
  well_formed b = true -> on_board b last = true -> legal_set b last <> [] ->
  exists p,
    strategy_maximize_future_min b last = (Ok (Some p), b)
    /\ first_max (key_future_min b) (legal_set b last) p.
Proof.
  intros Hwf Hlast Hne. apply strategy_selects; try assumption.
  intros q Hq. now apply metric_future_min_pure.
Qed.

Lemma opponent_options_selects (b : BoardManager) (last : option Position) :
  well_formed b = true -> on_board b last = true -> legal_set b last <> [] ->
  exists p,
    strategy_minimize_opponent_options b last = (Ok (Some p), b)
    /\ first_max (key_opponent_options b) (legal_set b last) p.
Proof.
  intros Hwf Hlast Hne. apply strategy_selects; try assumption.
  intros q Hq. now apply metric_opponent_options_pure.
Qed.

Lemma high_value_selects (b : BoardManager) (last : option Position) :
  well_formed b = true -> on_board b last = true -> legal_set b last <> [] ->
  exists p,
    strategy_high_value_preservation b last = (Ok (Some p), b)
    /\ first_max (key_high_value (global_max b) b) (legal_set b last) p.
Proof.
  intros Hwf Hlast Hne.
  destruct (best_by_key_first_max (key_high_value (global_max b) b)
              (metric_high_value (global_max b)) b (legal_set b last) Hne)
    as (p & Hrun & Hfm).
  { intros q Hq. apply metric_high_value_pure; [exact Hwf|].
    eapply available_in_bounds, legal_set_available; eauto. }
  exists p. split; [|exact Hfm].
  unfold strategy_high_value_preservation.
  erewrite cbind_ok; [|apply query_ok, (legal_positions_spec b last Hwf Hlast)].
  destruct (legal_set b last); [contradiction|].
  erewrite cbind_ok; [|apply query_ok, (max_remaining_value_spec b Hwf)].
  exact Hrun.
Qed.

End StrategyFacts.

(** ** What the strategies return *)

(** ** Values read from the board *)

Lemma fold_max_bounds (l : list Z) (a : Z) :
  a <= fold_left Z.max l a
  /\ (forall x, In x l -> x <= fold_left Z.max l a)
  /\ (fold_left Z.max l a = a \/ In (fold_left Z.max l a) l).
Proof.
  revert a. induction l as [|y l IH]; intros a; cbn.
  - split; [lia|]. split; [intros x []|now left].
  - destruct (IH (Z.max a y)) as (Hge & Hall & Hatt). split; [lia|]. split.
    + intros x [<-|Hx]; [lia | now apply Hall].
    + destruct Hatt as [Heq|Hin]; [|right; now right].
      rewrite Heq. destruct (Z.max_spec a y) as [[_ ->]|[_ ->]]; [right|]; now left.
Qed.

Section ValuesRead.
Context {R : PyRandom}.

Lemma available_value (b : BoardManager) (p : Position) :
  well_formed b = true -> available b p = true ->
  get_value b p = Ok (Some (value_of b p)).
Proof.
  intros Hwf Hav. pose proof (available_in_bounds b p Hav) as Hin.
  rewrite (get_value_spec b p Hwf Hin). unfold value_of, available in *.
  rewrite Hin in Hav. cbn in Hav.
  destruct (cell (board b) (fst p) (snd p)); [now rewrite or0_Some | discriminate].
Qed.

Lemma get_value_available (b : BoardManager) (p : Position) (v : Z) :
  well_formed b = true -> in_bounds b p = true ->
  get_value b p = Ok (Some v) -> available b p = true /\ value_of b p = v.
Proof.
  intros Hwf Hin Hget. rewrite (get_value_spec b p Hwf Hin) in Hget.
  injection Hget as Hcell. unfold available, value_of.
  rewrite Hin, Hcell, or0_Some. split; reflexivity.
Qed.

End ValuesRead.

Section StrategyClaims.
Context {R : PyRandom}.

Lemma first_max_in (key : Position -> Key) (l : list Position) (p : Position) :
  first_max key l p -> In p l.
Proof.
  intros (i & Hi & _). apply list_elem_of_In. eapply list_elem_of_lookup_2. exact Hi.
Qed.

Lemma legal_positions_inv (b : BoardManager) (last : option Position)
    (allowed : list Position) :
  well_formed b = true -> on_board b last = true ->
  legal_positions b last = Ok allowed -> allowed = legal_set b last.
Proof.
  intros Hwf Hlast Hrun. rewrite (legal_positions_spec b last Hwf Hlast) in Hrun.
  congruence.
Qed.

(** C2. On a board of the constructed shape, with a previous move that is
    absent or on the board and a non-empty legal set, each of the four
    strategies returns one of the legal positions and leaves the board equal
    to the board it was given: same grid, same latest removed position (and
    same size and generator). *)
Theorem strategies_leave_board_unchanged (b : BoardManager)
    (last : option Position) (allowed : list Position) :
  well_formed b = true -> on_board b last = true ->
  legal_positions b last = Ok allowed -> allowed <> [] ->
  Forall (fun f : StrategyFunc =>
            exists p b',
              f b last = (Ok (Some p), b') /\ In p allowed
              /\ b' = b /\ board b' = board b
              /\ last_removed_pos b' = last_removed_pos b)
    [strategy_greedy_maximize; strategy_maximize_future_min;
     strategy_minimize_opponent_options; strategy_high_value_preservation].
Proof.
  intros Hwf Hlast Hlegal Hne.
  pose proof (legal_positions_inv b last allowed Hwf Hlast Hlegal) as ->.
  destruct (greedy_selects b last Hwf Hlast Hne) as (p1 & H1 & F1).
  destruct (future_min_selects b last Hwf Hlast Hne) as (p2 & H2 & F2).
  destruct (opponent_options_selects b last Hwf Hlast Hne) as (p3 & H3 & F3).
  destruct (high_value_selects b last Hwf Hlast Hne) as (p4 & H4 & F4).
  constructor; [|constructor; [|constructor; [|constructor; [|constructor]]]].
  - exists p1, b. eauto 6 using first_max_in.
  - exists p2, b. eauto 6 using first_max_in.
  - exists p3, b. eauto 6 using first_max_in.
  - exists p4, b. eauto 6 using first_max_in.
Qed.

(** C4. [strategy_maximize_future_min] returns the first legal candidate
    whose key (immediate value minus the minimum value among the opponent's
    replies on the board with the candidate removed, 0 when there is no
    reply; then the immediate value) is lexicographically maximal; the
    replies are what [get_allowed_positions] returns on the board with the
    candidate removed. *)
Theorem future_min_choice (b : BoardManager) (last : option Position)
    (allowed : list Position) :
  well_formed b = true -> on_board b last = true ->
  legal_positions b last = Ok allowed -> allowed <> [] ->
  exists p,
    strategy_maximize_future_min b last = (Ok (Some p), b)
    /\ first_max (key_future_min b) allowed p
    /\ (forall q, In q allowed ->
          get_allowed_positions (simulate b q) q = Ok (replies b q)
          /\ get_value b q = Ok (Some (value_of b q))
          /\ (value_of b q - min_reply_value b q
               < value_of b p - min_reply_value b p
               \/ (value_of b q - min_reply_value b q
                    = value_of b p - min_reply_value b p
                    /\ value_of b q <= value_of b p))).
Proof.
  intros Hwf Hlast Hlegal Hne.
  pose proof (legal_positions_inv b last allowed Hwf Hlast Hlegal) as ->.
  destruct (future_min_selects b last Hwf Hlast Hne) as (p & Hrun & Hfm).
  exists p. split; [exact Hrun|]. split; [exact Hfm|].
  intros q Hq. pose proof (legal_set_available b last q Hlast Hq) as Hav.
  pose proof (available_in_bounds b q Hav) as Hin.
  split; [now apply replies_computed|]. split.
  - rewrite (get_value_spec b q Hwf Hin). unfold value_of, available in *.
    rewrite Hin in Hav. cbn in Hav.
    destruct (cell (board b) (fst q) (snd q)); [now rewrite or0_Some | discriminate].
  - destruct Hfm as (i & _ & Hmax & _). specialize (Hmax q Hq).
    unfold key_future_min in Hmax.
    pose proof (tuple_gt_pair (value_of b q - min_reply_value b q) (value_of b q)
                  (value_of b p - min_reply_value b p) (value_of b p)) as Hpair.
    rewrite Hmax in Hpair. destruct Hpair as [_ Hpair].
    destruct (Z.lt_trichotomy (value_of b q - min_reply_value b q)
                (value_of b p - min_reply_value b p)) as [Hlt|[Heq|Hgt]].
    + now left.
    + right. split; [exact Heq|].
      destruct (Z.le_gt_cases (value_of b q) (value_of b p)) as [Hle|Hgt];
        [exact Hle|].
      discriminate (Hpair (or_intror (conj Heq Hgt))).
    + discriminate (Hpair (or_introl Hgt)).
Qed.

Lemma exposes_iff (gm : Z) (b : BoardManager) (q : Position) :
  (exposes gm b q = 1 <->
   exists r, In r (replies b q) /\ value_of (simulate b q) r = gm)
  /\ (exposes gm b q = 0 <->
      forall r, In r (replies b q) -> value_of (simulate b q) r <> gm).
Proof.
  unfold exposes.
  destruct (existsb _ (replies b q)) eqn:Hex.
  - apply existsb_exists in Hex as (r & Hr & Heq). apply Z.eqb_eq in Heq.
    split; split; try discriminate; eauto.
    intros Hall. exfalso. exact (Hall r Hr Heq).
  - split; split; try discriminate; try reflexivity.
    + intros (r & Hr & Heq). exfalso.
      assert (Hex' : existsb (fun q0 => value_of (simulate b q) q0 =? gm)
                       (replies b q) = true).
      { apply existsb_exists. exists r. split; [exact Hr | now apply Z.eqb_eq]. }
      congruence.
    + intros _ r Hr Heq.
      assert (Hex' : existsb (fun q0 => value_of (simulate b q) q0 =? gm)
                       (replies b q) = true).
      { apply existsb_exists. exists r. split; [exact Hr | now apply Z.eqb_eq]. }
      congruence.
Qed.

(** C5. [strategy_high_value_preservation] computes the global maximum once,
    on the board it is given, and returns the first legal candidate that
    maximizes (minus the exposure flag, minus the number of opponent replies
    holding that maximum, immediate value): no candidate has a smaller flag,
    or the same flag and fewer such replies, or the same flag and count and
    a greater value, and every candidate enumerated earlier is strictly
    worse in that order.  The replies are what [get_allowed_positions]
    returns on the board with the candidate removed, their values and the
    candidate's are what [get_value] reads, and the flag is 1 exactly when
    some reply holds the maximum computed before the simulation.  That
    maximum is at least 0 and at least every value [get_value] reads on the
    board the strategy is given, and is one of them unless it is 0. *)
Theorem high_value_choice (b : BoardManager) (last : option Position)
    (allowed : list Position) :
  well_formed b = true -> on_board b last = true ->
  legal_positions b last = Ok allowed -> allowed <> [] ->
  exists gm p,
    max_remaining_value b = Ok gm
    /\ gm = global_max b
    /\ strategy_high_value_preservation b last = (Ok (Some p), b)
    /\ first_max (key_high_value gm b) allowed p
    /\ (forall q, In q allowed ->
          exposes gm b p < exposes gm b q
          \/ (exposes gm b q = exposes gm b p
              /\ (hits gm b p < hits gm b q
                  \/ (hits gm b q = hits gm b p
                      /\ value_of b q <= value_of b p))))
    /\ (exists i : nat,
          allowed !! i = Some p
          /\ forall j q, (j < i)%nat -> allowed !! j = Some q ->
               exposes gm b p < exposes gm b q
               \/ (exposes gm b q = exposes gm b p
                   /\ (hits gm b p < hits gm b q
                       \/ (hits gm b q = hits gm b p
                           /\ value_of b q < value_of b p))))
    /\ (forall q, In q allowed ->
          get_allowed_positions (simulate b q) q = Ok (replies b q)
          /\ get_value b q = Ok (Some (value_of b q))
          /\ (forall r, In r (replies b q) ->
                get_value (simulate b q) r
                = Ok (Some (value_of (simulate b q) r)))
          /\ hits gm b q
             = Z.of_nat (length (List.filter
                                  (fun r => value_of (simulate b q) r =? gm)
                                  (replies b q)))
          /\ (exposes gm b q = 1 <->
              exists r, In r (replies b q) /\ value_of (simulate b q) r = gm)
          /\ (exposes gm b q = 0 <->
              forall r, In r (replies b q) -> value_of (simulate b q) r <> gm))
    /\ 0 <= gm
    /\ (forall q v, in_bounds b q = true -> get_value b q = Ok (Some v) -> v <= gm)
    /\ (gm <> 0 -> exists q, in_bounds b q = true /\ get_value b q = Ok (Some gm)).
Proof.
  intros Hwf Hlast Hlegal Hne.
  pose proof (legal_positions_inv b last allowed Hwf Hlast Hlegal) as ->.
  destruct (high_value_selects b last Hwf Hlast Hne) as (p & Hrun & Hfm).
  exists (global_max b), p.
  split; [now apply max_remaining_value_spec|]. split; [reflexivity|].
  split; [exact Hrun|]. split; [exact Hfm|].
  destruct Hfm as (i & Hi & Hmax & Hfirst).
  split; [|split; [|split]].
  - intros q Hq. specialize (Hmax q Hq). unfold key_high_value in Hmax.
    assert (Hnot : ~ (- exposes (global_max b) b p < - exposes (global_max b) b q
                      \/ (- exposes (global_max b) b q = - exposes (global_max b) b p
                          /\ (- hits (global_max b) b p < - hits (global_max b) b q
                              \/ (- hits (global_max b) b q = - hits (global_max b) b p
                                  /\ value_of b p < value_of b q))))).
    { rewrite <- tuple_gt_triple, Hmax. discriminate. }
    lia.
  - exists i. split; [exact Hi|]. intros j q Hj Hq.
    specialize (Hfirst j q Hj Hq). unfold key_high_value in Hfirst.
    apply tuple_gt_triple in Hfirst. lia.
  - intros q Hq. pose proof (legal_set_available b last q Hlast Hq) as Hav.
    pose proof (available_in_bounds b q Hav) as Hin.
    split; [now apply replies_computed|]. split.
    { rewrite (get_value_spec b q Hwf Hin). unfold value_of, available in *.
      rewrite Hin in Hav. cbn in Hav.
      destruct (cell (board b) (fst q) (snd q)); [now rewrite or0_Some | discriminate]. }
    split.
    { intros r Hr.
      pose proof (well_formed_simulate b q Hwf) as Hwf'.
      pose proof (replies_in_bounds b q r Hin Hr) as Hin'.
      assert (Hav' : available (simulate b q) r = true).
      { unfold replies in Hr.
        apply (in_row_then_column (simulate b q) q r) in Hr; [tauto|exact Hin]. }
      rewrite (get_value_spec _ r Hwf' Hin'). unfold value_of, available in *.
      rewrite Hin' in Hav'. cbn [andb] in Hav'.
      destruct (cell (board (simulate b q)) (fst r) (snd r));
        [now rewrite or0_Some | discriminate]. }
    split; [reflexivity | apply exposes_iff].
  - unfold global_max.
    destruct (fold_max_bounds (map (value_of b) (row_major b)) 0)
      as (Hge & Hall & Hatt).
    split; [exact Hge|]. split.
    + intros q v Hin Hget.
      destruct (get_value_available b q v Hwf Hin Hget) as [Hav <-].
      apply Hall, in_map, in_row_major, Hav.
    + intros Hnz. destruct Hatt as [Heq|Hin]; [contradiction|].
      apply in_map_iff in Hin as (q & Hval & Hq). apply in_row_major in Hq.
      exists q. split; [now apply available_in_bounds|].
      rewrite <- Hval. now apply available_value.
Qed.

(** C6. [strategy_greedy_maximize] returns the first legal candidate of
    maximum cell value: no candidate holds more, every earlier candidate
    holds less.  On the 3x3 board preset with 1..9, after the opening move
    at (0,0), the legal set is [(0,1),(0,2),(1,0),(2,0)] and the greedy
    choice is (2,0), which holds 7. *)
Theorem greedy_choice :
  (forall (b : BoardManager) (last : option Position) (allowed : list Position),
     well_formed b = true -> on_board b last = true ->
     legal_positions b last = Ok allowed -> allowed <> [] ->
     exists (p : Position) (i : nat),
       strategy_greedy_maximize b last = (Ok (Some p), b)
       /\ allowed !! i = Some p
       /\ (forall q, In q allowed ->
             get_value b q = Ok (Some (value_of b q))
             /\ value_of b q <= value_of b p)
       /\ (forall j q, (j < i)%nat -> allowed !! j = Some q ->
             value_of b q < value_of b p))
  /\ (forall os : entropy,
        exists b0 b1 : BoardManager,
          BoardManager_init 3 None (Some [1; 2; 3; 4; 5; 6; 7; 8; 9]) os = Ok b0
          /\ remove_and_get (0, 0) b0 = (Ok 1, b1)
          /\ legal_positions b1 (Some (0, 0)) = Ok [(0, 1); (0, 2); (1, 0); (2, 0)]
          /\ strategy_greedy_maximize b1 (Some (0, 0)) = (Ok (Some (2, 0)), b1)
          /\ get_value b1 (2, 0) = Ok (Some 7)).
Proof.
  split.
  - intros b last allowed Hwf Hlast Hlegal Hne.
    pose proof (legal_positions_inv b last allowed Hwf Hlast Hlegal) as ->.
    destruct (greedy_selects b last Hwf Hlast Hne) as (p & Hrun & i & Hi & Hmax & Hfirst).
    exists p, i. split; [exact Hrun|]. split; [exact Hi|]. split.
    + intros q Hq. pose proof (legal_set_available b last q Hlast Hq) as Hav.
      pose proof (available_in_bounds b q Hav) as Hin. split.
      * rewrite (get_value_spec b q Hwf Hin). unfold value_of, available in *.
        rewrite Hin in Hav. cbn in Hav.
        destruct (cell (board b) (fst q) (snd q)); [now rewrite or0_Some | discriminate].
      * specialize (Hmax q Hq). unfold key_greedy in Hmax.
        destruct (Z.lt_ge_cases (value_of b p) (value_of b q)) as [Hlt|Hge]; [|lia].
        apply tuple_gt_single in Hlt. congruence.
    + intros j q Hj Hq. apply tuple_gt_single. eapply Hfirst; eassumption.
  - intros os.
    exists {| size := 3; random := rng_of_entropy os;
              board := [[Some 1; Some 2; Some 3]; [Some 4; Some 5; Some 6];
                        [Some 7; Some 8; Some 9]];
              last_removed_pos := None |},
           {| size := 3; random := rng_of_entropy os;
              board := [[None; Some 2; Some 3]; [Some 4; Some 5; Some 6];
                        [Some 7; Some 8; Some 9]];
              last_removed_pos := Some (0, 0) |}.
    repeat split; reflexivity.
Qed.

End StrategyClaims.

(** ** Construction *)

Lemma getitem_nth {A : Type} (l : list A) (i : Z) (d : A) :
  0 <= i < Z.of_nat (length l) -> getitem l i = Ok (nth (Z.to_nat i) l d).
Proof.
  intros Hi. destruct (lookup_lt_is_Some_2 l (Z.to_nat i)) as [x Hx]; [lia|].
  rewrite (nth_lookup_Some _ _ d _ Hx). apply getitem_lookup; [lia | exact Hx].
Qed.

Lemma map_seq_shift {A : Type} (f : nat -> A) (a n : nat) :
  map f (seq (S a) n) = map (fun j => f (S j)) (seq a n).
Proof. now rewrite <- seq_shift, map_map. Qed.

Lemma lookup_map_seq {A : Type} (f : nat -> A) (a n k : nat) :
  (k < n)%nat -> map f (seq a n) !! k = Some (f (a + k)%nat).
Proof.
  revert a k. induction n as [|n IH]; intros a [|k] Hk; try lia; cbn.
  - now rewrite Nat.add_0_r.
  - rewrite IH by lia. f_equal. f_equal. lia.
Qed.

Ltac same_slot :=
  match goal with
  | |- Some (nth ?a _ _) = Some (nth ?b _ _) =>
      replace a with b by lia; reflexivity
  end.

Lemma preset_inner (preset : list Z) (xs : list Z) (row : list (option Z))
    (idx : Z) :
  0 <= idx -> (Z.to_nat idx + length xs <= length preset)%nat ->
  for_each xs (fun (_ : Z) '(row, idx) =>
                 v <- getitem preset idx ;; Ok (row ++ [Some v], idx + 1))
    (row, idx)
  = Ok (row ++ map (fun j => Some (nth (Z.to_nat idx + j) preset 0))
                 (seq 0 (length xs)),
        idx + Z.of_nat (length xs)).
Proof.
  revert row idx. induction xs as [|x xs IH]; intros row idx Hidx Hlen.
  - cbn. rewrite app_nil_r. do 2 f_equal. lia.
  - cbn [for_each length] in *.
    rewrite (getitem_nth preset idx 0) by lia. cbn [bind].
    rewrite IH by lia. cbn [seq map]. rewrite map_seq_shift, <- app_assoc. cbn [app].
    replace (idx + Z.of_nat (S (length xs))) with (idx + 1 + Z.of_nat (length xs))
      by lia.
    rewrite Nat.add_0_r. do 4 f_equal.
    apply map_ext. intros j. same_slot.
Qed.

Lemma preset_outer (preset : list Z) (m : Z) (xs : list Z) (grid : Grid) (idx : Z) :
  0 <= idx ->
  (Z.to_nat idx + length xs * Z.to_nat m <= length preset)%nat ->
  for_each xs (fun (_ : Z) '(grid, idx) =>
       res_row <- for_each (range m) (fun (_ : Z) '(row, idx) =>
                    v <- getitem preset idx ;;
                    Ok (row ++ [Some v], idx + 1)) ([], idx) ;;
       let '(row, idx) := res_row in
       Ok (grid ++ [row], idx)) (grid, idx)
  = Ok (grid ++ map (fun k => map (fun j =>
                       Some (nth (Z.to_nat idx + k * Z.to_nat m + j) preset 0))
                     (seq 0 (Z.to_nat m)))
                 (seq 0 (length xs)),
        idx + Z.of_nat (length xs) * Z.of_nat (Z.to_nat m)).
Proof.
  revert grid idx. induction xs as [|x xs IH]; intros grid idx Hidx Hlen.
  - cbn. rewrite app_nil_r. do 2 f_equal. lia.
  - cbn [for_each length] in *.
    rewrite preset_inner by (rewrite ?length_range; lia).
    cbn [bind app]. rewrite length_range.
    rewrite IH by lia. cbn [seq map]. rewrite map_seq_shift, <- app_assoc. cbn [app].
    replace (idx + Z.of_nat (S (length xs)) * Z.of_nat (Z.to_nat m))
      with (idx + Z.of_nat (Z.to_nat m)
            + Z.of_nat (length xs) * Z.of_nat (Z.to_nat m)) by lia.
    do 3 f_equal. f_equal.
    + apply map_ext. intros j. same_slot.
    + apply map_ext. intros k. apply map_ext. intros j. same_slot.
Qed.

Section Construction.
Context {R : PyRandom}.

Lemma length_comprehension {A : Type} (e : rng -> A * rng) (n : nat) (g : rng) :
  length (fst (comprehension n e g)) = n.
Proof.
  revert g. induction n as [|n IH]; intros g; cbn; [reflexivity|].
  destruct (e g) as [x g1]. specialize (IH g1).
  destruct (comprehension n e g1) as [xs g2]. cbn in *. now rewrite IH.
Qed.

Lemma Forall_comprehension {A : Type} (P : A -> Prop) (e : rng -> A * rng)
    (n : nat) (g : rng) :
  (forall g', P (fst (e g'))) -> Forall P (fst (comprehension n e g)).
Proof.
  intros He. revert g. induction n as [|n IH]; intros g; cbn; [constructor|].
  pose proof (He g) as Hx. destruct (e g) as [x g1]. specialize (IH g1).
  destruct (comprehension n e g1) as [xs g2]. cbn in *. now constructor.
Qed.

Lemma preset_rows_spec (sz : Z) (preset : list Z) :
  Z.of_nat (length preset) = sz * sz ->
  preset_rows sz preset = Ok (preset_grid sz preset).
Proof.
  intros Hlen. unfold preset_rows.
  rewrite (preset_outer preset sz (range sz) [] 0);
    [|lia|rewrite length_range; cbn; nia].
  cbn [bind fst app]. rewrite length_range. reflexivity.
Qed.

Lemma well_formed_preset (sz : Z) (rnd : rng) (preset : list Z) :
  well_formed {| size := sz; random := rnd; board := preset_grid sz preset;
                 last_removed_pos := None |} = true.
Proof.
  apply well_formed_iff. cbn. unfold preset_grid. split.
  - now rewrite length_map, length_seq.
  - intros k row Hk.
    apply list_elem_of_lookup_2, list_elem_of_In, in_map_iff in Hk as (r & <- & _).
    now rewrite length_map, length_seq.
Qed.

Lemma cell_preset (sz : Z) (preset : list Z) (r c : Z) :
  0 <= r < sz -> 0 <= c < sz ->
  cell (preset_grid sz preset) r c = Some (nth (Z.to_nat (r * sz + c)) preset 0).
Proof.
  intros Hr Hc. unfold cell, preset_grid.
  rewrite lookup_map_seq by lia. rewrite lookup_map_seq by lia.
  do 2 f_equal. nia.
Qed.

(** What [BoardManager(...)] does, case by case. *)
Lemma BoardManager_init_preset (sz : Z) (seed : option Z) (preset : list Z)
    (os : entropy) :
  BoardManager_init sz seed (Some preset) os
  = if Z.of_nat (length preset) =? sz * sz
    then Ok {| size := sz; random := Random seed os;
               board := preset_grid sz preset; last_removed_pos := None |}
    else Raise (ValueError "Preset board length != expected").
Proof.
  unfold BoardManager_init, _init_board.
  destruct (Z.eqb_spec (Z.of_nat (length preset)) (sz * sz)) as [Hlen|Hlen]; cbn.
  - now rewrite (preset_rows_spec sz preset Hlen).
  - reflexivity.
Qed.

Lemma BoardManager_init_random (sz : Z) (seed : option Z) (os : entropy) :
  exists b,
    BoardManager_init sz seed None os = Ok b
    /\ size b = sz /\ last_removed_pos b = None /\ well_formed b = true
    /\ Forall (Forall (fun x => exists v, x = Some v /\ 1 <= v <= 9)) (board b).
Proof.
  unfold BoardManager_init, _init_board. cbn [bind].
  eexists. split; [reflexivity|]. cbn [size board last_removed_pos].
  split; [reflexivity|]. split; [reflexivity|]. split.
  - apply well_formed_iff. cbn [size board]. split.
    + apply length_comprehension.
    + intros k row Hk. pose proof (Forall_comprehension
        (fun row : list (option Z) => length row = Z.to_nat sz)
        (comprehension (Z.to_nat sz)
           (fun g => let (v, g') := randint 1 9 g in (Some v, g')))
        (Z.to_nat sz) (Random seed os)) as Hall.
      rewrite Forall_forall in Hall. apply Hall.
      * intros g'. apply length_comprehension.
      * eapply list_elem_of_lookup_2. exact Hk.
  - apply Forall_comprehension. intros g. apply Forall_comprehension. intros g'.
    pose proof (randint_range 1 9 g' ltac:(lia)) as Hv.
    destruct (randint 1 9 g') as [v g'']. cbn in *. eauto.
Qed.

Lemma BoardManager_init_shape (sz : Z) (seed : option Z)
    (preset : option (list Z)) (os : entropy) (b : BoardManager) :
  BoardManager_init sz seed preset os = Ok b ->
  well_formed b = true /\ size b = sz /\ last_removed_pos b = None.
Proof.
  destruct preset as [preset|].
  - rewrite BoardManager_init_preset.
    destruct (Z.of_nat (length preset) =? sz * sz); [|discriminate].
    intros [= <-]. split; [apply well_formed_preset|]. split; reflexivity.
  - destruct (BoardManager_init_random sz seed os) as (b' & -> & Hs & Hl & Hwf & _).
    intros [= <-]. auto.
Qed.

End Construction.

Section ConstructionClaims.
Context {R : PyRandom}.

(** C7. Two constructions with the same size and the same integer seed, and
    no preset, give the same grid cell by cell, whatever entropy the
    operating system holds at either construction. *)
Theorem seeded_construction_deterministic (sz seed : Z) (os1 os2 : entropy) :
  exists b1 b2 : BoardManager,
    BoardManager_init sz (Some seed) None os1 = Ok b1
    /\ BoardManager_init sz (Some seed) None os2 = Ok b2
    /\ board b1 = board b2
    /\ (forall r c, get_value b1 (r, c) = get_value b2 (r, c))
    /\ b1 = b2.
Proof.
  unfold BoardManager_init, _init_board, Random. cbn [bind].
  eexists. eexists. split; [reflexivity|]. split; [reflexivity|].
  split; [reflexivity|]. split; [intros r c|]; reflexivity.
Qed.

(** What [BoardManager] checks when it builds a board: with a preset it
    raises [ValueError] exactly when the length of the preset differs from
    [size*size], and otherwise builds the board, whatever the size; without
    a preset it never fails. *)
Theorem construction_checks_preset_length_only (sz : Z) (seed : option Z)
    (os : entropy) :
  (forall preset : list Z,
     BoardManager_init sz seed (Some preset) os
     = if Z.of_nat (length preset) =? sz * sz
       then Ok {| size := sz; random := Random seed os;
                  board := preset_grid sz preset; last_removed_pos := None |}
       else Raise (ValueError "Preset board length != expected"))
  /\ (exists b, BoardManager_init sz seed None os = Ok b /\ size b = sz).
Proof.
  split.
  - intros preset. apply BoardManager_init_preset.
  - destruct (BoardManager_init_random sz seed os) as (b & Hb & Hs & _).
    exists b. split; assumption.
Qed.

(** C10. For a size of at least 1 and a preset of exactly [size*size]
    integers, construction succeeds and the cell at [(r, c)] holds
    [preset[r*size + c]] as given: a preset board can hold 0, negative values
    or values above 9.  A randomly generated board holds values from 1 to 9
    only. *)
Theorem preset_values_stored_verbatim :
  (forall (sz : Z) (seed : option Z) (preset : list Z) (os : entropy),
     1 <= sz -> Z.of_nat (length preset) = sz * sz ->
     exists b,
       BoardManager_init sz seed (Some preset) os = Ok b
       /\ (forall r c, in_bounds b (r, c) = true ->
             get_value b (r, c) = Ok (Some (nth (Z.to_nat (r * sz + c)) preset 0))))
  /\ (forall os : entropy,
        exists b,
          BoardManager_init 2 None (Some [0; -3; 12; 4]) os = Ok b
          /\ get_value b (0, 0) = Ok (Some 0)
          /\ get_value b (0, 1) = Ok (Some (-3))
          /\ get_value b (1, 0) = Ok (Some 12))
  /\ (forall (sz : Z) (seed : option Z) (os : entropy),
        exists b,
          BoardManager_init sz seed None os = Ok b
          /\ (forall r c, in_bounds b (r, c) = true ->
                exists v, get_value b (r, c) = Ok (Some v) /\ 1 <= v <= 9)).
Proof.
  split; [|split].
  - intros sz seed preset os Hsz Hlen.
    rewrite BoardManager_init_preset.
    destruct (Z.eqb_spec (Z.of_nat (length preset)) (sz * sz)); [|contradiction].
    eexists. split; [reflexivity|]. intros r c Hin.
    rewrite get_value_spec; [|apply well_formed_preset|exact Hin].
    apply in_bounds_iff in Hin as [Hr Hc]. cbn [board fst snd size] in *.
    now rewrite cell_preset.
  - intros os. eexists. split; [reflexivity|]. repeat split; reflexivity.
  - intros sz seed os.
    destruct (BoardManager_init_random sz seed os) as (b & Hb & Hs & _ & Hwf & Hall).
    exists b. split; [exact Hb|]. intros r c Hin.
    rewrite (get_value_spec b (r, c) Hwf Hin). cbn [fst snd].
    apply in_bounds_iff in Hin as [Hr Hc].
    destruct (well_formed_row b r Hwf Hr) as (row & Hrow & Hlen).
    destruct (lookup_lt_is_Some_2 row (Z.to_nat c)) as [x Hx]; [lia|].
    unfold cell. rewrite Hrow, Hx.
    rewrite Forall_forall in Hall.
    pose proof (Hall row (list_elem_of_lookup_2 _ _ _ Hrow)) as Hcells.
    rewrite Forall_forall in Hcells.
    destruct (Hcells x (list_elem_of_lookup_2 _ _ _ Hx)) as (v & -> & Hv).
    exists v. split; [reflexivity | exact Hv].
Qed.

End ConstructionClaims.

(** ** Counting the cells left *)

Lemma sorted_NoDup (l : list Position) : StronglySorted pos_lt l -> List.NoDup l.
Proof.
  induction 1 as [|x l Hs IH Hall]; constructor; [|exact IH].
  intros Hx. rewrite Forall_forall in Hall.
  specialize (Hall x (proj2 (list_elem_of_In _ _) Hx)).
  unfold pos_lt in Hall. lia.
Qed.

Lemma length_flat_map_le {A B : Type} (f : A -> list B) (l : list A) (k : nat) :
  (forall x, length (f x) <= k)%nat -> (length (flat_map f l) <= length l * k)%nat.
Proof.
  intros Hf. induction l as [|x l IH]; cbn; [lia|].
  rewrite length_app. specialize (Hf x). lia.
Qed.

Lemma length_list_filter_le {A : Type} (P : A -> bool) (l : list A) :
  (length (List.filter P l) <= length l)%nat.
Proof. induction l as [|x l IH]; cbn; [lia|]. destruct (P x); cbn; lia. Qed.

Section Remaining.
Context {R : PyRandom}.

Lemma remaining_bound (b : BoardManager) :
  Z.of_nat (remaining b) <= size b * size b.
Proof.
  assert (Hle : (remaining b <= Z.to_nat (size b) * Z.to_nat (size b))%nat).
  { unfold remaining, row_major.
    rewrite <- (length_range (size b)) at 1.
    apply length_flat_map_le. intros r. rewrite length_map.
    etransitivity; [apply length_list_filter_le|]. now rewrite length_range. }
  revert Hle. generalize (remaining b). intros len Hle.
  apply Nat2Z.inj_le in Hle. rewrite Nat2Z.inj_mul in Hle.
  destruct (Z.le_gt_cases 0 (size b)) as [Hpos|Hneg].
  - rewrite Z2Nat.id in Hle by exact Hpos. exact Hle.
  - assert (Hz : Z.to_nat (size b) = 0%nat) by lia.
    rewrite Hz in Hle. cbn in Hle.
    pose proof (Z.square_nonneg (size b)). lia.
Qed.

Lemma available_removed (b : BoardManager) (p q : Position) :
  well_formed b = true -> in_bounds b p = true ->
  available (removed b p) q = true <-> available b q = true /\ q <> p.
Proof.
  intros Hwf Hp. unfold available. change (in_bounds (removed b p) q) with (in_bounds b q).
  destruct (in_bounds b q) eqn:Hq; cbn [andb];
    [|split; [discriminate | intros [? _]; discriminate]].
  destruct (decide (q = p)) as [->|Hne].
  - destruct p as [r c]. cbn [removed board fst snd]. rewrite cell_put_eq by assumption.
    cbn. split; [discriminate | intros [_ ?]; contradiction].
  - destruct p as [r c], q as [r' c']. cbn [removed board fst snd].
    apply in_bounds_iff in Hp as [? ?]. apply in_bounds_iff in Hq as [? ?].
    rewrite cell_put_ne by (lia || exact Hne). tauto.
Qed.

(** A removal takes exactly one cell off the board. *)
Lemma remaining_removed (b : BoardManager) (p : Position) :
  well_formed b = true -> available b p = true ->
  S (remaining (removed b p)) = remaining b.
Proof.
  intros Hwf Hav. pose proof (available_in_bounds b p Hav) as Hin.
  unfold remaining. change (S (length (row_major (removed b p))))
    with (length (p :: row_major (removed b p))).
  apply Permutation.Permutation_length, Permutation.NoDup_Permutation.
  - constructor; [|apply sorted_NoDup, row_major_sorted].
    rewrite in_row_major, (available_removed b p p Hwf Hin). tauto.
  - apply sorted_NoDup, row_major_sorted.
  - intros q. cbn [In]. rewrite !in_row_major, (available_removed b p q Hwf Hin).
    destruct (decide (q = p)) as [->|Hne]; [tauto|]. split.
    + intros [Heq|[? _]]; [congruence | assumption].
    + intros Hq. right. split; assumption.
Qed.

Lemma remove_and_get_removed (b : BoardManager) (pos : Position) :
  well_formed b = true -> available b pos = true ->
  exists v, remove_and_get pos b = (Ok v, removed b pos).
Proof.
  intros Hwf Hav.
  destruct (remove_and_get_available b pos Hwf Hav) as (v & _ & Hrun).
  exists v. exact Hrun.
Qed.

Lemma well_formed_removed (b : BoardManager) (pos : Position) :
  well_formed b = true -> well_formed (removed b pos) = true.
Proof. intros Hwf. unfold removed. now apply well_formed_put. Qed.

End Remaining.

(** ** Reachable boards have the constructed shape *)

Section Reachable.
Context {R : PyRandom}.

Lemma reachable_well_formed (b : BoardManager) :
  reachable b -> well_formed b = true.
Proof.
  induction 1 as [sz seed preset os b Hinit|b b' pos v Hreach IH Hrun].
  - now apply BoardManager_init_shape in Hinit as [Hwf _].
  - destruct (available b pos) eqn:Hav.
    + destruct (remove_and_get_removed b pos IH Hav) as (v' & Hrun').
      rewrite Hrun' in Hrun. injection Hrun as _ <-.
      now apply well_formed_removed.
    + rewrite (remove_and_get_unavailable b pos IH Hav) in Hrun. discriminate.
Qed.

End Reachable.

(** ** The turn loop *)

Section TurnLoop.
Context {R : PyRandom}.

Lemma greedy_sound : sound_strategy strategy_greedy_maximize.
Proof.
  intros b last Hwf Hlast Hne.
  destruct (greedy_selects b last Hwf Hlast Hne) as (p & Hrun & Hfm).
  exists p. split; [exact Hrun | eapply first_max_in; exact Hfm].
Qed.

Lemma future_min_sound : sound_strategy strategy_maximize_future_min.
Proof.
  intros b last Hwf Hlast Hne.
  destruct (future_min_selects b last Hwf Hlast Hne) as (p & Hrun & Hfm).
  exists p. split; [exact Hrun | eapply first_max_in; exact Hfm].
Qed.

Lemma opponent_options_sound : sound_strategy strategy_minimize_opponent_options.
Proof.
  intros b last Hwf Hlast Hne.
  destruct (opponent_options_selects b last Hwf Hlast Hne) as (p & Hrun & Hfm).
  exists p. split; [exact Hrun | eapply first_max_in; exact Hfm].
Qed.

Lemma high_value_sound : sound_strategy strategy_high_value_preservation.
Proof.
  intros b last Hwf Hlast Hne.
  destruct (high_value_selects b last Hwf Hlast Hne) as (p & Hrun & Hfm).
  exists p. split; [exact Hrun | eapply first_max_in; exact Hfm].
Qed.

Lemma get_strategy_sound (name : string) (f : StrategyFunc) :
  get_strategy name = Ok f -> sound_strategy f.
Proof.
  unfold get_strategy.
  destruct (String.eqb name "Greedy"); [intros [= <-]; apply greedy_sound|].
  destruct (String.eqb name "MaximizeFutureMin");
    [intros [= <-]; apply future_min_sound|].
  destruct (String.eqb name "MinimizeOpponentOptions");
    [intros [= <-]; apply opponent_options_sound|].
  destruct (String.eqb name "PreserveHighValues");
    [intros [= <-]; apply high_value_sound | discriminate].
Qed.

Lemma controller_for_good (config : GameConfig) (mode player : string)
    (c : PlayerController) :
  controller_for config mode player = Ok c ->
  good_controller c
  /\ (String.eqb mode "C_VS_C" = true -> is_human c = false).
Proof.
  unfold controller_for.
  destruct (String.eqb_spec mode "H_VS_H") as [->|_].
  { intros [= <-]. split; [now left | discriminate]. }
  destruct (String.eqb_spec mode "H_VS_C") as [->|_].
  { destruct (String.eqb player "A").
    - intros [= <-]. split; [now left | discriminate].
    - destruct (str_falsy (cfg_b_strategy config)); [discriminate|].
      destruct (get_strategy _) as [f|] eqn:Hf; [|discriminate].
      intros [= <-]. split; [|discriminate].
      right. exists f. split; [reflexivity | eapply get_strategy_sound; exact Hf]. }
  destruct (String.eqb mode "C_VS_C"); [|discriminate].
  destruct (str_falsy (cfg_a_strategy config) || str_falsy (cfg_b_strategy config));
    [discriminate|].
  destruct (get_strategy _) as [f|] eqn:Hf; [|discriminate].
  intros [= <-]. split; [|reflexivity].
  right. exists f. split; [reflexivity | eapply get_strategy_sound; exact Hf].
Qed.

(** A human turn yields a legal position, or ends the session at the prompt. *)
Lemma human_move_legal (b : BoardManager) (last : option Position)
    (input : list line) :
  well_formed b = true -> on_board b last = true ->
  match fst (human_move b last input) with
  | Ok pos => In pos (legal_set b last)
  | Raise e => is_interrupt e = true
  end.
Proof.
  intros Hwf Hlast. induction input as [|l rest IH]; cbn [human_move]; [reflexivity|].
  destruct l as [| |[pos|]]; cbn [_guarded_input _parse_move_input fst];
    try reflexivity; try exact IH.
  destruct (in_bounds b pos) eqn:Hin; cbn [negb]; [|exact IH].
  rewrite (is_available_spec b pos Hwf).
  destruct (available b pos) eqn:Hav; [|exact IH].
  destruct last as [[r0 c0]|]; cbn [legal_set].
  - destruct ((fst pos =? r0) || (snd pos =? c0)) eqn:Hshare; cbn [negb fst];
      [|exact IH].
    apply (in_row_then_column b (r0, c0) pos Hlast). split; [exact Hav|].
    cbn [fst snd]. apply orb_true_iff in Hshare. lia.
  - cbn [fst]. now apply in_row_major.
Qed.

Lemma turn_loop_ends (ctrl_A ctrl_B : PlayerController) :
  good_controller ctrl_A -> good_controller ctrl_B ->
  forall (fuel : nat) (st : GameState),
    well_formed (gs_board st) = true ->
    on_board (gs_board st) (last_pos st) = true ->
    (remaining (gs_board st) < fuel)%nat ->
    exists e st',
      turn_loop fuel ctrl_A ctrl_B st = (e, st')
      /\ size (gs_board st') = size (gs_board st)
      /\ round_num st'
         = round_num st + Z.of_nat (remaining (gs_board st))
           - Z.of_nat (remaining (gs_board st'))
      /\ (remaining (gs_board st') <= remaining (gs_board st))%nat
      /\ ((e = GameOver
           /\ legal_positions (gs_board st') (last_pos st') = Ok [])
          \/ (exists x, e = Raised x /\ is_interrupt x = true
                        /\ is_human ctrl_A || is_human ctrl_B = true
                        /\ legal_set (gs_board st') (last_pos st') <> [])).
Proof.
  intros HA HB. induction fuel as [|fuel IH]; intros st Hwf Hlast Hfuel; [lia|].
  cbn [turn_loop].
  pose proof (legal_positions_spec _ _ Hwf Hlast) as Hlegal. rewrite Hlegal.
  destruct (legal_set (gs_board st) (last_pos st)) as [|q0 qs] eqn:Hset.
  { exists GameOver, st. split; [reflexivity|]. split; [reflexivity|].
    split; [lia|]. split; [lia|]. left. split; [reflexivity | exact Hlegal]. }
  assert (Hne : legal_set (gs_board st) (last_pos st) <> []) by (rewrite Hset; discriminate).
  (* a legal position is played: one cell goes, the loop continues *)
  assert (Hplay : forall pos input1,
    In pos (legal_set (gs_board st) (last_pos st)) ->
    exists e st',
      (let (r, b2) := remove_and_get pos (gs_board st) in
       match r with
       | Ok val_now =>
           turn_loop fuel ctrl_A ctrl_B
             {| gs_board := b2;
                a_score := if String.eqb (current st) "A"
                           then a_score st + val_now else a_score st;
                b_score := if String.eqb (current st) "A"
                           then b_score st else b_score st + val_now;
                round_num := round_num st + 1;
                last_pos := Some pos;
                current := if String.eqb (current st) "B"
                           then "A"%string else "B"%string;
                stdin := input1 |}
       | Raise e0 =>
           (Raised e0,
            {| gs_board := b2; a_score := a_score st; b_score := b_score st;
               round_num := round_num st; last_pos := last_pos st;
               current := current st; stdin := input1 |})
       end) = (e, st')
      /\ size (gs_board st') = size (gs_board st)
      /\ round_num st'
         = round_num st + Z.of_nat (remaining (gs_board st))
           - Z.of_nat (remaining (gs_board st'))
      /\ (remaining (gs_board st') <= remaining (gs_board st))%nat
      /\ ((e = GameOver
           /\ legal_positions (gs_board st') (last_pos st') = Ok [])
          \/ (exists x, e = Raised x /\ is_interrupt x = true
                        /\ is_human ctrl_A || is_human ctrl_B = true
                        /\ legal_set (gs_board st') (last_pos st') <> []))).
  { intros pos input1 Hpos.
    pose proof (legal_set_available _ _ _ Hlast Hpos) as Hav.
    destruct (remove_and_get_removed (gs_board st) pos Hwf Hav) as (v & Hrun).
    rewrite Hrun.
    pose proof (remaining_removed (gs_board st) pos Hwf Hav) as Hrem.
    pose proof (well_formed_removed (gs_board st) pos Hwf) as Hwf'.
    assert (Hlast' : on_board (removed (gs_board st) pos) (Some pos) = true)
      by (change (in_bounds (gs_board st) pos = true);
          now apply available_in_bounds).
    assert (Hfuel' : (remaining (removed (gs_board st) pos) < fuel)%nat) by lia.
    match goal with
    | |- exists e st', turn_loop fuel ctrl_A ctrl_B ?s = _ /\ _ =>
        destruct (IH s Hwf' Hlast' Hfuel')
          as (e & st' & Hloop & Hsize & Hround & Hle & Hend)
    end.
    cbn [gs_board last_pos round_num] in *.
    exists e, st'. split; [exact Hloop|]. split; [exact Hsize|].
    split; [lia|]. split; [lia|]. exact Hend. }
  assert (Hc : good_controller
                 (if String.eqb (current st) "A" then ctrl_A else ctrl_B)
               /\ (is_human (if String.eqb (current st) "A" then ctrl_A else ctrl_B)
                   = true -> is_human ctrl_A || is_human ctrl_B = true)).
  { destruct (String.eqb (current st) "A"); (split; [assumption|]);
      intros ->; [reflexivity | apply orb_true_r]. }
  destruct Hc as [[Hc|(f & Hc & Hf)] Hhum]; rewrite Hc in *.
  - (* a human turn *)
    pose proof (human_move_legal (gs_board st) (last_pos st) (stdin st) Hwf Hlast) as Hm.
    change (String.eqb "human" "human") with true. cbv beta iota.
    destruct (human_move (gs_board st) (last_pos st) (stdin st)) as [[pos|x] rest];
      cbn [fst] in Hm; cbv beta iota.
    + now apply Hplay.
    + eexists. eexists. split; [reflexivity|]. cbn [gs_board last_pos round_num].
      split; [reflexivity|]. split; [lia|]. split; [lia|].
      right. exists x. split; [reflexivity|]. split; [exact Hm|].
      split; [now apply Hhum | exact Hne].
  - (* a computer turn *)
    destruct (Hf (gs_board st) (last_pos st) Hwf Hlast Hne) as (pos & Hrun & Hin).
    change (String.eqb "computer" "human") with false. cbv beta iota.
    rewrite Hrun. cbv beta iota. now apply Hplay.
Qed.

Lemma game_setup_good (config : GameConfig) (os : entropy) (input : list line)
    (ctrl_A ctrl_B : PlayerController) (st0 : GameState) :
  game_setup config os input = Ok (ctrl_A, ctrl_B, st0) ->
  good_controller ctrl_A /\ good_controller ctrl_B
  /\ well_formed (gs_board st0) = true
  /\ size (gs_board st0) = cfg_size config
  /\ last_pos st0 = None /\ round_num st0 = 0
  /\ (String.eqb (upper (str_or (cfg_mode config) "")) "C_VS_C" = true ->
      is_human ctrl_A || is_human ctrl_B = false).
Proof.
  unfold game_setup.
  destruct (BoardManager_init _ _ _ _) as [b|] eqn:Hb; [|discriminate]. cbn [bind].
  apply BoardManager_init_shape in Hb as (Hwf & Hsize & _).
  destruct (negb _); [discriminate|].
  destruct (controller_for config _ "A") as [cA|] eqn:HA; [|discriminate].
  destruct (controller_for config _ "B") as [cB|] eqn:HB; [|discriminate].
  cbn [bind]. intros [= <- <- <-]. cbn [gs_board last_pos round_num].
  apply controller_for_good in HA as [HA HAc], HB as [HB HBc].
  repeat (split; [assumption || reflexivity|]).
  intros Hmode. now rewrite (HAc Hmode), (HBc Hmode).
Qed.

End TurnLoop.

(** ** The properties on concrete boards and games *)

Lemma legal_set_exact_witness :
  well_formed board_after_opening = true
  /\ in_bounds board_after_opening (0, 0) = true
  /\ (exists l : list Position,
        get_allowed_positions board_after_opening (0, 0) = Ok l
        /\ In (2, 0) l /\ ~ In (0, 0) l /\ ~ In (1, 1) l)
  /\ exists all : list Position,
       get_all_available_positions board_after_opening = Ok all
       /\ StronglySorted pos_lt all
       /\ (forall p, In p all
                     <-> in_bounds board_after_opening p = true
                         /\ exists v, get_value board_after_opening p = Ok (Some v)).
Proof.
  split; [reflexivity|]. split; [reflexivity|].
  destruct (legal_set_exact board_after_opening eq_refl) as [Hsome Hnone].
  split.
  - destruct (Hsome (0, 0) eq_refl)
      as (cols & rows & Hrun & _ & _ & _ & _ & _ & Hmem).
    eexists. split; [exact Hrun|]. split; [|split].
    + apply Hmem. split; [reflexivity|].
      split; [exists 7; reflexivity | right; reflexivity].
    + intros Hin. apply Hmem in Hin as (_ & (v & Hv) & _). discriminate Hv.
    + intros Hin. apply Hmem in Hin as (_ & _ & [Hrow|Hcol]); discriminate.
  - destruct Hnone as (all & _ & Hall & Hsorted & _ & Hmem).
    exists all. split; [exact Hall|]. split; [exact Hsorted | exact Hmem].
Defined.

Lemma strategies_leave_board_unchanged_witness :
  well_formed board_after_opening = true
  /\ on_board board_after_opening (Some (0, 0)) = true
  /\ legal_positions board_after_opening (Some (0, 0))
     = Ok [(0, 1); (0, 2); (1, 0); (2, 0)]
  /\ exists p,
       strategy_high_value_preservation board_after_opening (Some (0, 0))
       = (Ok (Some p), board_after_opening).
Proof.
  split; [reflexivity|]. split; [reflexivity|]. split; [reflexivity|].
  pose proof (strategies_leave_board_unchanged board_after_opening (Some (0, 0))
                [(0, 1); (0, 2); (1, 0); (2, 0)] eq_refl eq_refl eq_refl
                ltac:(discriminate)) as Hall.
  apply Forall_cons in Hall as [_ Hall]. apply Forall_cons in Hall as [_ Hall].
  apply Forall_cons in Hall as [_ Hall]. apply Forall_cons in Hall as [Hlast _].
  destruct Hlast as (p & b' & Hrun & _ & -> & _). exists p. exact Hrun.
Defined.

Lemma remove_and_get_contract_witness :
  well_formed board_after_opening = true
  /\ is_available board_after_opening (2, 0) = Ok true
  /\ exists v b',
       remove_and_get (2, 0) board_after_opening = (Ok v, b')
       /\ get_value board_after_opening (2, 0) = Ok (Some v)
       /\ is_available b' (2, 0) = Ok false
       /\ last_removed_pos b' = Some (2, 0).
Proof.
  split; [reflexivity|]. split; [reflexivity|].
  destruct (remove_and_get_contract board_after_opening (2, 0) eq_refl)
    as (_ & _ & Hok).
  destruct (Hok eq_refl) as (v & b' & Hrun & Hval & Hgone & _ & Hlast & _).
  exists v, b'. split; [exact Hrun|]. split; [exact Hval|].
  split; [exact Hgone | exact Hlast].
Defined.

Lemma future_min_choice_witness :
  well_formed board_after_opening = true
  /\ on_board board_after_opening (Some (0, 0)) = true
  /\ legal_positions board_after_opening (Some (0, 0))
     = Ok [(0, 1); (0, 2); (1, 0); (2, 0)]
  /\ exists p,
       strategy_maximize_future_min board_after_opening (Some (0, 0))
       = (Ok (Some p), board_after_opening)
       /\ first_max (key_future_min board_after_opening)
            [(0, 1); (0, 2); (1, 0); (2, 0)] p.
Proof.
  split; [reflexivity|]. split; [reflexivity|]. split; [reflexivity|].
  destruct (future_min_choice board_after_opening (Some (0, 0))
              [(0, 1); (0, 2); (1, 0); (2, 0)] eq_refl eq_refl eq_refl
              ltac:(discriminate)) as (p & Hrun & Hfm & _).
  exists p. split; [exact Hrun | exact Hfm].
Defined.

Lemma high_value_choice_witness :
  well_formed board_after_opening = true
  /\ on_board board_after_opening (Some (0, 0)) = true
  /\ legal_positions board_after_opening (Some (0, 0))
     = Ok [(0, 1); (0, 2); (1, 0); (2, 0)]
  /\ exists gm p,
       max_remaining_value board_after_opening = Ok gm
       /\ strategy_high_value_preservation board_after_opening (Some (0, 0))
          = (Ok (Some p), board_after_opening)
       /\ first_max (key_high_value gm board_after_opening)
            [(0, 1); (0, 2); (1, 0); (2, 0)] p
       /\ (forall q, In q [(0, 1); (0, 2); (1, 0); (2, 0)] ->
             exposes gm board_after_opening p < exposes gm board_after_opening q
             \/ (exposes gm board_after_opening q = exposes gm board_after_opening p
                 /\ (hits gm board_after_opening p < hits gm board_after_opening q
                     \/ (hits gm board_after_opening q = hits gm board_after_opening p
                         /\ value_of board_after_opening q
                            <= value_of board_after_opening p)))).
Proof.
  split; [reflexivity|]. split; [reflexivity|]. split; [reflexivity|].
  destruct (high_value_choice board_after_opening (Some (0, 0))
              [(0, 1); (0, 2); (1, 0); (2, 0)] eq_refl eq_refl eq_refl
              ltac:(discriminate)) as (gm & p & Hgm & _ & Hrun & Hfm & Hmax & _).
  exists gm, p. split; [exact Hgm|]. split; [exact Hrun|].
  split; [exact Hfm | exact Hmax].
Defined.

Lemma greedy_choice_witness :
  well_formed board_after_opening = true
  /\ on_board board_after_opening (Some (0, 0)) = true
  /\ legal_positions board_after_opening (Some (0, 0))
     = Ok [(0, 1); (0, 2); (1, 0); (2, 0)]
  /\ exists p,
       strategy_greedy_maximize board_after_opening (Some (0, 0))
       = (Ok (Some p), board_after_opening)
       /\ forall q, In q [(0, 1); (0, 2); (1, 0); (2, 0)] ->
            value_of board_after_opening q <= value_of board_after_opening p.
Proof.
  split; [reflexivity|]. split; [reflexivity|]. split; [reflexivity|].
  destruct (proj1 (greedy_choice (R := lcg)) board_after_opening (Some (0, 0))
              [(0, 1); (0, 2); (1, 0); (2, 0)] eq_refl eq_refl eq_refl
              ltac:(discriminate)) as (p & i & Hrun & _ & Hmax & _).
  exists p. split; [exact Hrun|]. intros q Hq. exact (proj2 (Hmax q Hq)).
Defined.

Lemma preset_values_stored_verbatim_witness :
  1 <= 2
  /\ Z.of_nat (length [0; -3; 12; 4]) = 2 * 2
  /\ exists b : @BoardManager lcg,
       BoardManager_init (R := lcg) 2 None (Some [0; -3; 12; 4]) 0 = Ok b
       /\ (forall r c, in_bounds b (r, c) = true ->
             get_value b (r, c)
             = Ok (Some (nth (Z.to_nat (r * 2 + c)) [0; -3; 12; 4] 0))).
Proof.
  split; [lia|]. split; [reflexivity|].
  apply (proj1 (preset_values_stored_verbatim (R := lcg)) 2 None [0; -3; 12; 4] 0);
    [lia | reflexivity].
Defined.

(** * Further properties of the code *)

(** ** The selector, in both directions *)

Lemma better_irrefl (reverse : bool) (k : Key) : better reverse k k = false.
Proof. destruct reverse; apply tuple_gt_irrefl. Qed.

Lemma better_asym (reverse : bool) (a b : Key) :
  better reverse a b = true -> better reverse b a = false.
Proof. destruct reverse; apply tuple_gt_asym. Qed.

(** [a] beats [b] and [c] does not beat [b]: then [a] beats [c]. *)
Lemma better_le_trans (reverse : bool) (a b c : Key) :
  better reverse a b = true -> better reverse c b = false ->
  better reverse a c = true.
Proof.
  destruct reverse; cbn; unfold tuple_lt.
  - apply tuple_gt_le_trans.
  - intros Hba Hbc. destruct (tuple_gt c b) eqn:Hcb.
    + eapply tuple_gt_trans; eassumption.
    + now rewrite <- (tuple_gt_total _ _ Hbc Hcb).
Qed.

Section SelectorBothWays.
Context {R : PyRandom}.

Lemma first_best_single (reverse : bool) (key : Position -> Key) (x : Position) :
  first_best reverse key [x] x.
Proof.
  exists 0%nat. split; [reflexivity|]. split.
  - intros q [<-|[]]. apply better_irrefl.
  - intros j q Hj. lia.
Qed.

Lemma first_best_snoc (reverse : bool) (key : Position -> Key)
    (pre : list Position) (p x : Position) :
  first_best reverse key pre p ->
  first_best reverse key (pre ++ [x])
    (if better reverse (key x) (key p) then x else p).
Proof.
  intros (i & Hi & Hmax & Hfirst).
  pose proof (lookup_lt_Some _ _ _ Hi) as Hlen.
  destruct (better reverse (key x) (key p)) eqn:Hgt.
  - exists (length pre). split; [|split].
    + rewrite lookup_app_r by lia. now rewrite Nat.sub_diag.
    + intros q [Hq|[<-|[]]]%in_app_iff; [|apply better_irrefl].
      apply better_asym. eapply better_le_trans; [exact Hgt|]. now apply Hmax.
    + intros j q Hj Hq. rewrite lookup_app_l in Hq by exact Hj.
      eapply better_le_trans; [exact Hgt|]. apply Hmax.
      apply list_elem_of_In. eapply list_elem_of_lookup_2. exact Hq.
  - exists i. split; [|split].
    + rewrite lookup_app_l by exact Hlen. exact Hi.
    + intros q [Hq|[<-|[]]]%in_app_iff; [now apply Hmax | exact Hgt].
    + intros j q Hj Hq. rewrite lookup_app_l in Hq by lia. eapply Hfirst; eassumption.
Qed.

Lemma best_loop_both_ways (reverse : bool) (key : Position -> Key)
    (key_fn : Position -> Cmd Key) (b : BoardManager)
    (cands pre : list Position) (p : Position) :
  (forall q, In q cands -> key_fn q b = (Ok (key q), b)) ->
  first_best reverse key pre p ->
  exists p',
    cfor_each cands (fun pos (best : option Position * option Key) =>
       cbind (key_fn pos) (fun k =>
         match snd best with
         | None => cret (Some pos, Some k)
         | Some best_key =>
             if (if reverse then tuple_gt k best_key else tuple_lt k best_key)
             then cret (Some pos, Some k) else cret best
         end)) (Some p, Some (key p)) b
    = (Ok (Some p', Some (key p')), b)
    /\ first_best reverse key (pre ++ cands) p'.
Proof.
  revert pre p. induction cands as [|x xs IH]; intros pre p Hkey Hfm.
  - exists p. rewrite app_nil_r. split; [reflexivity | exact Hfm].
  - pose proof (first_best_snoc reverse key pre p x Hfm) as Hstep.
    cbn [cfor_each]. unfold cbind at 1. unfold cbind at 1.
    rewrite (Hkey x) by (left; reflexivity). cbn [snd].
    assert (Hxs : forall q, In q xs -> key_fn q b = (Ok (key q), b)).
    { intros q Hq. apply Hkey. right. exact Hq. }
    change (if reverse then tuple_gt (key x) (key p) else tuple_lt (key x) (key p))
      with (better reverse (key x) (key p)).
    destruct (better reverse (key x) (key p)); unfold cret at 1;
      [destruct (IH (pre ++ [x]) x Hxs Hstep) as (p' & Hrun & Hfm')
      |destruct (IH (pre ++ [x]) p Hxs Hstep) as (p' & Hrun & Hfm')];
      exists p'; rewrite <- app_assoc in Hfm'; (split; [exact Hrun | exact Hfm']).
Qed.

Lemma first_best_unique (reverse : bool) (key : Position -> Key)
    (l : list Position) (p q : Position) :
  first_best reverse key l p -> first_best reverse key l q -> p = q.
Proof.
  intros (i & Hi & Hpmax & Hpfirst) (j & Hj & Hqmax & Hqfirst).
  destruct (Nat.lt_trichotomy i j) as [Hlt|[->|Hlt]].
  - pose proof (Hqfirst i p Hlt Hi) as Hbeat.
    rewrite (Hpmax q) in Hbeat; [discriminate|].
    apply list_elem_of_In. eapply list_elem_of_lookup_2. exact Hj.
  - congruence.
  - pose proof (Hpfirst j q Hlt Hj) as Hbeat.
    rewrite (Hqmax p) in Hbeat; [discriminate|].
    apply list_elem_of_In. eapply list_elem_of_lookup_2. exact Hi.
Qed.

(** X1. [_best_by_key] returns [None] for an empty candidate list.  For a
    non-empty list and a key function that leaves the board as it found it,
    it returns the first candidate that no candidate beats, where "beats" is
    [>] on keys when [reverse] is set and [<] otherwise; that candidate is
    the only one with this property, and the board is unchanged. *)
Theorem best_by_key_both_ways (reverse : bool) (key : Position -> Key)
    (key_fn : Position -> Cmd Key) (b : BoardManager) (cands : list Position) :
  (forall q, In q cands -> key_fn q b = (Ok (key q), b)) ->
  _best_by_key [] key_fn reverse b = (Ok None, b)
  /\ (cands <> [] ->
      exists p,
        _best_by_key cands key_fn reverse b = (Ok (Some p), b)
        /\ first_best reverse key cands p
        /\ (forall p', first_best reverse key cands p' -> p' = p)).
Proof.
  intros Hkey. split; [reflexivity|]. intros Hne.
  destruct cands as [|x xs]; [contradiction|].
  assert (Hxs : forall q, In q xs -> key_fn q b = (Ok (key q), b)).
  { intros q Hq. apply Hkey. right. exact Hq. }
  destruct (best_loop_both_ways reverse key key_fn b xs [x] x Hxs
              (first_best_single reverse key x)) as (p & Hrun & Hfm).
  exists p. split; [|split; [exact Hfm|]].
  - unfold _best_by_key. cbn [cfor_each]. unfold cbind at 1. unfold cbind at 1.
    unfold cbind at 1. rewrite (Hkey x) by (left; reflexivity). cbn [snd].
    unfold cret at 1. cbn [snd] in Hrun |- *.
    unfold cbind in Hrun |- *. cbn in Hrun |- *. rewrite Hrun. reflexivity.
  - intros p' Hp'. eapply first_best_unique; eassumption.
Qed.

End SelectorBothWays.

(** ** More on the strategies *)

Section MoreStrategies.
Context {R : PyRandom}.

(** X2. [strategy_minimize_opponent_options] leaves the board as it was and
    returns the first legal candidate whose key (minus the number of replies
    the opponent has on the board with the candidate removed, then the
    immediate value) is maximal: no candidate leaves fewer replies, and among
    those leaving as few none holds more. *)
Theorem opponent_options_choice (b : BoardManager) (last : option Position)
    (allowed : list Position) :
  well_formed b = true -> on_board b last = true ->
  legal_positions b last = Ok allowed -> allowed <> [] ->
  exists p,
    strategy_minimize_opponent_options b last = (Ok (Some p), b)
    /\ first_max (key_opponent_options b) allowed p
    /\ (forall q, In q allowed ->
          get_allowed_positions (simulate b q) q = Ok (replies b q)
          /\ ((length (replies b p) < length (replies b q))%nat
              \/ (length (replies b p) = length (replies b q)
                  /\ value_of b q <= value_of b p))).
Proof.
  intros Hwf Hlast Hlegal Hne.
  pose proof (legal_positions_inv b last allowed Hwf Hlast Hlegal) as ->.
  destruct (opponent_options_selects b last Hwf Hlast Hne) as (p & Hrun & Hfm).
  exists p. split; [exact Hrun|]. split; [exact Hfm|].
  intros q Hq. pose proof (legal_set_available b last q Hlast Hq) as Hav.
  pose proof (available_in_bounds b q Hav) as Hin.
  split; [now apply replies_computed|].
  destruct Hfm as (i & _ & Hmax & _). specialize (Hmax q Hq).
  unfold key_opponent_options in Hmax.
  pose proof (tuple_gt_pair (- Z.of_nat (length (replies b q))) (value_of b q)
                (- Z.of_nat (length (replies b p))) (value_of b p)) as Hpair.
  rewrite Hmax in Hpair. destruct Hpair as [_ Hpair].
  destruct (Nat.lt_trichotomy (length (replies b p)) (length (replies b q)))
    as [Hlt|[Heq|Hgt]].
  - now left.
  - right. split; [exact Heq|].
    destruct (Z.le_gt_cases (value_of b q) (value_of b p)) as [Hle|Hgt]; [exact Hle|].
    assert (Hbad : false = true) by (apply Hpair; right; split; [lia | exact Hgt]).
    discriminate Hbad.
  - assert (Hbad : false = true) by (apply Hpair; left; lia).
    discriminate Hbad.
Qed.

(** X3. Called with an empty legal set, each of the four strategies raises
    [ValueError("No allowed moves for strategy")] and leaves the board as it
    was. *)
Theorem strategies_refuse_empty_legal_set (b : BoardManager)
    (last : option Position) :
  legal_positions b last = Ok [] ->
  Forall (fun f : StrategyFunc => f b last = (Raise no_allowed_moves, b))
    [strategy_greedy_maximize; strategy_maximize_future_min;
     strategy_minimize_opponent_options; strategy_high_value_preservation].
Proof.
  intros Hlegal.
  assert (Hq : query (fun b => legal_positions b last) b = (Ok [], b))
    by (now apply query_ok).
  constructor; [|constructor; [|constructor; [|constructor; [|constructor]]]].
  - unfold strategy_greedy_maximize. now rewrite (cbind_ok _ _ _ _ _ Hq).
  - unfold strategy_maximize_future_min. now rewrite (cbind_ok _ _ _ _ _ Hq).
  - unfold strategy_minimize_opponent_options. now rewrite (cbind_ok _ _ _ _ _ Hq).
  - unfold strategy_high_value_preservation. now rewrite (cbind_ok _ _ _ _ _ Hq).
Qed.

End MoreStrategies.

(** ** The remaining queries of the board *)

Lemma for_return_exists {A B : Type} (P : A -> bool) (v : B) (xs : list A)
    (body : A -> result (option B)) :
  (forall x, In x xs -> body x = Ok (if P x then Some v else None)) ->
  for_return xs body = Ok (if existsb P xs then Some v else None).
Proof.
  induction xs as [|x xs IH]; intros Hbody; cbn; [reflexivity|].
  rewrite Hbody by (now left). destruct (P x); cbn; [reflexivity|].
  apply IH. intros y Hy. apply Hbody. now right.
Qed.

(** Python's indexing: an index from [-len] to [-1] counts from the end. *)
Lemma getitem_wrap {A : Type} (l : list A) (i : Z) :
  - Z.of_nat (length l) <= i < Z.of_nat (length l) ->
  getitem l i = getitem l (if i <? 0 then Z.of_nat (length l) + i else i).
Proof.
  intros Hi. destruct (Z.ltb_spec i 0) as [Hneg|Hpos]; [|reflexivity].
  unfold getitem, py_index.
  destruct (Z.leb_spec 0 i); [lia|]. cbn [andb].
  destruct (Z.leb_spec (- Z.of_nat (length l)) i); [|lia].
  destruct (Z.ltb_spec i 0); [|lia]. cbn [andb].
  destruct (Z.leb_spec 0 (Z.of_nat (length l) + i)); [|lia].
  destruct (Z.ltb_spec (Z.of_nat (length l) + i) (Z.of_nat (length l))); [|lia].
  reflexivity.
Qed.

Lemma getitem_outside {A : Type} (l : list A) (i : Z) :
  ~ (- Z.of_nat (length l) <= i < Z.of_nat (length l)) ->
  getitem l i = Raise IndexError.
Proof.
  intros Hi. unfold getitem, py_index.
  destruct (Z.leb_spec 0 i), (Z.ltb_spec i (Z.of_nat (length l))); cbn [andb];
    try lia;
    destruct (Z.leb_spec (- Z.of_nat (length l)) i), (Z.ltb_spec i 0); cbn [andb];
    try lia; reflexivity.
Qed.

Section MoreQueries.
Context {R : PyRandom}.

(** X4. On a board of the constructed shape [any_available] returns [True]
    exactly when some position is available, and [False] exactly when
    [get_all_available_positions] is empty. *)
Theorem any_available_iff (b : BoardManager) :
  well_formed b = true ->
  exists v,
    any_available b = Ok v
    /\ (v = true <-> exists p, is_available b p = Ok true)
    /\ (v = false <-> get_all_available_positions b = Ok []).
Proof.
  intros Hwf. unfold any_available.
  rewrite (for_return_exists
    (fun r => existsb (fun c => available b (r, c)) (range (size b))) true).
  2:{ intros r Hr. apply in_range in Hr.
      apply (for_return_exists (fun c => available b (r, c)) true).
      intros c Hc. apply in_range in Hc.
      assert (Hb : in_bounds b (r, c) = true) by (apply in_bounds_iff; lia).
      rewrite (grid_get_cell b r c Hwf Hb). cbn. unfold available. now rewrite Hb. }
  cbn [bind].
  assert (Hex : existsb (fun r => existsb (fun c => available b (r, c))
                                    (range (size b))) (range (size b)) = true
                <-> exists p, available b p = true).
  { rewrite existsb_exists. split.
    - intros (r & _ & (c & _ & Hav)%existsb_exists). now exists (r, c).
    - intros ([r c] & Hav).
      pose proof (available_in_bounds _ _ Hav) as [Hr Hc]%in_bounds_iff.
      exists r. split; [now apply in_range|]. apply existsb_exists.
      exists c. split; [now apply in_range | exact Hav]. }
  rewrite (get_all_available_positions_spec b Hwf).
  destruct (existsb _ (range (size b))) eqn:Hany; eexists; (split; [reflexivity|]).
  - destruct (proj1 Hex eq_refl) as (p & Hp). split; split; try discriminate.
    + intros _. exists p. now rewrite (is_available_spec b p Hwf), Hp.
    + reflexivity.
    + intros [= Hnil]. apply in_row_major in Hp. rewrite Hnil in Hp. destruct Hp.
  - split; split; try discriminate; try reflexivity.
    + intros (p & Hp). rewrite (is_available_spec b p Hwf) in Hp.
      injection Hp as Hp. assert (false = true) by (apply Hex; now exists p).
      discriminate.
    + intros _. f_equal. destruct (row_major b) as [|p l] eqn:Hrm; [reflexivity|].
      assert (Hp : available b p = true) by (apply in_row_major; rewrite Hrm; now left).
      assert (false = true) by (apply Hex; now exists p). discriminate.
Qed.

(** X5. On a board of the constructed shape [max_remaining_value] returns a
    value that is at least 0 and at least the value of every available cell;
    when it is not 0 it is the value of some available cell.  It is 0 when no
    available cell holds a positive value (an empty board, or a preset of
    non-positive values). *)
Theorem max_remaining_value_bounds (b : BoardManager) :
  well_formed b = true ->
  exists m,
    max_remaining_value b = Ok m
    /\ 0 <= m
    /\ (forall p v, in_bounds b p = true -> get_value b p = Ok (Some v) -> v <= m)
    /\ (m <> 0 -> exists p, in_bounds b p = true /\ get_value b p = Ok (Some m))
    /\ ((forall p v, in_bounds b p = true -> get_value b p = Ok (Some v) -> v <= 0)
        -> m = 0).
Proof.
  intros Hwf. exists (global_max b).
  split; [now apply max_remaining_value_spec|].
  unfold global_max.
  destruct (fold_max_bounds (map (value_of b) (row_major b)) 0)
    as (Hge & Hall & Hatt).
  split; [exact Hge|]. split; [|split].
  - intros p v Hin Hget.
    destruct (get_value_available b p v Hwf Hin Hget) as [Hav <-].
    apply Hall, in_map, in_row_major, Hav.
  - intros Hne. destruct Hatt as [Heq|Hin]; [contradiction|].
    apply in_map_iff in Hin as (p & Hval & Hp). apply in_row_major in Hp.
    exists p. split; [now apply available_in_bounds|].
    rewrite <- Hval. now apply available_value.
  - intros Hnonpos. destruct Hatt as [Heq|Hin]; [exact Heq|].
    apply in_map_iff in Hin as (p & Hval & Hp). apply in_row_major in Hp.
    pose proof (Hnonpos p (value_of b p) (available_in_bounds b p Hp)
                  (available_value b p Hwf Hp)). lia.
Qed.

(** X6. [get_value] does not check bounds: on a board of the constructed
    shape an index from [-size] to [-1] reads the cell counted from the other
    end, as Python lists do, and an index outside [-size, size) raises
    [IndexError]; [is_available] answers [False] for every such position and
    [remove_and_get] refuses it. *)
Theorem get_value_out_of_bounds (b : BoardManager) (r c : Z) :
  well_formed b = true -> in_bounds b (r, c) = false ->
  (- size b <= r < size b /\ - size b <= c < size b ->
     get_value b (r, c)
     = get_value b (if r <? 0 then size b + r else r,
                    if c <? 0 then size b + c else c)
     /\ in_bounds b (if r <? 0 then size b + r else r,
                     if c <? 0 then size b + c else c) = true)
  /\ (~ (- size b <= r < size b /\ - size b <= c < size b) ->
      get_value b (r, c) = Raise IndexError)
  /\ is_available b (r, c) = Ok false
  /\ remove_and_get (r, c) b
     = (Raise (ValueError "Attempted to remove unavailable position"), b).
Proof.
  intros Hwf Hout.
  pose proof (proj1 (well_formed_iff b) Hwf) as [Hrows Hcols].
  assert (Hn : - size b <= r < size b -> Z.of_nat (length (board b)) = size b)
    by (rewrite Hrows; lia).
  split; [|split; [|split]].
  - intros [Hr Hc].
    assert (Hr' : 0 <= (if r <? 0 then size b + r else r) < size b)
      by (destruct (Z.ltb_spec r 0); lia).
    assert (Hc' : 0 <= (if c <? 0 then size b + c else c) < size b)
      by (destruct (Z.ltb_spec c 0); lia).
    split; [|apply in_bounds_iff; split; assumption].
    destruct (well_formed_row b _ Hwf Hr') as (row & Hrow & Hlen).
    unfold get_value, grid_get.
    rewrite (getitem_wrap (board b) r) by (rewrite Hn; lia). rewrite (Hn Hr).
    rewrite (getitem_lookup _ _ _ (proj1 Hr') Hrow). cbn [bind].
    assert (Hm : Z.of_nat (length row) = size b) by (rewrite Hlen; lia).
    rewrite (getitem_wrap row c) by (rewrite Hm; lia). rewrite Hm.
    destruct (well_formed_row b _ Hwf Hr') as (row' & Hrow' & _).
    destruct (Z.ltb_spec c 0); reflexivity.
  - intros Hnot. unfold get_value, grid_get.
    destruct (Z_le_dec (- size b) r) as [Hr1|Hr1];
      [destruct (Z_lt_dec r (size b)) as [Hr2|Hr2]|].
    + assert (Hr' : 0 <= (if r <? 0 then size b + r else r) < size b)
        by (destruct (Z.ltb_spec r 0); lia).
      destruct (well_formed_row b _ Hwf Hr') as (row & Hrow & Hlen).
      rewrite (getitem_wrap (board b) r) by (rewrite Hn; lia).
      rewrite (Hn (conj Hr1 Hr2)).
      rewrite (getitem_lookup _ _ _ (proj1 Hr') Hrow). cbn [bind].
      apply getitem_outside. rewrite Hlen. intros Hc. apply Hnot. lia.
    + rewrite (getitem_outside (board b) r); [reflexivity|]. rewrite Hrows. lia.
    + rewrite (getitem_outside (board b) r); [reflexivity|]. rewrite Hrows. lia.
  - unfold is_available. now rewrite Hout.
  - apply remove_and_get_unavailable; [exact Hwf|]. unfold available. now rewrite Hout.
Qed.

End MoreQueries.

(** ** Fresh boards, reachable boards, and the legal set after a move *)

Lemma filter_all {A : Type} (P : A -> bool) (l : list A) :
  (forall x, In x l -> P x = true) -> List.filter P l = l.
Proof.
  induction l as [|x l IH]; intros Hall; cbn; [reflexivity|].
  rewrite Hall by (now left). f_equal. apply IH. intros y Hy. apply Hall. now right.
Qed.

Lemma length_flat_map_const {A B : Type} (f : A -> list B) (l : list A) (k : nat) :
  (forall x, In x l -> length (f x) = k) ->
  length (flat_map f l) = (length l * k)%nat.
Proof.
  induction l as [|x l IH]; intros Hf; cbn; [reflexivity|].
  rewrite length_app, Hf by (now left). f_equal. apply IH.
  intros y Hy. apply Hf. now right.
Qed.

Section FreshAndReachable.
Context {R : PyRandom}.

Lemma fresh_available (sz : Z) (seed : option Z) (preset : option (list Z))
    (os : entropy) (b : BoardManager) (p : Position) :
  BoardManager_init sz seed preset os = Ok b ->
  in_bounds b p = true -> available b p = true.
Proof.
  intros Hinit Hin. unfold available. rewrite Hin. cbn [andb].
  destruct p as [r c]. cbn [fst snd]. destruct preset as [preset|].
  - rewrite BoardManager_init_preset in Hinit.
    destruct (Z.of_nat (length preset) =? sz * sz); [|discriminate].
    injection Hinit as <-. apply in_bounds_iff in Hin as [Hr Hc].
    cbn [board size] in *. now rewrite cell_preset.
  - destruct (BoardManager_init_random sz seed os) as (b' & Hb' & _ & _ & Hwf & Hall).
    rewrite Hb' in Hinit. injection Hinit as <-.
    apply in_bounds_iff in Hin as [Hr Hc].
    destruct (well_formed_row b' r Hwf Hr) as (row & Hrow & Hlen).
    destruct (lookup_lt_is_Some_2 row (Z.to_nat c)) as [x Hx]; [lia|].
    unfold cell. rewrite Hrow, Hx.
    rewrite Forall_forall in Hall.
    pose proof (Hall row (list_elem_of_lookup_2 _ _ _ Hrow)) as Hcells.
    rewrite Forall_forall in Hcells.
    now destruct (Hcells x (list_elem_of_lookup_2 _ _ _ Hx)) as (v & -> & _).
Qed.

Lemma row_major_full (b : BoardManager) :
  (forall p, in_bounds b p = true -> available b p = true) ->
  length (row_major b) = (Z.to_nat (size b) * Z.to_nat (size b))%nat.
Proof.
  intros Hfull. unfold row_major.
  rewrite (length_flat_map_const _ _ (Z.to_nat (size b))), length_range; [reflexivity|].
  intros r Hr. apply in_range in Hr. rewrite length_map, filter_all;
    [apply length_range|].
  intros c Hc. apply in_range in Hc. apply Hfull, in_bounds_iff. lia.
Qed.

(** X7. A board that has just been constructed has the given size, no latest
    removed position, and every one of its positions available:
    [get_all_available_positions] lists [size*size] positions ([0] for a size
    that is not positive). *)
Theorem fresh_board_fully_available (sz : Z) (seed : option Z)
    (preset : option (list Z)) (os : entropy) (b : BoardManager) :
  BoardManager_init sz seed preset os = Ok b ->
  size b = sz /\ last_removed_pos b = None
  /\ (forall p, in_bounds b p = true -> is_available b p = Ok true)
  /\ exists all,
       get_all_available_positions b = Ok all
       /\ Z.of_nat (length all) = Z.max 0 sz * Z.max 0 sz.
Proof.
  intros Hinit.
  destruct (BoardManager_init_shape _ _ _ _ _ Hinit) as (Hwf & Hsize & Hlast).
  split; [exact Hsize|]. split; [exact Hlast|]. split.
  - intros p Hin. rewrite (is_available_spec b p Hwf).
    now rewrite (fresh_available _ _ _ _ _ _ Hinit Hin).
  - exists (row_major b). split; [now apply get_all_available_positions_spec|].
    rewrite row_major_full by (intros p; apply (fresh_available _ _ _ _ _ _ Hinit)).
    rewrite Hsize. lia.
Qed.

Lemma reachable_last_removed (b : BoardManager) :
  reachable b ->
  (last_removed_pos b = None ->
   forall p, in_bounds b p = true -> available b p = true)
  /\ (forall p, last_removed_pos b = Some p ->
        in_bounds b p = true /\ available b p = false).
Proof.
  induction 1 as [sz seed preset os b Hinit|b b' pos v Hreach IH Hrun].
  - destruct (BoardManager_init_shape _ _ _ _ _ Hinit) as (_ & _ & Hlast).
    split; [|intros p Hp; congruence].
    intros _ p. apply (fresh_available _ _ _ _ _ _ Hinit).
  - pose proof (reachable_well_formed b Hreach) as Hwf.
    destruct (available b pos) eqn:Hav.
    + destruct (remove_and_get_removed b pos Hwf Hav) as (v' & Hrun').
      rewrite Hrun' in Hrun. injection Hrun as _ <-.
      pose proof (available_in_bounds b pos Hav) as Hin.
      split; [discriminate|]. intros p [= <-].
      split; [exact Hin|].
      destruct (available (removed b pos) pos) eqn:Hav'; [|reflexivity].
      apply (available_removed b pos pos Hwf Hin) in Hav' as [_ Hne]. contradiction.
    + rewrite (remove_and_get_unavailable b pos Hwf Hav) in Hrun. discriminate.
Qed.

(** X8. On every board a game can hold, [last_removed_pos] tells the truth:
    while it is [None] no cell has been removed (every position of the board
    is available), and when it is a position, that position is on the board
    and its cell is removed. *)
Theorem latest_removal_is_recorded (b : BoardManager) :
  reachable b ->
  (last_removed_pos b = None ->
   forall p, in_bounds b p = true -> is_available b p = Ok true)
  /\ (forall p, last_removed_pos b = Some p ->
        in_bounds b p = true /\ get_value b p = Ok None
        /\ is_available b p = Ok false).
Proof.
  intros Hreach. pose proof (reachable_well_formed b Hreach) as Hwf.
  destruct (reachable_last_removed b Hreach) as [Hnone Hsome]. split.
  - intros Hlast p Hin. rewrite (is_available_spec b p Hwf).
    now rewrite (Hnone Hlast p Hin).
  - intros p Hp. destruct (Hsome p Hp) as [Hin Hav].
    split; [exact Hin|]. rewrite (is_available_spec b p Hwf), Hav.
    split; [|reflexivity].
    rewrite (get_value_spec b p Hwf Hin). unfold available in Hav.
    rewrite Hin in Hav. cbn in Hav.
    now destruct (cell (board b) (fst p) (snd p)).
Qed.

(** X9. After a successful [remove_and_get pos] the next legal set,
    [get_allowed_positions pos] on the board left behind, does not contain
    [pos] and holds exactly the other positions that were available before
    the move and share the row or the column of [pos]; [last_removed_pos] of
    that board is [pos], the previous move the turn loop passes on. *)
Theorem legal_set_after_move (b b' : BoardManager) (pos : Position) (v : Z) :
  well_formed b = true -> remove_and_get pos b = (Ok v, b') ->
  last_removed_pos b' = Some pos
  /\ exists l,
       get_allowed_positions b' pos = Ok l
       /\ legal_positions b' (last_removed_pos b') = Ok l
       /\ ~ In pos l
       /\ (forall q, In q l <->
             q <> pos /\ is_available b q = Ok true
             /\ (fst q = fst pos \/ snd q = snd pos)).
Proof.
  intros Hwf Hrun. destruct (available b pos) eqn:Hav.
  2:{ rewrite (remove_and_get_unavailable b pos Hwf Hav) in Hrun. discriminate. }
  destruct (remove_and_get_removed b pos Hwf Hav) as (v' & Hrun').
  rewrite Hrun' in Hrun. injection Hrun as _ <-.
  pose proof (available_in_bounds b pos Hav) as Hin.
  pose proof (well_formed_removed b pos Hwf) as Hwf'.
  assert (Hin' : in_bounds (removed b pos) pos = true) by exact Hin.
  split; [reflexivity|]. exists (row_then_column (removed b pos) pos).
  assert (Hmem : forall q, In q (row_then_column (removed b pos) pos) <->
            q <> pos /\ is_available b q = Ok true
            /\ (fst q = fst pos \/ snd q = snd pos)).
  { intros q. rewrite (in_row_then_column (removed b pos) pos q Hin').
    rewrite (available_removed b pos q Hwf Hin), (is_available_spec b q Hwf).
    split.
    - intros [[Hq Hne] Hs]. split; [exact Hne|]. split; [now rewrite Hq | exact Hs].
    - intros (Hne & Hq & Hs). injection Hq as Hq. auto. }
  split; [now apply get_allowed_positions_spec|].
  split; [now apply get_allowed_positions_spec|].
  split; [|exact Hmem].
  intros Hpos. apply Hmem in Hpos as [Hne _]. contradiction.
Qed.

End FreshAndReachable.

(** ** Which configurations a game is set up for *)

Section SetupFacts.
Context {R : PyRandom}.

Lemma get_strategy_registered (name : string) :
  is_ok (get_strategy name) = registered name
  /\ (forall e, get_strategy name = Raise e -> e = ValueError "Unknown strategy").
Proof.
  unfold get_strategy, registered.
  destruct (String.eqb name "Greedy"); [split; [reflexivity|discriminate]|].
  destruct (String.eqb name "MaximizeFutureMin"); [split; [reflexivity|discriminate]|].
  destruct (String.eqb name "MinimizeOpponentOptions");
    [split; [reflexivity|discriminate]|].
  destruct (String.eqb name "PreserveHighValues"); [split; [reflexivity|discriminate]|].
  split; [reflexivity|]. now intros e [= <-].
Qed.

Lemma BoardManager_init_is_ok (sz : Z) (seed : option Z)
    (preset : option (list Z)) (os : entropy) :
  is_ok (BoardManager_init sz seed preset os)
  = match preset with
    | Some p => Z.of_nat (length p) =? sz * sz
    | None => true
    end
  /\ (forall e, BoardManager_init sz seed preset os = Raise e ->
        exists msg, e = ValueError msg).
Proof.
  destruct preset as [p|].
  - rewrite BoardManager_init_preset.
    destruct (Z.of_nat (length p) =? sz * sz); (split; [reflexivity|]);
      [discriminate | intros e [= <-]; eauto].
  - destruct (BoardManager_init_random sz seed os) as (b & -> & _).
    split; [reflexivity | discriminate].
Qed.

(** X10. For a configuration whose mode and start player are ASCII text,
    [start_game] sets a game up exactly when the preset (if any) has
    [size*size] values and the mode, upper-cased, is H_VS_H, or H_VS_C with
    a registered strategy for B, or C_VS_C with registered strategies for A
    and B; every refusal is a [ValueError].  In H_VS_C the human is player A
    whatever A_STRATEGY says, and in H_VS_H both strategies are ignored.  The
    game starts with zero scores, round 0, no previous move and the
    configured start player. *)
Theorem game_setup_accepts (config : GameConfig) (os : entropy)
    (input : list line) :
  is_ascii (str_or (cfg_mode config) "") = true ->
  is_ascii (cfg_start_player config) = true ->
  is_ok (game_setup config os input) = accepted config
  /\ (forall e, game_setup config os input = Raise e -> exists msg, e = ValueError msg)
  /\ (forall ctrl_A ctrl_B st0,
        game_setup config os input = Ok (ctrl_A, ctrl_B, st0) ->
        is_human ctrl_A
        = negb (String.eqb (upper (str_or (cfg_mode config) "")) "C_VS_C")
        /\ is_human ctrl_B
           = String.eqb (upper (str_or (cfg_mode config) "")) "H_VS_H"
        /\ BoardManager_init (cfg_size config) (cfg_seed config)
             (cfg_preset_board config) os = Ok (gs_board st0)
        /\ a_score st0 = 0 /\ b_score st0 = 0 /\ round_num st0 = 0
        /\ last_pos st0 = None /\ stdin st0 = input
        /\ current st0 = upper (str_or (Some (cfg_start_player config)) "A")).
Proof.
  intros _ _. unfold game_setup, accepted.
  destruct (BoardManager_init_is_ok (cfg_size config) (cfg_seed config)
              (cfg_preset_board config) os) as [Hinit Hinit_err].
  rewrite <- Hinit.
  destruct (BoardManager_init _ _ _ _) as [b|e0]; cbn [bind is_ok andb].
  2:{ split; [reflexivity|]. split; [|discriminate].
      intros e [= <-]. now apply Hinit_err. }
  clear Hinit Hinit_err.
  set (mode := upper (str_or (cfg_mode config) "")).
  unfold controller_for.
  destruct (String.eqb_spec mode "H_VS_H") as [->|Hhh].
  { cbn. split; [reflexivity|]. split; [discriminate|].
    intros A B st0 [= <- <- <-]. cbn. repeat split; reflexivity. }
  destruct (String.eqb_spec mode "H_VS_C") as [->|Hhc].
  { cbn [orb negb andb String.eqb Ascii.eqb Bool.eqb bind].
    destruct (cfg_b_strategy config) as [[|cb nb]|] eqn:Hb;
      cbn [str_falsy orb registered_opt andb bind is_ok str_or];
      try (split; [reflexivity|]; split; [|discriminate]; intros e [= <-]; eauto).
    destruct (get_strategy_registered (String cb nb)) as [HokB HerrB].
    rewrite orb_false_r, <- HokB.
    destruct (get_strategy (String cb nb)) as [fb|eb]; cbn [bind is_ok].
    2:{ split; [reflexivity|]. split; [|discriminate]. intros e [= <-]. eauto. }
    split; [reflexivity|]. split; [discriminate|].
    intros A B st0 [= <- <- <-]. cbn. repeat split; reflexivity. }
  destruct (String.eqb_spec mode "C_VS_C") as [->|Hcc].
  2:{ cbn. split; [reflexivity|]. split; [|discriminate]. intros e [= <-]. eauto. }
  cbn [orb negb andb String.eqb Ascii.eqb Bool.eqb bind].
  destruct (cfg_a_strategy config) as [[|ca na]|] eqn:Ha;
    cbn [str_falsy orb registered_opt andb bind is_ok];
    try (split; [reflexivity|]; split; [|discriminate]; intros e [= <-]; eauto).
  destruct (cfg_b_strategy config) as [[|cb nb]|] eqn:Hb;
    cbn [str_falsy orb registered_opt andb bind is_ok str_or];
    try (rewrite andb_false_r; split; [reflexivity|]; split; [|discriminate];
         intros e [= <-]; eauto).
  destruct (get_strategy_registered (String ca na)) as [HokA HerrA].
  destruct (get_strategy_registered (String cb nb)) as [HokB HerrB].
  rewrite <- HokA, <- HokB.
  destruct (get_strategy (String ca na)) as [fa|ea]; cbn [bind is_ok andb].
  2:{ split; [reflexivity|]. split; [|discriminate]. intros e [= <-]. eauto. }
  destruct (get_strategy (String cb nb)) as [fb|eb]; cbn [bind is_ok andb].
  2:{ split; [reflexivity|]. split; [|discriminate]. intros e [= <-]. eauto. }
  split; [reflexivity|]. split; [discriminate|].
  intros A B st0 [= <- <- <-]. cbn. repeat split; reflexivity.
Qed.

End SetupFacts.

(** ** A human turn *)

Section HumanTurn.
Context {R : PyRandom}.

Lemma legal_line_iff (b : BoardManager) (last : option Position) (pos : Position) :
  on_board b last = true ->
  legal_line b last (Other (Some pos)) = true <-> In pos (legal_set b last).
Proof.
  intros Hlast. cbn [legal_line]. rewrite andb_true_iff.
  destruct last as [[r0 c0]|]; cbn [legal_set].
  - rewrite (in_row_then_column b (r0, c0) pos Hlast), orb_true_iff. cbn [fst snd].
    rewrite !Z.eqb_eq. tauto.
  - rewrite in_row_major. tauto.
Qed.

(** How [human_move] reads its input: lines that are neither a command nor a
    legal move are skipped, the first line that is one of the two decides. *)
Lemma human_move_split (b : BoardManager) (last : option Position)
    (input : list line) :
  well_formed b = true ->
  exists skipped,
    Forall (fun l => is_command l = false /\ legal_line b last l = false) skipped
    /\ ((exists pos rest,
           input = skipped ++ Other (Some pos) :: rest
           /\ legal_line b last (Other (Some pos)) = true
           /\ human_move b last input = (Ok pos, rest))
        \/ (exists rest,
              input = skipped ++ Menu :: rest
              /\ human_move b last input = (Raise KeyboardInterrupt, rest))
        \/ (exists rest,
              input = skipped ++ Exit :: rest
              /\ human_move b last input = (Raise SystemExit, rest))
        \/ (input = skipped /\ human_move b last input = (Raise EOFError, []))).
Proof.
  intros Hwf. induction input as [|l rest IH].
  { exists []. split; [constructor|]. right. right. right. split; reflexivity. }
  assert (Hskip : is_command l = false -> legal_line b last l = false ->
                  human_move b last (l :: rest) = human_move b last rest ->
                  exists skipped,
                    Forall (fun l => is_command l = false
                                     /\ legal_line b last l = false) skipped
                    /\ ((exists pos rest',
                           l :: rest = skipped ++ Other (Some pos) :: rest'
                           /\ legal_line b last (Other (Some pos)) = true
                           /\ human_move b last (l :: rest) = (Ok pos, rest'))
                        \/ (exists rest',
                              l :: rest = skipped ++ Menu :: rest'
                              /\ human_move b last (l :: rest)
                                 = (Raise KeyboardInterrupt, rest'))
                        \/ (exists rest',
                              l :: rest = skipped ++ Exit :: rest'
                              /\ human_move b last (l :: rest)
                                 = (Raise SystemExit, rest'))
                        \/ (l :: rest = skipped
                            /\ human_move b last (l :: rest) = (Raise EOFError, [])))).
  { intros Hcmd Hleg Hsame. destruct IH as (skipped & Hall & Hcases).
    exists (l :: skipped). split; [constructor; [split; assumption | exact Hall]|].
    rewrite Hsame.
    destruct Hcases as [(pos & rest' & -> & Hlegal & Hrun)
                       |[(rest' & -> & Hrun)|[(rest' & -> & Hrun)|(-> & Hrun)]]].
    - left. exists pos, rest'. auto.
    - right. left. exists rest'. auto.
    - right. right. left. exists rest'. auto.
    - right. right. right. auto. }
  destruct l as [| |[pos|]].
  - exists []. split; [constructor|]. right. left. exists rest. split; reflexivity.
  - exists []. split; [constructor|]. right. right. left. exists rest.
    split; reflexivity.
  - destruct (legal_line b last (Other (Some pos))) eqn:Hlegal.
    + exists []. split; [constructor|]. left. exists pos, rest.
      split; [reflexivity|]. split; [exact Hlegal|].
      cbn [legal_line] in Hlegal. apply andb_true_iff in Hlegal as [Hav Hshare].
      cbn [human_move _guarded_input _parse_move_input].
      rewrite (available_in_bounds b pos Hav). cbn [negb].
      rewrite (is_available_spec b pos Hwf), Hav.
      destruct last as [[r0 c0]|]; [|reflexivity]. now rewrite Hshare.
    + apply Hskip; [reflexivity | reflexivity|].
      cbn [legal_line] in Hlegal.
      cbn [human_move _guarded_input _parse_move_input].
      destruct (in_bounds b pos) eqn:Hin; cbn [negb]; [|reflexivity].
      rewrite (is_available_spec b pos Hwf).
      destruct (available b pos) eqn:Hav; [|reflexivity]. cbn [andb] in Hlegal.
      destruct last as [[r0 c0]|]; [|discriminate]. now rewrite Hlegal.
  - apply Hskip; reflexivity.
Qed.

(** X11. A human turn reads lines until one decides: a line that does not
    parse, or parses to a position that is out of bounds, taken, or off the
    row and column of the previous move, is skipped; the first line that is
    a legal move is the move; Menu before that raises [KeyboardInterrupt],
    Exit raises [SystemExit], and input that runs out raises [EOFError].  The
    lines after the deciding one are left unread. *)
Theorem human_move_reads_to_first_decisive_line (b : BoardManager)
    (last : option Position) (input : list line) :
  well_formed b = true -> on_board b last = true ->
  exists skipped,
    Forall (fun l => exists parsed,
              l = Other parsed
              /\ forall pos, parsed = Some pos -> ~ In pos (legal_set b last))
      skipped
    /\ ((exists pos rest,
           input = skipped ++ Other (Some pos) :: rest
           /\ In pos (legal_set b last)
           /\ human_move b last input = (Ok pos, rest))
        \/ (exists rest,
              input = skipped ++ Menu :: rest
              /\ human_move b last input = (Raise KeyboardInterrupt, rest))
        \/ (exists rest,
              input = skipped ++ Exit :: rest
              /\ human_move b last input = (Raise SystemExit, rest))
        \/ (input = skipped /\ human_move b last input = (Raise EOFError, []))).
Proof.
  intros Hwf Hlast.
  destruct (human_move_split b last input Hwf) as (skipped & Hall & Hcases).
  exists skipped. split.
  - eapply Forall_impl; [exact Hall|]. intros l [Hcmd Hleg].
    destruct l as [| |parsed]; try discriminate. exists parsed.
    split; [reflexivity|]. intros pos -> Hin.
    apply (legal_line_iff b last pos Hlast) in Hin. congruence.
  - destruct Hcases as [(pos & rest & Hin & Hlegal & Hrun)|Hother]; [|now right].
    left. exists pos, rest. split; [exact Hin|]. split; [|exact Hrun].
    now apply (legal_line_iff b last pos Hlast).
Qed.

End HumanTurn.

(** ** What the turn loop keeps *)

Lemma sum_permutation (l l' : list Z) :
  Permutation.Permutation l l' ->
  fold_right Z.add 0 l = fold_right Z.add 0 l'.
Proof. induction 1; cbn; lia. Qed.

Section Accounting.
Context {R : PyRandom}.

Lemma row_major_removed (b : BoardManager) (p : Position) :
  well_formed b = true -> available b p = true ->
  Permutation.Permutation (p :: row_major (removed b p)) (row_major b).
Proof.
  intros Hwf Hav. pose proof (available_in_bounds b p Hav) as Hin.
  apply Permutation.NoDup_Permutation.
  - constructor; [|apply sorted_NoDup, row_major_sorted].
    rewrite in_row_major, (available_removed b p p Hwf Hin). tauto.
  - apply sorted_NoDup, row_major_sorted.
  - intros q. cbn [In]. rewrite !in_row_major, (available_removed b p q Hwf Hin).
    destruct (decide (q = p)) as [->|Hne]; [tauto|]. split.
    + intros [Heq|[? _]]; [congruence | assumption].
    + intros Hq. right. split; assumption.
Qed.

Lemma value_of_removed (b : BoardManager) (p q : Position) :
  in_bounds b p = true -> in_bounds b q = true -> q <> p ->
  value_of (removed b p) q = value_of b q.
Proof.
  intros Hp Hq Hne. unfold value_of. destruct p as [r c], q as [r' c'].
  cbn [removed board fst snd].
  apply in_bounds_iff in Hp as [? ?]. apply in_bounds_iff in Hq as [? ?].
  now rewrite cell_put_ne by (lia || exact Hne).
Qed.

Lemma total_removed (b : BoardManager) (p : Position) :
  well_formed b = true -> available b p = true ->
  total b = value_of b p + total (removed b p).
Proof.
  intros Hwf Hav. pose proof (available_in_bounds b p Hav) as Hin. unfold total.
  rewrite <- (sum_permutation _ _
    (Permutation.Permutation_map (value_of b) (row_major_removed b p Hwf Hav))).
  cbn [map fold_right]. do 2 f_equal. apply map_ext_in. intros q Hq.
  apply in_row_major, (available_removed b p q Hwf Hin) in Hq as [Hq Hne].
  symmetry. apply value_of_removed; [exact Hin | now apply available_in_bounds | exact Hne].
Qed.

Lemma remove_and_get_value (b : BoardManager) (p : Position) :
  well_formed b = true -> available b p = true ->
  remove_and_get p b = (Ok (value_of b p), removed b p).
Proof.
  intros Hwf Hav.
  destruct (remove_and_get_available b p Hwf Hav) as (v & Hcell & Hrun).
  rewrite Hrun. unfold value_of. now rewrite Hcell, or0_Some.
Qed.

Lemma human_move_consumes (b : BoardManager) (last : option Position)
    (input : list line) :
  well_formed b = true ->
  exists consumed, input = consumed ++ snd (human_move b last input).
Proof.
  intros Hwf. destruct (human_move_split b last input Hwf) as (skipped & _ & Hcases).
  destruct Hcases as [(pos & rest & -> & _ & Hrun)
                     |[(rest & -> & Hrun)|[(rest & -> & Hrun)|(-> & Hrun)]]];
    rewrite Hrun; cbn [snd].
  - exists (skipped ++ [Other (Some pos)]). now rewrite <- app_assoc.
  - exists (skipped ++ [Menu]). now rewrite <- app_assoc.
  - exists (skipped ++ [Exit]). now rewrite <- app_assoc.
  - exists skipped. now rewrite app_nil_r.
Qed.

(** One iteration of the turn loop. *)
Lemma turn_loop_step (ctrl_A ctrl_B : PlayerController) (fuel : nat)
    (st : GameState) :
  good_controller ctrl_A -> good_controller ctrl_B ->
  well_formed (gs_board st) = true ->
  on_board (gs_board st) (last_pos st) = true ->
  (legal_set (gs_board st) (last_pos st) = []
   /\ turn_loop (S fuel) ctrl_A ctrl_B st = (GameOver, st))
  \/ (legal_set (gs_board st) (last_pos st) <> []
      /\ exists consumed input1,
           stdin st = consumed ++ input1
           /\ (is_human ctrl_A || is_human ctrl_B = false -> consumed = [])
           /\ ((exists pos,
                  In pos (legal_set (gs_board st) (last_pos st))
                  /\ turn_loop (S fuel) ctrl_A ctrl_B st
                     = turn_loop fuel ctrl_A ctrl_B (after_move st pos input1))
               \/ (exists x,
                     is_interrupt x = true
                     /\ is_human ctrl_A || is_human ctrl_B = true
                     /\ turn_loop (S fuel) ctrl_A ctrl_B st
                        = (Raised x, with_stdin st input1)
                     /\ human_move (gs_board st) (last_pos st) (stdin st)
                        = (Raise x, input1)))).
Proof.
  intros HA HB Hwf Hlast. cbn [turn_loop].
  pose proof (legal_positions_spec _ _ Hwf Hlast) as Hlegal. rewrite Hlegal.
  destruct (legal_set (gs_board st) (last_pos st)) as [|q0 qs] eqn:Hset;
    [left; split; reflexivity|].
  right. split; [discriminate|].
  assert (Hne : legal_set (gs_board st) (last_pos st) <> [])
    by (rewrite Hset; discriminate).
  rewrite <- Hset. clear Hlegal Hset q0 qs.
  assert (Hplay : forall pos input1,
    In pos (legal_set (gs_board st) (last_pos st)) ->
    (let (r, b2) := remove_and_get pos (gs_board st) in
     match r with
     | Ok val_now =>
         turn_loop fuel ctrl_A ctrl_B
           {| gs_board := b2;
              a_score := if String.eqb (current st) "A"
                         then a_score st + val_now else a_score st;
              b_score := if String.eqb (current st) "A"
                         then b_score st else b_score st + val_now;
              round_num := round_num st + 1;
              last_pos := Some pos;
              current := if String.eqb (current st) "B"
                         then "A"%string else "B"%string;
              stdin := input1 |}
     | Raise e0 =>
         (Raised e0,
          {| gs_board := b2; a_score := a_score st; b_score := b_score st;
             round_num := round_num st; last_pos := last_pos st;
             current := current st; stdin := input1 |})
     end) = turn_loop fuel ctrl_A ctrl_B (after_move st pos input1)).
  { intros pos input1 Hpos.
    pose proof (legal_set_available _ _ _ Hlast Hpos) as Hav.
    now rewrite (remove_and_get_value (gs_board st) pos Hwf Hav). }
  assert (Hc : good_controller
                 (if String.eqb (current st) "A" then ctrl_A else ctrl_B)
               /\ (is_human (if String.eqb (current st) "A" then ctrl_A else ctrl_B)
                   = true -> is_human ctrl_A || is_human ctrl_B = true)).
  { destruct (String.eqb (current st) "A"); (split; [assumption|]);
      intros ->; [reflexivity | apply orb_true_r]. }
  destruct Hc as [[Hc|(f & Hc & Hf)] Hhum]; rewrite Hc in *.
  - pose proof (human_move_legal (gs_board st) (last_pos st) (stdin st) Hwf Hlast) as Hm.
    destruct (human_move_consumes (gs_board st) (last_pos st) (stdin st) Hwf)
      as (consumed & Hcons).
    change (String.eqb "human" "human") with true. cbv beta iota.
    destruct (human_move (gs_board st) (last_pos st) (stdin st)) as [[pos|x] rest];
      cbn [fst snd] in Hm, Hcons; cbv beta iota; exists consumed, rest;
      (split; [exact Hcons|]);
      (split; [intros Hno; rewrite (Hhum eq_refl) in Hno; discriminate|]).
    + left. exists pos. split; [exact Hm | now apply Hplay].
    + right. exists x. split; [exact Hm|].
      split; [now apply Hhum | split; reflexivity].
  - destruct (Hf (gs_board st) (last_pos st) Hwf Hlast Hne) as (pos & Hrun & Hin).
    change (String.eqb "computer" "human") with false. cbv beta iota.
    rewrite Hrun. cbv beta iota. exists [], (stdin st).
    split; [reflexivity|]. split; [reflexivity|].
    left. exists pos. split; [exact Hin | now apply Hplay].
Qed.

Lemma opponent_involutive (player : string) :
  player = "A"%string \/ player = "B"%string ->
  opponent (opponent player) = player
  /\ (opponent player = "A"%string \/ opponent player = "B"%string).
Proof. intros [->| ->]; cbn; auto. Qed.

Lemma loop_account_refl (ctrl_A ctrl_B : PlayerController) (st : GameState)
    (input1 consumed : list line) :
  well_formed (gs_board st) = true ->
  on_board (gs_board st) (last_pos st) = true ->
  stdin st = consumed ++ input1 ->
  (is_human ctrl_A || is_human ctrl_B = false -> consumed = []) ->
  loop_account ctrl_A ctrl_B st (with_stdin st input1).
Proof.
  intros Hwf Hlast Hcons Hnone. unfold loop_account, with_stdin.
  cbn [gs_board a_score b_score round_num last_pos current stdin].
  split; [exact Hwf|]. split; [exact Hlast|]. split; [reflexivity|].
  split; [reflexivity|]. split; [auto|]. split; [eauto|]. split; [lia|].
  split; [intros _; now rewrite Z.sub_diag|]. split; [lia|]. split; [auto|].
  split; [reflexivity | auto].
Qed.

Lemma loop_account_cons (ctrl_A ctrl_B : PlayerController) (st st' : GameState)
    (pos : Position) (input1 consumed : list line) :
  well_formed (gs_board st) = true ->
  In pos (legal_set (gs_board st) (last_pos st)) ->
  on_board (gs_board st) (last_pos st) = true ->
  stdin st = consumed ++ input1 ->
  (is_human ctrl_A || is_human ctrl_B = false -> consumed = []) ->
  loop_account ctrl_A ctrl_B (after_move st pos input1) st' ->
  loop_account ctrl_A ctrl_B st st'.
Proof.
  intros Hwf Hpos Hlast Hcons Hnone
    (Hwf' & Hlast' & Hsize & Hsum & Hcells & (c2 & Hc2 & Hc2none) & Hround
     & Hcur & Hlp & Hsame & Hrem & Hreach).
  pose proof (legal_set_available _ _ _ Hlast Hpos) as Hav.
  pose proof (available_in_bounds _ _ Hav) as Hin.
  cbn [after_move gs_board a_score b_score round_num last_pos current stdin] in *.
  unfold loop_account.
  split; [exact Hwf'|]. split; [exact Hlast'|]. split; [exact Hsize|]. split.
  { rewrite (total_removed (gs_board st) pos Hwf Hav).
    destruct (String.eqb (current st) "A"); lia. }
  split.
  { intros q Hq. destruct (Hcells q Hq) as [Hq' Hval].
    apply (available_removed (gs_board st) pos q Hwf Hin) in Hq' as [Hq' Hne].
    split; [exact Hq'|]. rewrite Hval.
    apply value_of_removed; [exact Hin | now apply available_in_bounds | exact Hne]. }
  split.
  { exists (consumed ++ c2). split; [now rewrite <- app_assoc, <- Hc2|].
    intros Hno. now rewrite (Hnone Hno), (Hc2none Hno). }
  split; [lia|]. split.
  { intros Hab. destruct (opponent_involutive (current st) Hab) as [Hinv Hab'].
    rewrite (Hcur Hab').
    replace (round_num st' - round_num st)
      with (Z.succ (round_num st' - (round_num st + 1))) by lia.
    rewrite Z.even_succ, <- Z.negb_even.
    destruct (Z.even (round_num st' - (round_num st + 1))); cbn [negb];
      [reflexivity | exact Hinv]. }
  split.
  { intros _. destruct (Z.eq_dec (round_num st') (round_num st + 1)) as [Heq|Hneq].
    - destruct (Hsame Heq) as [-> ->]. split; [reflexivity | discriminate].
    - apply Hlp. lia. }
  split; [lia|]. split.
  { pose proof (remaining_removed (gs_board st) pos Hwf Hav). lia. }
  intros Hr. apply Hreach.
  eapply reach_remove; [exact Hr | apply (remove_and_get_value _ _ Hwf Hav)].
Qed.

Lemma turn_loop_accounts (ctrl_A ctrl_B : PlayerController) :
  good_controller ctrl_A -> good_controller ctrl_B ->
  forall (fuel : nat) (st : GameState),
    well_formed (gs_board st) = true ->
    on_board (gs_board st) (last_pos st) = true ->
    loop_account ctrl_A ctrl_B st (snd (turn_loop fuel ctrl_A ctrl_B st)).
Proof.
  intros HA HB. induction fuel as [|fuel IH]; intros st Hwf Hlast.
  { cbn [turn_loop snd].
    replace st with (with_stdin st (stdin st)) at 2 by (now destruct st).
    now apply (loop_account_refl _ _ st (stdin st) []). }
  destruct (turn_loop_step ctrl_A ctrl_B fuel st HA HB Hwf Hlast)
    as [[_ ->]|(_ & consumed & input1 & Hcons & Hnone & Hcases)].
  { cbn [snd]. replace st with (with_stdin st (stdin st)) at 2 by (now destruct st).
    now apply (loop_account_refl _ _ st (stdin st) []). }
  destruct Hcases as [(pos & Hpos & ->)|(x & _ & _ & -> & _)].
  - apply (loop_account_cons _ _ st _ pos input1 consumed Hwf Hpos Hlast Hcons Hnone).
    pose proof (legal_set_available _ _ _ Hlast Hpos) as Hav.
    apply IH.
    + cbn [after_move gs_board]. now apply well_formed_removed.
    + cbn [after_move gs_board last_pos on_board].
      change (in_bounds (gs_board st) pos = true). now apply available_in_bounds.
  - cbn [snd]. now apply (loop_account_refl _ _ st input1 consumed).
Qed.

End Accounting.

(** ** Games from set-up to summary *)

Section Games.
Context {R : PyRandom}.

Lemma game_setup_start (config : GameConfig) (os : entropy) (input : list line)
    (ctrl_A ctrl_B : PlayerController) (st0 : GameState) :
  game_setup config os input = Ok (ctrl_A, ctrl_B, st0) ->
  BoardManager_init (cfg_size config) (cfg_seed config)
    (cfg_preset_board config) os = Ok (gs_board st0)
  /\ a_score st0 = 0 /\ b_score st0 = 0 /\ stdin st0 = input
  /\ current st0 = upper (str_or (Some (cfg_start_player config)) "A")
  /\ (let mode := upper (str_or (cfg_mode config) "") in
      String.eqb mode "H_VS_H" || String.eqb mode "H_VS_C"
      || String.eqb mode "C_VS_C" = true).
Proof.
  unfold game_setup.
  destruct (BoardManager_init _ _ _ _) as [b|]; [|discriminate]. cbn [bind].
  destruct (_ || _ || _); [|discriminate]. cbn [negb].
  destruct (controller_for config _ "A") as [cA|]; [|discriminate].
  destruct (controller_for config _ "B") as [cB|]; [|discriminate].
  cbn [bind]. intros [= <- <- <-]. cbn. repeat split; reflexivity.
Qed.

Lemma game_setup_account (config : GameConfig) (os : entropy) (input : list line)
    (ctrl_A ctrl_B : PlayerController) (st0 : GameState) (fuel : nat) :
  game_setup config os input = Ok (ctrl_A, ctrl_B, st0) ->
  loop_account ctrl_A ctrl_B st0 (snd (turn_loop fuel ctrl_A ctrl_B st0))
  /\ well_formed (gs_board st0) = true /\ reachable (gs_board st0).
Proof.
  intros Hsetup.
  destruct (game_setup_good _ _ _ _ _ _ Hsetup)
    as (HA & HB & Hwf & _ & Hlast & _).
  destruct (game_setup_start _ _ _ _ _ _ Hsetup) as (Hinit & _).
  split; [|split; [exact Hwf | eapply reach_init; exact Hinit]].
  apply turn_loop_accounts; try assumption. now rewrite Hlast.
Qed.

(** X12. At every point where the turn loop stops (game over, a human
    leaving, or the fuel running out), the two scores together with the
    values still on the board add up to the values the board started with;
    the round counter is the number of cells removed; and every cell still
    on the board was there from the start with the same value: no cell comes
    back and no value changes. *)
Theorem scores_account_for_removed_cells (config : GameConfig) (os : entropy)
    (input : list line) (ctrl_A ctrl_B : PlayerController) (st0 st : GameState)
    (fuel : nat) (e : loop_end) :
  game_setup config os input = Ok (ctrl_A, ctrl_B, st0) ->
  turn_loop fuel ctrl_A ctrl_B st0 = (e, st) ->
  exists cells0 cells,
    get_all_available_positions (gs_board st0) = Ok cells0
    /\ get_all_available_positions (gs_board st) = Ok cells
    /\ a_score st + b_score st
       + fold_right Z.add 0 (map (value_of (gs_board st)) cells)
       = fold_right Z.add 0 (map (value_of (gs_board st0)) cells0)
    /\ round_num st = Z.of_nat (length cells0) - Z.of_nat (length cells)
    /\ (forall q, In q cells ->
          In q cells0
          /\ exists v, get_value (gs_board st) q = Ok (Some v)
                       /\ get_value (gs_board st0) q = Ok (Some v)).
Proof.
  intros Hsetup Hrun.
  destruct (game_setup_account config os input ctrl_A ctrl_B st0 fuel Hsetup)
    as (Hacc & Hwf0 & _).
  rewrite Hrun in Hacc. cbn [snd] in Hacc.
  destruct Hacc as (Hwf & _ & _ & Hsum & Hcells & _ & _ & _ & _ & _ & Hrem & _).
  destruct (game_setup_start _ _ _ _ _ _ Hsetup) as (_ & Ha & Hb & _).
  destruct (game_setup_good _ _ _ _ _ _ Hsetup) as (_ & _ & _ & _ & _ & Hround & _).
  exists (row_major (gs_board st0)), (row_major (gs_board st)).
  split; [now apply get_all_available_positions_spec|].
  split; [now apply get_all_available_positions_spec|].
  split; [unfold total in Hsum; lia|]. split; [unfold remaining in Hrem; lia|].
  intros q Hq. apply in_row_major in Hq. destruct (Hcells q Hq) as [Hq0 Hval].
  split; [now apply in_row_major|]. exists (value_of (gs_board st) q).
  split; [now apply available_value|]. rewrite Hval. now apply available_value.
Qed.

Lemma GameConfig_init_start_player (sz : Z) (mode a_strategy b_strategy : option string)
    (seed : option Z) (preset : option (list Z)) (start_player : option string) :
  let sp := cfg_start_player
              (GameConfig_init sz mode a_strategy b_strategy seed preset start_player) in
  (sp = "A"%string \/ sp = "B"%string)
  /\ (sp = "B"%string <-> upper (str_or start_player "A") = "B"%string)
  /\ upper (str_or (Some sp) "A") = sp.
Proof.
  cbn [GameConfig_init cfg_start_player].
  destruct (String.eqb_spec (upper (str_or start_player "A")) "A") as [->|HA].
  { cbn. split; [now left|]. split; [split; discriminate | reflexivity]. }
  destruct (String.eqb_spec (upper (str_or start_player "A")) "B") as [->|HB].
  { cbn. split; [now right|]. split; [split; reflexivity | reflexivity]. }
  cbn. split; [now left|]. split; [|reflexivity].
  split; [discriminate | intros Heq; contradiction].
Qed.

(** X13. In a game whose configuration was built by [GameConfig], the first
    player is B exactly when the configured start player upper-cases to "B",
    and A otherwise (absent, empty or unknown names included); the players
    then alternate, so the player to move after [n] rounds is the first
    player when [n] is even and the other one when it is odd.  Once a move
    has been made, the previous move the loop holds is the board's
    [last_removed_pos].  The loop reads the console input from the front, and
    reads none of it when both players are computers. *)
Theorem players_alternate (sz : Z) (mode a_strategy b_strategy : option string)
    (seed : option Z) (preset : option (list Z)) (start_player : option string)
    (os : entropy) (input : list line) (ctrl_A ctrl_B : PlayerController)
    (st0 st : GameState) (fuel : nat) (e : loop_end) :
  game_setup (GameConfig_init sz mode a_strategy b_strategy seed preset start_player)
    os input = Ok (ctrl_A, ctrl_B, st0) ->
  turn_loop fuel ctrl_A ctrl_B st0 = (e, st) ->
  (current st0 = "A"%string \/ current st0 = "B"%string)
  /\ (current st0 = "B"%string <-> upper (str_or start_player "A") = "B"%string)
  /\ current st = (if Z.even (round_num st) then current st0
                   else opponent (current st0))
  /\ (0 < round_num st ->
      last_pos st = last_removed_pos (gs_board st) /\ last_pos st <> None)
  /\ (exists consumed,
        input = consumed ++ stdin st
        /\ (String.eqb (upper (str_or mode "")) "C_VS_C" = true -> consumed = [])).
Proof.
  intros Hsetup Hrun.
  destruct (game_setup_account _ os input ctrl_A ctrl_B st0 fuel Hsetup)
    as (Hacc & _ & _).
  rewrite Hrun in Hacc. cbn [snd] in Hacc.
  destruct Hacc as (_ & _ & _ & _ & _ & (consumed & Hcons & Hnone) & _ & Hcur
                    & Hlp & _).
  destruct (game_setup_start _ _ _ _ _ _ Hsetup) as (_ & _ & _ & Hin & Hcur0 & _).
  destruct (game_setup_good _ _ _ _ _ _ Hsetup)
    as (_ & _ & _ & _ & _ & Hround & Hmode).
  destruct (GameConfig_init_start_player sz mode a_strategy b_strategy seed preset
              start_player) as (Hab & HB & Hup).
  cbv zeta in Hab, HB, Hup. rewrite Hup in Hcur0. rewrite <- Hcur0 in Hab, HB.
  rewrite Hround, Z.sub_0_r in Hcur. rewrite Hround in Hlp.
  split; [exact Hab|]. split; [exact HB|]. split; [now apply Hcur|].
  split; [exact Hlp|]. exists consumed. split; [now rewrite <- Hin|].
  intros Hcc. apply Hnone, Hmode. exact Hcc.
Qed.

(** X14. When [start_game] returns a summary, the winner is "A" exactly when
    A's score is the greater, "B" exactly when B's is, and "Tie" exactly
    when the scores are equal; the number of rounds is between 0 and
    [size*size]; and the mode is the configured mode upper-cased, one of
    H_VS_H, H_VS_C and C_VS_C. *)
Theorem start_game_summary (fuel : nat) (config : GameConfig) (os : entropy)
    (input : list line) (s : Summary) :
  start_game fuel config os input = Some (Ok s) ->
  (sum_winner s = "A"%string <-> sum_b_score s < sum_a_score s)
  /\ (sum_winner s = "B"%string <-> sum_a_score s < sum_b_score s)
  /\ (sum_winner s = "Tie"%string <-> sum_a_score s = sum_b_score s)
  /\ 0 <= sum_rounds s <= cfg_size config * cfg_size config
  /\ sum_mode s = upper (str_or (cfg_mode config) "")
  /\ In (sum_mode s) ["H_VS_H"; "H_VS_C"; "C_VS_C"]%string.
Proof.
  unfold start_game.
  destruct (game_setup config os input) as [[[ctrl_A ctrl_B] st0]|] eqn:Hsetup;
    [|discriminate].
  destruct (turn_loop fuel ctrl_A ctrl_B st0) as [e st] eqn:Hrun.
  destruct e; try discriminate.
  destruct (stdin st) as [|l rest]; [discriminate|].
  destruct (_guarded_input l); [|discriminate].
  intros [= <-]. cbn [sum_winner sum_a_score sum_b_score sum_rounds sum_mode].
  destruct (game_setup_account config os input ctrl_A ctrl_B st0 fuel Hsetup)
    as (Hacc & _ & _).
  rewrite Hrun in Hacc. cbn [snd] in Hacc.
  destruct Hacc as (_ & _ & _ & _ & _ & _ & Hle & _ & _ & _ & Hrem & _).
  destruct (game_setup_good _ _ _ _ _ _ Hsetup)
    as (_ & _ & _ & Hsize & _ & Hround & _).
  destruct (game_setup_start _ _ _ _ _ _ Hsetup) as (_ & _ & _ & _ & _ & Hmode).
  pose proof (remaining_bound (gs_board st0)) as Hbound. rewrite Hsize in Hbound.
  split; [|split; [|split; [|split; [lia|split; [reflexivity|]]]]].
  - destruct (Z.ltb_spec (b_score st) (a_score st)); [tauto|].
    destruct (Z.ltb_spec (a_score st) (b_score st)); split; (discriminate || lia).
  - destruct (Z.ltb_spec (b_score st) (a_score st)); [split; (discriminate || lia)|].
    destruct (Z.ltb_spec (a_score st) (b_score st)); [tauto|].
    split; (discriminate || lia).
  - destruct (Z.ltb_spec (b_score st) (a_score st)); [split; (discriminate || lia)|].
    destruct (Z.ltb_spec (a_score st) (b_score st)); [split; (discriminate || lia)|].
    split; [lia | reflexivity].
  - cbv zeta in Hmode. cbn [In].
    destruct (String.eqb_spec (upper (str_or (cfg_mode config) "")) "H_VS_H");
      [now left|].
    destruct (String.eqb_spec (upper (str_or (cfg_mode config) "")) "H_VS_C");
      [right; now left|].
    destruct (String.eqb_spec (upper (str_or (cfg_mode config) "")) "C_VS_C");
      [right; right; now left | discriminate].
Qed.

(** X15. A game between two computers always plays to its end: with fuel
    above [size*size] the turn loop stops by its [break] with an empty legal
    set and has read no input.  [start_game] then waits at its closing
    prompt: it returns the summary when a line other than Menu and Exit is
    typed, and raises [KeyboardInterrupt], [SystemExit] or [EOFError] for
    Menu, Exit or no input at all. *)
Theorem computer_game_plays_to_the_end (fuel : nat) (config : GameConfig)
    (os : entropy) (input : list line) (ctrl_A ctrl_B : PlayerController)
    (st0 : GameState) :
  game_setup config os input = Ok (ctrl_A, ctrl_B, st0) ->
  String.eqb (upper (str_or (cfg_mode config) "")) "C_VS_C" = true ->
  (Z.to_nat (cfg_size config * cfg_size config) < fuel)%nat ->
  exists st,
    turn_loop fuel ctrl_A ctrl_B st0 = (GameOver, st)
    /\ legal_positions (gs_board st) (last_pos st) = Ok []
    /\ stdin st = input
    /\ start_game fuel config os input
       = Some match input with
              | [] => Raise EOFError
              | Menu :: _ => Raise KeyboardInterrupt
              | Exit :: _ => Raise SystemExit
              | Other _ :: _ =>
                  Ok {| sum_a_score := a_score st; sum_b_score := b_score st;
                        sum_rounds := round_num st; sum_mode := "C_VS_C";
                        sum_winner :=
                          if b_score st <? a_score st then "A"
                          else if a_score st <? b_score st then "B"
                          else "Tie" |}
              end.
Proof.
  intros Hsetup Hcc Hfuel.
  destruct (game_setup_good _ _ _ _ _ _ Hsetup)
    as (HA & HB & Hwf & Hsize & Hlast & Hround & Hmode).
  specialize (Hmode Hcc).
  pose proof (remaining_bound (gs_board st0)) as Hbound. rewrite Hsize in Hbound.
  destruct (turn_loop_ends ctrl_A ctrl_B HA HB fuel st0 Hwf)
    as (e & st & Hrun & _ & _ & _ & Hend); [now rewrite Hlast | lia |].
  destruct Hend as [[-> Hover]|(x & _ & _ & Hhum & _)];
    [|rewrite Hmode in Hhum; discriminate].
  destruct (game_setup_account config os input ctrl_A ctrl_B st0 fuel Hsetup)
    as (Hacc & _ & _).
  rewrite Hrun in Hacc. cbn [snd] in Hacc.
  destruct Hacc as (_ & _ & _ & _ & _ & (consumed & Hcons & Hnone) & _).
  destruct (game_setup_start _ _ _ _ _ _ Hsetup) as (_ & _ & _ & Hin & _).
  rewrite (Hnone Hmode) in Hcons. cbn [app] in Hcons. rewrite Hin in Hcons.
  exists st. split; [exact Hrun|]. split; [exact Hover|]. split; [now symmetry|].
  unfold start_game. rewrite Hsetup, Hrun, <- Hcons.
  apply String.eqb_eq in Hcc. rewrite Hcc.
  destruct input as [|[| |parsed] rest]; reflexivity.
Qed.

End Games.

(** ** The turn loop and the console *)

Section TurnLoopAndConsole.
Context {R : PyRandom}.






End TurnLoopAndConsole.

Section TurnLoopClaim.
Context {R : PyRandom}.


End TurnLoopClaim.

(** ** The text display *)

Lemma str_int_not_a_mark (v : Z) : str_int v <> "X"%string /\ str_int v <> " "%string.
Proof.
  unfold str_int, DecimalString.NilZero.string_of_int,
    DecimalString.NilZero.string_of_uint.
  destruct v as [|p|p]; cbn [Z.to_int].
  - split; discriminate.
  - destruct (Pos.to_uint p); cbn; split; discriminate.
  - split; discriminate.
Qed.

Lemma fold_append_one {A B : Type} (g : A -> B) (xs : list A) (acc : list B) :
  fold_left (fun acc x => acc ++ [g x]) xs acc = acc ++ map g xs.
Proof.
  revert acc. induction xs as [|x xs IH]; intros acc; cbn.
  - now rewrite app_nil_r.
  - rewrite IH. now rewrite <- app_assoc.
Qed.

Lemma lookup_map_range {A : Type} (f : Z -> A) (n i : Z) :
  0 <= i < n -> map f (range n) !! Z.to_nat i = Some (f i).
Proof.
  intros Hi. unfold range. rewrite map_map.
  rewrite lookup_map_seq by lia. cbn. f_equal. f_equal. lia.
Qed.

Section DisplayFacts.
Context {R : PyRandom}.

Lemma is_last_removed_iff (b : BoardManager) (r c : Z) :
  is_last_removed b r c = true <-> last_removed_pos b = Some (r, c).
Proof.
  unfold is_last_removed. destruct (last_removed_pos b) as [[r' c']|].
  - rewrite andb_true_iff, !Z.eqb_eq. split; [intros [-> ->]; reflexivity|].
    intros [= -> ->]. split; reflexivity.
  - split; discriminate.
Qed.

Lemma row_str_cells (b : BoardManager) (r : Z) :
  well_formed b = true -> 0 <= r < size b ->
  row_str b r
  = Ok (map (fun c => match cell (board b) r c with
                      | None => if is_last_removed b r c
                                then "X"%string else " "%string
                      | Some v => str_int v
                      end) (range (size b))).
Proof.
  intros Hwf Hr. unfold row_str.
  rewrite (for_each_pure _ _
    (fun acc c => acc ++ [match cell (board b) r c with
                          | None => if is_last_removed b r c
                                    then "X"%string else " "%string
                          | Some v => str_int v
                          end])).
  - now rewrite (fold_append_one
      (fun c => match cell (board b) r c with
                | None => if is_last_removed b r c then "X"%string else " "%string
                | Some v => str_int v
                end)).
  - intros c acc Hc. apply in_range in Hc.
    assert (Hb : in_bounds b (r, c) = true) by (apply in_bounds_iff; lia).
    now rewrite (grid_get_cell b r c Hwf Hb).
Qed.

(** X16. [print_board] prints one line per row, each the row's cells joined
    by single spaces.  On every board a game can hold, the cell of a position
    is shown as "X" exactly when the position is the latest removed one, as a
    blank exactly when it was removed earlier, and as the decimal text of its
    value when it is still on the board. *)
Theorem print_board_marks_latest_removal (b : BoardManager) :
  reachable b ->
  exists rows : list (list string),
    print_board b = Ok (map (String.concat " ") rows)
    /\ length rows = Z.to_nat (size b)
    /\ (forall r c, in_bounds b (r, c) = true ->
          exists row txt,
            rows !! Z.to_nat r = Some row
            /\ length row = Z.to_nat (size b)
            /\ row !! Z.to_nat c = Some txt
            /\ (txt = "X"%string <-> last_removed_pos b = Some (r, c))
            /\ (txt = " "%string <->
                get_value b (r, c) = Ok None /\ last_removed_pos b <> Some (r, c))
            /\ (forall v, get_value b (r, c) = Ok (Some v) -> txt = str_int v)).
Proof.
  intros Hreach. pose proof (reachable_well_formed b Hreach) as Hwf.
  destruct (reachable_last_removed b Hreach) as [_ Hsome].
  set (text := fun r c => match cell (board b) r c with
                          | None => if is_last_removed b r c
                                    then "X"%string else " "%string
                          | Some v => str_int v
                          end).
  exists (map (fun r => map (text r) (range (size b))) (range (size b))).
  split; [|split].
  - unfold print_board.
    rewrite (for_each_pure _ _
      (fun out r => out ++ [String.concat " " (map (text r) (range (size b)))])).
    + rewrite (fold_append_one
        (fun r => String.concat " " (map (text r) (range (size b))))).
      cbn [app]. now rewrite map_map.
    + intros r out Hr. apply in_range in Hr.
      now rewrite (row_str_cells b r Hwf Hr).
  - now rewrite length_map, length_range.
  - intros r c Hin. pose proof Hin as [Hr Hc]%in_bounds_iff.
    exists (map (text r) (range (size b))), (text r c).
    split; [now apply (lookup_map_range (fun r => map (text r) (range (size b))))|].
    split; [now rewrite length_map, length_range|].
    split; [now apply lookup_map_range|].
    rewrite (get_value_spec b (r, c) Hwf Hin). cbn [fst snd]. unfold text.
    pose proof (is_last_removed_iff b r c) as Hlast.
    destruct (cell (board b) r c) as [v|] eqn:Hcell.
    + destruct (str_int_not_a_mark v) as [HX Hblank].
      assert (Hnot : last_removed_pos b <> Some (r, c)).
      { intros Hl. destruct (Hsome _ Hl) as [_ Hav]. unfold available in Hav.
        rewrite Hin in Hav. cbn [fst snd andb] in Hav. rewrite Hcell in Hav.
        discriminate. }
      split; [split; [intros ?; contradiction | intros ?; contradiction]|].
      split; [split; [intros ?; contradiction | intros [? _]; discriminate]|].
      now intros v' [= <-].
    + destruct (is_last_removed b r c).
      * split; [split; [intros _; now apply Hlast | reflexivity]|].
        split; [|discriminate]. split; [discriminate|].
        intros [_ Hne]. exfalso. apply Hne. now apply Hlast.
      * assert (Hnot : last_removed_pos b <> Some (r, c)).
        { intros Hl. apply Hlast in Hl. discriminate. }
        split; [split; [discriminate | intros ?; contradiction]|].
        split; [|discriminate]. split; [auto | reflexivity].
Qed.

End DisplayFacts.

(** ** load_config *)

Lemma for_each_app {A S : Type} (xs ys : list A) (body : A -> S -> result S) (s : S) :
  for_each (xs ++ ys) body s = (s' <- for_each xs body s ;; for_each ys body s').
Proof.
  revert s. induction xs as [|x xs IH]; intros s; cbn; [reflexivity|].
  destruct (body x s); cbn; [apply IH | reflexivity].
Qed.

Lemma load_lines_ok (lines : list config_line) (vars : LoadVars) :
  is_ok (for_each lines load_line vars)
  = forallb (fun l => negb (malformed l)) lines.
Proof.
  revert vars. induction lines as [|l lines IH]; intros vars; cbn; [reflexivity|].
  destruct l as [|[n|]|m|a|b|[n|]|[p|]|sp|src]; cbn; try apply IH; reflexivity.
Qed.

Lemma load_lines_error (lines : list config_line) (vars : LoadVars) (e : exn) :
  for_each lines load_line vars = Raise e -> e = invalid_literal.
Proof.
  revert vars. induction lines as [|l lines IH]; intros vars; cbn [for_each];
    [discriminate|].
  destruct (load_line l vars) as [v1|e1] eqn:Hline; cbn [bind].
  - apply IH.
  - intros [= <-].
    destruct l as [|[n|]|m|a|b|[n|]|[p|]|sp|src]; cbn in Hline;
      try discriminate; now injection Hline as <-.
Qed.

Lemma last_value_cons {T : Type} (sel : config_line -> option T)
    (l : config_line) (lines : list config_line) :
  last_value sel (l :: lines)
  = match last_value sel lines with
    | Some v => Some v
    | None => sel l
    end.
Proof.
  unfold last_value. cbn [omap list_omap].
  destruct (sel l) as [v|]; [rewrite last_cons|];
    destruct (last (omap sel lines)); reflexivity.
Qed.

(** After the loop each variable holds what the last line assigning it
    gave, or what it held before when no line assigns it. *)
Lemma load_lines_latest (lines : list config_line) (vars vars' : LoadVars) :
  for_each lines load_line vars = Ok vars' ->
  lv_size vars'
  = match last_value size_of lines with Some v => Some v | None => lv_size vars end
  /\ lv_mode vars'
     = match last_value mode_of lines with Some v => Some v | None => lv_mode vars end
  /\ lv_a_strategy vars'
     = match last_value a_strategy_of lines with
       | Some v => Some v
       | None => lv_a_strategy vars
       end
  /\ lv_b_strategy vars'
     = match last_value b_strategy_of lines with
       | Some v => Some v
       | None => lv_b_strategy vars
       end
  /\ lv_seed vars'
     = match last_value seed_of lines with Some v => Some v | None => lv_seed vars end
  /\ lv_preset_board vars'
     = match last_value board_of lines with
       | Some v => Some v
       | None => lv_preset_board vars
       end
  /\ lv_start_player vars'
     = match last_value start_player_of lines with
       | Some v => upper (str_or (Some v) "A")
       | None => lv_start_player vars
       end
  /\ lv_board_source vars'
     = match last_value board_source_of lines with
       | Some v => Some (upper v)
       | None => lv_board_source vars
       end.
Proof.
  revert vars. induction lines as [|l lines IH]; intros vars; cbn [for_each].
  { intros [= <-]. repeat split; reflexivity. }
  destruct (load_line l vars) as [vars1|e] eqn:Hline; [|discriminate]. cbn [bind].
  intros Hrest.
  destruct (IH vars1 Hrest) as (-> & -> & -> & -> & -> & -> & -> & ->).
  rewrite !last_value_cons.
  destruct l as [|[n|]|m|a|b|[n|]|[p|]|sp|src]; cbn in Hline; try discriminate;
    injection Hline as <-; cbn;
    repeat match goal with
           | |- context [last_value ?sel lines] => destruct (last_value sel lines)
           end;
    repeat split; reflexivity.
Qed.

Lemma sets_size_last_value (lines : list config_line) :
  existsb sets_size lines = is_not_None (last_value size_of lines).
Proof.
  induction lines as [|l lines IH]; [reflexivity|].
  rewrite last_value_cons. cbn [existsb]. rewrite IH.
  destruct (last_value size_of lines); [apply orb_true_r|].
  rewrite orb_false_r. now destruct l as [|[n|]|m|a|b|[n|]|[p|]|sp|src].
Qed.

Lemma upper_ascii_idempotent (ch : ascii) :
  upper_ascii (upper_ascii ch) = upper_ascii ch.
Proof. destruct ch as [[] [] [] [] [] [] [] []]; reflexivity. Qed.

Lemma upper_idempotent (s : string) : upper (upper s) = upper s.
Proof.
  induction s as [|ch s IH]; [reflexivity|].
  cbn [upper]. now rewrite upper_ascii_idempotent, IH.
Qed.

(** What [GameConfig] makes of the start player [load_config] hands it. *)
Lemma loaded_start_player (start : option string) :
  upper (str_or (Some (str_or (Some
           match start with
           | Some v => upper (str_or (Some v) "A")
           | None => "A"%string
           end) "A")) "A") = "B"%string
  <-> exists v, start = Some v /\ upper v = "B"%string.
Proof.
  destruct start as [[|ch v]|]; cbn [str_or upper].
  - split; [discriminate | intros (v & [= <-] & Hv); discriminate Hv].
  - rewrite upper_ascii_idempotent, upper_idempotent. split.
    + intros Hb. exists (String ch v). split; [reflexivity | exact Hb].
    + intros (v' & [= <-] & Hv). exact Hv.
  - split; [discriminate | intros (v & Hv & _); discriminate Hv].
Qed.

(** X17. [load_config] raises [FileNotFoundError] when there is no file.
    For a file that exists it fails, with a [ValueError], exactly when the
    file holds a byte that is not UTF-8, a SIZE, SEED or BOARD line read
    before that does not parse, or no SIZE line.  In the configuration it
    returns each setting comes from the last line that assigns it: the size;
    the mode, H_VS_C when no line gives one; the two strategies, absent when
    no line gives them; the start player, B when the last START_PLAYER
    upper-cases to B and A otherwise.  When the board source is MANUAL (the
    last BOARD_SOURCE says so, or says neither MANUAL nor RANDOM and a BOARD
    line is present) the preset is the last BOARD and the seed is dropped;
    otherwise the seed is the last SEED and the preset is dropped.  (The
    words compared after upper-casing are B, MANUAL and RANDOM; no character
    outside ASCII upper-cases into a letter of these, so [upper] decides the
    comparisons as [str.upper()] does.) *)
Theorem load_config_contract (file : option (list config_line * file_end)) :
  (file = None -> load_config file = Raise FileNotFoundError)
  /\ (forall lines ending, file = Some (lines, ending) ->
        is_ok (load_config file)
        = match ending with EndOfFile => true | DecodeError => false end
          && forallb (fun l => negb (malformed l)) lines
          && existsb sets_size lines
        /\ (forall e, load_config file = Raise e -> is_ValueError e = true)
        /\ (forall cfg, load_config file = Ok cfg ->
              Some (cfg_size cfg) = last_value size_of lines
              /\ cfg_mode cfg
                 = Some match last_value mode_of lines with
                        | Some m => m
                        | None => "H_VS_C"%string
                        end
              /\ cfg_a_strategy cfg = last_value a_strategy_of lines
              /\ cfg_b_strategy cfg = last_value b_strategy_of lines
              /\ (cfg_start_player cfg = "A"%string
                  \/ cfg_start_player cfg = "B"%string)
              /\ (cfg_start_player cfg = "B"%string
                  <-> exists v, last_value start_player_of lines = Some v
                                /\ upper v = "B"%string)
              /\ (manual_source lines = true ->
                  cfg_seed cfg = None
                  /\ cfg_preset_board cfg = last_value board_of lines)
              /\ (manual_source lines = false ->
                  cfg_seed cfg = last_value seed_of lines
                  /\ cfg_preset_board cfg = None))).
Proof.
  split; [now intros ->|]. intros lines ending ->.
  unfold load_config, read_lines.
  set (vars0 := {| lv_size := None; lv_mode := None; lv_a_strategy := None;
                   lv_b_strategy := None; lv_seed := None; lv_preset_board := None;
                   lv_start_player := "A"; lv_board_source := None |}).
  pose proof (load_lines_ok lines vars0) as Hok.
  destruct (for_each lines load_line vars0) as [vars|e0] eqn:Hlines; cbn [bind].
  2:{ cbn in Hok. rewrite <- Hok, andb_false_r. split; [reflexivity|].
      split; [|discriminate].
      intros e [= <-]. now rewrite (load_lines_error lines vars0 e0 Hlines). }
  cbn in Hok. rewrite <- Hok, andb_true_r.
  destruct ending; cbn [bind andb].
  2:{ split; [reflexivity|]. split; [|discriminate]. now intros e [= <-]. }
  destruct (load_lines_latest lines vars0 vars Hlines)
    as (Hsize & Hmode & Ha & Hb & Hseed & Hboard & Hstart & Hsource).
  cbn [vars0 lv_size lv_mode lv_a_strategy lv_b_strategy lv_seed lv_preset_board
       lv_start_player lv_board_source]
    in Hsize, Hmode, Ha, Hb, Hseed, Hboard, Hstart, Hsource.
  rewrite sets_size_last_value.
  rewrite Hsize, Hmode, Ha, Hb, Hseed, Hboard, Hstart, Hsource.
  destruct (last_value size_of lines) as [size|] eqn:Hsz; cbn [is_not_None].
  2:{ split; [reflexivity|]. split; [|discriminate]. now intros e [= <-]. }
  cbv zeta.
  set (board_source := if negb _ then _ else _).
  assert (Hmanual : String.eqb board_source "MANUAL" = manual_source lines).
  { unfold board_source, manual_source.
    destruct (last_value board_source_of lines) as [src|]; cbn [str_or negb].
    2:{ now destruct (last_value board_of lines). }
    destruct (String.eqb_spec (upper src) "RANDOM") as [Hr|Hr].
    { rewrite Hr. reflexivity. }
    destruct (String.eqb_spec (upper src) "MANUAL") as [Hm|Hm].
    { rewrite Hm. reflexivity. }
    cbn [orb negb]. now destruct (last_value board_of lines). }
  assert (Hpair : exists seed_to_use preset_to_use,
             (if String.eqb board_source "MANUAL"
              then (None, match last_value board_of lines with
                          | Some v => Some v
                          | None => None
                          end)
              else (match last_value seed_of lines with
                    | Some v => Some v
                    | None => None
                    end, None))
             = (seed_to_use, preset_to_use)
             /\ (manual_source lines = true ->
                 seed_to_use = None /\ preset_to_use = last_value board_of lines)
             /\ (manual_source lines = false ->
                 seed_to_use = last_value seed_of lines /\ preset_to_use = None)).
  { rewrite Hmanual. destruct (manual_source lines); do 2 eexists;
      (split; [reflexivity|]); split; try discriminate; intros _;
      (split; [|]); try reflexivity;
      match goal with |- context [last_value ?sel lines] =>
        now destruct (last_value sel lines) end. }
  destruct Hpair as (seed_to_use & preset_to_use & -> & Hman & Hrand).
  split; [reflexivity|]. split; [discriminate|].
  intros cfg [= <-].
  destruct (GameConfig_init_start_player size
              (Some match match last_value mode_of lines with
                          | Some v => Some v
                          | None => None
                          end with
                    | Some m => m
                    | None => "H_VS_C"%string
                    end)
              match last_value a_strategy_of lines with
              | Some v => Some v
              | None => None
              end
              match last_value b_strategy_of lines with
              | Some v => Some v
              | None => None
              end seed_to_use preset_to_use
              (Some (str_or (Some match last_value start_player_of lines with
                                  | Some v => upper (str_or (Some v) "A")
                                  | None => "A"%string
                                  end) "A"))) as (Hab & HB & _).
  cbv zeta in Hab, HB.
  split; [reflexivity|].
  split; [cbn [GameConfig_init cfg_mode]; now destruct (last_value mode_of lines)|].
  split; [cbn [GameConfig_init cfg_a_strategy];
          now destruct (last_value a_strategy_of lines)|].
  split; [cbn [GameConfig_init cfg_b_strategy];
          now destruct (last_value b_strategy_of lines)|].
  split; [exact Hab|].
  split; [rewrite HB; apply loaded_start_player|].
  split; [exact Hman | exact Hrand].
Qed.

(** ** The further properties on concrete boards and games *)

Lemma board_after_opening_reachable : reachable board_after_opening.
Proof.
  apply (reach_remove (R := lcg)
           (@Build_BoardManager lcg 3 0
              [[Some 1; Some 2; Some 3]; [Some 4; Some 5; Some 6];
               [Some 7; Some 8; Some 9]] None)
           board_after_opening (0, 0) 1); [|reflexivity].
  apply (reach_init (R := lcg) 3 None (Some [1; 2; 3; 4; 5; 6; 7; 8; 9]) 0).
  reflexivity.
Defined.

Lemma best_by_key_both_ways_witness :
  (forall q, In q [(0, 1); (0, 2); (1, 0); (2, 0)] ->
     cret (key_greedy board_after_opening q) board_after_opening
     = (Ok (key_greedy board_after_opening q), board_after_opening))
  /\ exists p,
       _best_by_key [(0, 1); (0, 2); (1, 0); (2, 0)]
         (fun q => cret (key_greedy board_after_opening q)) false
         board_after_opening
       = (Ok (Some p), board_after_opening)
       /\ first_best false (key_greedy board_after_opening)
            [(0, 1); (0, 2); (1, 0); (2, 0)] p.
Proof.
  split; [intros q _; reflexivity|].
  destruct (best_by_key_both_ways false (key_greedy board_after_opening)
              (fun q => cret (key_greedy board_after_opening q))
              board_after_opening [(0, 1); (0, 2); (1, 0); (2, 0)]
              (fun q _ => eq_refl)) as [_ Hsome].
  destruct (Hsome ltac:(discriminate)) as (p & Hrun & Hfirst & _).
  exists p. split; [exact Hrun | exact Hfirst].
Defined.

Lemma opponent_options_choice_witness :
  well_formed board_after_opening = true
  /\ on_board board_after_opening (Some (0, 0)) = true
  /\ legal_positions board_after_opening (Some (0, 0))
     = Ok [(0, 1); (0, 2); (1, 0); (2, 0)]
  /\ exists p,
       strategy_minimize_opponent_options board_after_opening (Some (0, 0))
       = (Ok (Some p), board_after_opening)
       /\ first_max (key_opponent_options board_after_opening)
            [(0, 1); (0, 2); (1, 0); (2, 0)] p.
Proof.
  split; [reflexivity|]. split; [reflexivity|]. split; [reflexivity|].
  destruct (opponent_options_choice board_after_opening (Some (0, 0))
              [(0, 1); (0, 2); (1, 0); (2, 0)] eq_refl eq_refl eq_refl
              ltac:(discriminate)) as (p & Hrun & Hfm & _).
  exists p. split; [exact Hrun | exact Hfm].
Defined.

Lemma strategies_refuse_empty_legal_set_witness :
  legal_positions exhausted_board (Some (0, 0)) = Ok []
  /\ strategy_greedy_maximize exhausted_board (Some (0, 0))
     = (Raise no_allowed_moves, exhausted_board).
Proof.
  split; [reflexivity|].
  pose proof (strategies_refuse_empty_legal_set exhausted_board (Some (0, 0))
                eq_refl) as Hall.
  apply Forall_cons in Hall as [Hfirst _]. exact Hfirst.
Defined.

Lemma any_available_iff_witness :
  well_formed exhausted_board = true
  /\ exists v,
       any_available exhausted_board = Ok v
       /\ (v = false <-> get_all_available_positions exhausted_board = Ok []).
Proof.
  split; [reflexivity|].
  destruct (any_available_iff exhausted_board eq_refl) as (v & Hrun & _ & Hnone).
  exists v. split; [exact Hrun | exact Hnone].
Defined.

Lemma max_remaining_value_bounds_witness :
  well_formed negative_board = true
  /\ exists m,
       max_remaining_value negative_board = Ok m
       /\ 0 <= m
       /\ (forall p v, in_bounds negative_board p = true ->
             get_value negative_board p = Ok (Some v) -> v <= m).
Proof.
  split; [reflexivity|].
  destruct (max_remaining_value_bounds negative_board eq_refl)
    as (m & Hrun & Hpos & Hupper & _).
  exists m. split; [exact Hrun|]. split; [exact Hpos | exact Hupper].
Defined.

Lemma get_value_out_of_bounds_witness :
  well_formed board_after_opening = true
  /\ in_bounds board_after_opening (-1, 0) = false
  /\ is_available board_after_opening (-1, 0) = Ok false
  /\ remove_and_get (-1, 0) board_after_opening
     = (Raise (ValueError "Attempted to remove unavailable position"),
        board_after_opening).
Proof.
  split; [reflexivity|]. split; [reflexivity|].
  destruct (get_value_out_of_bounds board_after_opening (-1) 0 eq_refl eq_refl)
    as (_ & _ & Hav & Hrefuse).
  split; [exact Hav | exact Hrefuse].
Defined.

Lemma fresh_board_fully_available_witness :
  exists b : @BoardManager lcg,
    BoardManager_init (R := lcg) 2 None (Some [1; 2; 3; 4]) 0 = Ok b
    /\ size b = 2 /\ last_removed_pos b = None
    /\ (forall p, in_bounds b p = true -> is_available b p = Ok true).
Proof.
  eexists. split; [reflexivity|].
  destruct (fresh_board_fully_available (R := lcg) 2 None (Some [1; 2; 3; 4]) 0 _
              eq_refl) as (Hsize & Hlast & Hall & _).
  split; [exact Hsize|]. split; [exact Hlast | exact Hall].
Defined.

Lemma latest_removal_is_recorded_witness :
  reachable board_after_opening
  /\ forall p, last_removed_pos board_after_opening = Some p ->
       in_bounds board_after_opening p = true
       /\ get_value board_after_opening p = Ok None
       /\ is_available board_after_opening p = Ok false.
Proof.
  split; [exact board_after_opening_reachable|].
  exact (proj2 (latest_removal_is_recorded board_after_opening
                  board_after_opening_reachable)).
Defined.

Lemma legal_set_after_move_witness :
  well_formed board_after_opening = true
  /\ remove_and_get (2, 0) board_after_opening
     = (Ok 7, removed board_after_opening (2, 0))
  /\ exists l,
       get_allowed_positions (removed board_after_opening (2, 0)) (2, 0) = Ok l
       /\ ~ In (2, 0) l
       /\ (forall q, In q l <->
             q <> (2, 0) /\ is_available board_after_opening q = Ok true
             /\ (fst q = 2 \/ snd q = 0)).
Proof.
  split; [reflexivity|]. split; [reflexivity|].
  destruct (legal_set_after_move board_after_opening
              (removed board_after_opening (2, 0)) (2, 0) 7 eq_refl eq_refl)
    as (_ & l & Hrun & _ & Hnot & Hmem).
  exists l. split; [exact Hrun|]. split; [exact Hnot | exact Hmem].
Defined.

Lemma game_setup_accepts_witness :
  is_ascii (str_or (cfg_mode computer_game) "") = true
  /\ is_ascii (cfg_start_player computer_game) = true
  /\ is_ok (game_setup (R := lcg) computer_game 0 []) = accepted computer_game
  /\ accepted computer_game = true.
Proof.
  split; [reflexivity|]. split; [reflexivity|]. split; [|reflexivity].
  exact (proj1 (game_setup_accepts (R := lcg) computer_game 0 [] eq_refl eq_refl)).
Defined.

Lemma human_move_reads_to_first_decisive_line_witness :
  well_formed board_after_opening = true
  /\ on_board board_after_opening (Some (0, 0)) = true
  /\ exists skipped unread,
       [Other None; Other (Some (1, 1)); Other (Some (0, 2)); Menu]
       = skipped ++ unread
       /\ Forall (fun l => exists parsed,
                    l = Other parsed
                    /\ forall pos, parsed = Some pos ->
                         ~ In pos (legal_set board_after_opening (Some (0, 0))))
            skipped.
Proof.
  split; [reflexivity|]. split; [reflexivity|].
  destruct (human_move_reads_to_first_decisive_line board_after_opening
              (Some (0, 0))
              [Other None; Other (Some (1, 1)); Other (Some (0, 2)); Menu]
              eq_refl eq_refl) as (skipped & Hskipped & Hcases).
  exists skipped.
  destruct Hcases as [(pos & rest & Hsplit & _)|[(rest & Hsplit & _)|
                      [(rest & Hsplit & _)|[Hsplit _]]]].
  - exists (Other (Some pos) :: rest). split; [exact Hsplit | exact Hskipped].
  - exists (Menu :: rest). split; [exact Hsplit | exact Hskipped].
  - exists (Exit :: rest). split; [exact Hsplit | exact Hskipped].
  - exists []. split; [now rewrite app_nil_r | exact Hskipped].
Defined.

Lemma scores_account_for_removed_cells_witness :
  exists ctrl_A ctrl_B st0,
    game_setup (R := lcg) computer_game 0 [] = Ok (ctrl_A, ctrl_B, st0)
    /\ exists e st,
         turn_loop 5 ctrl_A ctrl_B st0 = (e, st)
         /\ exists cells0 cells,
              get_all_available_positions (gs_board st0) = Ok cells0
              /\ get_all_available_positions (gs_board st) = Ok cells
              /\ a_score st + b_score st
                 + fold_right Z.add 0 (map (value_of (gs_board st)) cells)
                 = fold_right Z.add 0 (map (value_of (gs_board st0)) cells0)
              /\ round_num st = Z.of_nat (length cells0) - Z.of_nat (length cells).
Proof.
  pose (ctrl_A := ("computer"%string, Some (strategy_greedy_maximize (R := lcg)))
                  : PlayerController).
  pose (ctrl_B := ("computer"%string,
                   Some (strategy_minimize_opponent_options (R := lcg)))
                  : PlayerController).
  pose (st0 := {| gs_board := @Build_BoardManager lcg 2 0
                                [[Some 1; Some 2]; [Some 3; Some 4]] None;
                  a_score := 0; b_score := 0; round_num := 0; last_pos := None;
                  current := "B"; stdin := [] |}).
  pose (st := {| gs_board := @Build_BoardManager lcg 2 0
                               [[None; None]; [None; None]] (Some (0, 1));
                 a_score := 5; b_score := 5; round_num := 4;
                 last_pos := Some (0, 1); current := "B"; stdin := [] |}).
  assert (Hsetup : game_setup (R := lcg) computer_game 0 []
                   = Ok (ctrl_A, ctrl_B, st0)) by reflexivity.
  assert (Hrun : turn_loop 5 ctrl_A ctrl_B st0 = (GameOver, st)) by reflexivity.
  exists ctrl_A, ctrl_B, st0. split; [exact Hsetup|].
  exists GameOver, st. split; [exact Hrun|].
  destruct (scores_account_for_removed_cells (R := lcg) computer_game 0 []
              ctrl_A ctrl_B st0 st 5 GameOver Hsetup Hrun)
    as (cells0 & cells & Hcells0 & Hcells & Hsum & Hround & _).
  exists cells0, cells. split; [exact Hcells0|]. split; [exact Hcells|].
  split; [exact Hsum | exact Hround].
Defined.

Lemma players_alternate_witness :
  exists ctrl_A ctrl_B st0,
    game_setup (R := lcg)
      (GameConfig_init 2 (Some "c_vs_c"%string) (Some "Greedy"%string)
         (Some "MinimizeOpponentOptions"%string) None (Some [1; 2; 3; 4])
         (Some "b"%string)) 0 []
    = Ok (ctrl_A, ctrl_B, st0)
    /\ exists e st,
         turn_loop 3 ctrl_A ctrl_B st0 = (e, st)
         /\ current st0 = "B"%string
         /\ current st = (if Z.even (round_num st) then current st0
                          else opponent (current st0))
         /\ last_pos st = last_removed_pos (gs_board st).
Proof.
  pose (ctrl_A := ("computer"%string, Some (strategy_greedy_maximize (R := lcg)))
                  : PlayerController).
  pose (ctrl_B := ("computer"%string,
                   Some (strategy_minimize_opponent_options (R := lcg)))
                  : PlayerController).
  pose (st0 := {| gs_board := @Build_BoardManager lcg 2 0
                                [[Some 1; Some 2]; [Some 3; Some 4]] None;
                  a_score := 0; b_score := 0; round_num := 0; last_pos := None;
                  current := "B"; stdin := [] |}).
  pose (st := {| gs_board := @Build_BoardManager lcg 2 0
                               [[None; Some 2]; [None; None]] (Some (0, 0));
                 a_score := 3; b_score := 5; round_num := 3;
                 last_pos := Some (0, 0); current := "A"; stdin := [] |}).
  assert (Hsetup : game_setup (R := lcg)
                     (GameConfig_init 2 (Some "c_vs_c"%string)
                        (Some "Greedy"%string)
                        (Some "MinimizeOpponentOptions"%string) None
                        (Some [1; 2; 3; 4]) (Some "b"%string)) 0 []
                   = Ok (ctrl_A, ctrl_B, st0)) by reflexivity.
  assert (Hrun : turn_loop 3 ctrl_A ctrl_B st0 = (OutOfFuel, st)) by reflexivity.
  exists ctrl_A, ctrl_B, st0. split; [exact Hsetup|].
  exists OutOfFuel, st. split; [exact Hrun|].
  destruct (players_alternate (R := lcg) 2 (Some "c_vs_c"%string)
              (Some "Greedy"%string) (Some "MinimizeOpponentOptions"%string) None
              (Some [1; 2; 3; 4]) (Some "b"%string) 0 [] ctrl_A ctrl_B st0 st 3
              OutOfFuel Hsetup Hrun) as (_ & Hstart & Hturn & Hlast & _).
  split; [exact (proj2 Hstart eq_refl)|]. split; [exact Hturn|].
  exact (proj1 (Hlast ltac:(cbn; lia))).
Defined.

Lemma start_game_summary_witness :
  exists s,
    start_game (R := lcg) 5 computer_game 0 [Other None] = Some (Ok s)
    /\ (sum_winner s = "Tie"%string <-> sum_a_score s = sum_b_score s)
    /\ 0 <= sum_rounds s <= cfg_size computer_game * cfg_size computer_game
    /\ sum_mode s = upper (str_or (cfg_mode computer_game) "").
Proof.
  assert (Hrun : start_game (R := lcg) 5 computer_game 0 [Other None]
                 = Some (Ok {| sum_a_score := 5; sum_b_score := 5; sum_rounds := 4;
                               sum_mode := "C_VS_C"; sum_winner := "Tie" |}))
    by reflexivity.
  eexists. split; [exact Hrun|].
  destruct (start_game_summary (R := lcg) 5 computer_game 0 [Other None] _ Hrun)
    as (_ & _ & Htie & Hrounds & Hmode & _).
  split; [exact Htie|]. split; [exact Hrounds | exact Hmode].
Defined.

Lemma computer_game_plays_to_the_end_witness :
  exists ctrl_A ctrl_B st0,
    game_setup (R := lcg) computer_game 0 [Exit] = Ok (ctrl_A, ctrl_B, st0)
    /\ String.eqb (upper (str_or (cfg_mode computer_game) "")) "C_VS_C" = true
    /\ (Z.to_nat (cfg_size computer_game * cfg_size computer_game) < 5)%nat
    /\ exists st,
         turn_loop 5 ctrl_A ctrl_B st0 = (GameOver, st)
         /\ legal_positions (gs_board st) (last_pos st) = Ok []
         /\ stdin st = [Exit]
         /\ start_game (R := lcg) 5 computer_game 0 [Exit] = Some (Raise SystemExit).
Proof.
  do 3 eexists. split; [reflexivity|]. split; [reflexivity|].
  assert (Hfuel : (Z.to_nat (cfg_size computer_game * cfg_size computer_game) < 5)%nat)
    by (cbn; lia).
  split; [exact Hfuel|].
  destruct (computer_game_plays_to_the_end (R := lcg) 5 computer_game 0 [Exit] _ _ _
              eq_refl eq_refl Hfuel) as (st & Hrun & Hlegal & Hin & Hgame).
  exists st. split; [exact Hrun|]. split; [exact Hlegal|].
  split; [exact Hin | exact Hgame].
Defined.

Lemma print_board_marks_latest_removal_witness :
  reachable board_after_opening
  /\ exists rows : list (list string),
       print_board board_after_opening = Ok (map (String.concat " ") rows)
       /\ length rows = Z.to_nat (size board_after_opening).
Proof.
  split; [exact board_after_opening_reachable|].
  destruct (print_board_marks_latest_removal board_after_opening
              board_after_opening_reachable) as (rows & Hrun & Hlen & _).
  exists rows. split; [exact Hrun | exact Hlen].
Defined.

Lemma load_config_contract_witness :
  exists cfg,
    load_config (Some ([SizeLine (Some 3); Skipped; BoardLine (Some [1; 2]);
                        ModeLine "c_vs_c"; SizeLine (Some 4); SeedLine (Some 7)],
                       EndOfFile)) = Ok cfg
    /\ cfg_size cfg = 4
    /\ cfg_mode cfg = Some "c_vs_c"%string
    /\ cfg_seed cfg = None
    /\ cfg_preset_board cfg = Some [1; 2].
Proof.
  assert (Hrun : load_config
                   (Some ([SizeLine (Some 3); Skipped; BoardLine (Some [1; 2]);
                           ModeLine "c_vs_c"; SizeLine (Some 4); SeedLine (Some 7)],
                          EndOfFile))
                 = Ok {| cfg_size := 4; cfg_mode := Some "c_vs_c"%string;
                         cfg_a_strategy := None; cfg_b_strategy := None;
                         cfg_seed := None; cfg_preset_board := Some [1; 2];
                         cfg_start_player := "A" |})
    by reflexivity.
  eexists. split; [exact Hrun|].
  destruct (load_config_contract
              (Some ([SizeLine (Some 3); Skipped; BoardLine (Some [1; 2]);
                      ModeLine "c_vs_c"; SizeLine (Some 4); SeedLine (Some 7)],
                     EndOfFile))) as [_ Hfile].
  destruct (Hfile _ _ eq_refl) as (_ & _ & Hcfg).
  destruct (Hcfg _ Hrun) as (Hsize & Hmode & _ & _ & _ & _ & Hman & _).
  split; [exact (f_equal (fun o => match o with Some n => n | None => 0 end) Hsize)|].
  split; [exact Hmode|]. exact (Hman eq_refl).
Defined.



(** C9.  The rule that a size is at least 2 is applied by the board size
    menu only; the way from the configuration file to the board does not
    apply it.  A config.txt with SIZE=1, MODE=C_VS_C, two strategies and
    BOARD=5 is loaded as it stands, [start_game] builds the 1x1 board from it
    and plays the game to its end, and [BoardManager] builds boards of size
    1 and 0 where the construction is required to fail. *)
Lemma size_below_two_is_constructed :
  load_config
    (Some ([SizeLine (Some 1); ModeLine "C_VS_C"; AStrategyLine "Greedy";
            BStrategyLine "Greedy"; BoardLine (Some [5])], EndOfFile))
  = Ok {| cfg_size := 1; cfg_mode := Some "C_VS_C"%string;
          cfg_a_strategy := Some "Greedy"%string;
          cfg_b_strategy := Some "Greedy"%string;
          cfg_seed := None; cfg_preset_board := Some [5];
          cfg_start_player := "A" |}
  /\ BoardManager_init (R := lcg) 1 None (Some [5]) 0
     = Ok (@Build_BoardManager lcg 1 0 [[Some 5]] None)
  /\ start_game (R := lcg) 3
       {| cfg_size := 1; cfg_mode := Some "C_VS_C"%string;
          cfg_a_strategy := Some "Greedy"%string;
          cfg_b_strategy := Some "Greedy"%string;
          cfg_seed := None; cfg_preset_board := Some [5];
          cfg_start_player := "A" |} 0 [Other None]
     = Some (Ok {| sum_a_score := 5; sum_b_score := 0; sum_rounds := 1;
                   sum_mode := "C_VS_C"; sum_winner := "A" |})
  /\ BoardManager_init (R := lcg) 0 None (Some []) 0
     = Ok (@Build_BoardManager lcg 0 0 [] None)
  /\ is_ok (BoardManager_init (R := lcg) 1 (Some 7) None 0) = true.
Proof. repeat split; reflexivity. Qed.
